(** * Task manager: a shallow embedding of the task store, the persistence
      gateway, the sort engine and the statistics engine.

    Sources embedded here:
    - [taskManager.js]  (createTask, getAllTasks, getTaskById, updateTask,
      deleteTask, toggleTaskStatus, getTaskCounts, bulkUpdateTasks,
      bulkDeleteTasks, createSubtask, getSubtasks, updateParentTaskProgress,
      calculateNextOccurrence, createNextRecurrence,
      toggleTaskStatusWithRecurrence);
    - the localStorage module (getData, saveData, getTasks, saveTasks,
      handleQuotaExceeded, exportTasks);
    - the utility module (generateId, sanitizeString, isOverdue,
      validateDate, truncate, escapeHtml);
    - the filtering and sorting module (filterTasks, sortTasks,
      filterAndSortTasks, getOverdueTasks, getTasksDueToday,
      getTasksDueThisWeek);
    - the statistics module (calculateStatistics, getPriorityDistribution,
      getStatusDistribution, getOverdueStats, getUpcomingSummary);
    - the drag and drop module (reorderTasks).

    JavaScript values are modelled as follows.  Strings are [string], one
    character per code unit, which limits them to code units below 256; a
    field that may be [null]/[undefined] is an [option]; a number that may
    be [NaN] is an [option Z] with [None] for [NaN]; a [Date] object is its
    time value, an [option Z] (milliseconds since the epoch, [None] for an
    invalid date).  The browser (clock, random numbers, localStorage
    capacity, dialogs, the DOM text serializer, the date parser, the local
    time zone) is a record of oracles, [Host]. *)

From Stdlib Require Import ZArith List String Ascii Bool Lia Permutation Sorted.
From Stdlib Require Import DecimalString.
Import ListNotations.

Local Open Scope string_scope.
Local Open Scope Z_scope.

(* ================================================================== *)
(** ** Strings *)

Module JSString.

(** The white space and line terminators that [String.prototype.trim]
    removes, among the code units a [string] holds (those below 256):
    TAB, LF, VT, FF, CR, SP and the no-break space U+00A0. *)
Definition is_ws (c : ascii) : bool :=
  match nat_of_ascii c with
  | 9%nat | 10%nat | 11%nat | 12%nat | 13%nat | 32%nat | 160%nat => true
  | _ => false
  end.

Fixpoint trimStart (s : string) : string :=
  match s with
  | EmptyString => EmptyString
  | String c r => if is_ws c then trimStart r else s
  end.

(** [trimEnd] keeps a character when it is not white space or when
    something survives to its right. *)
Fixpoint trimEnd (s : string) : string :=
  match s with
  | EmptyString => EmptyString
  | String c r =>
      match trimEnd r with
      | EmptyString => if is_ws c then EmptyString else String c EmptyString
      | r' => String c r'
      end
  end.

Definition trim (s : string) : string := trimEnd (trimStart s).

(** JavaScript truthiness of a string: only [''] is falsy. *)
Definition truthy (s : string) : bool :=
  match s with EmptyString => false | _ => true end.

(** Truthiness of a value that is a string or [null]/[undefined]. *)
Definition truthy_opt (o : option string) : bool :=
  match o with Some s => truthy s | None => false end.

(** [str.split(c)[0]]: the part before the first occurrence of [c]. *)
Fixpoint split_head (c : ascii) (s : string) : string :=
  match s with
  | EmptyString => EmptyString
  | String a r => if Ascii.eqb a c then EmptyString else String a (split_head c r)
  end.

(** [String(n)] for an integer [n]. *)
Definition of_Z (z : Z) : string := NilZero.string_of_int (Z.to_int z).

Definition digit (z : Z) : ascii := ascii_of_nat (48 + Z.to_nat (z mod 10)).

(** [String(n).padStart(w, '0')] for [0 <= n < 10^w]: the last [w]
    decimal digits of [n]. *)
Fixpoint pad (w : nat) (z : Z) : string :=
  match w with
  | O => EmptyString
  | S k => pad k (z / 10) ++ String (digit z) EmptyString
  end.

(** Value of a string of decimal digits, [None] when a character is not
    a digit or the string is empty. *)
Definition digit_val (c : ascii) : option Z :=
  let n := nat_of_ascii c in
  if (48 <=? n)%nat && (n <=? 57)%nat then Some (Z.of_nat n - 48) else None.

Fixpoint digits_acc (acc : Z) (s : string) : option Z :=
  match s with
  | EmptyString => Some acc
  | String c r =>
      match digit_val c with
      | Some d => digits_acc (10 * acc + d) r
      | None => None
      end
  end.

Definition digits (s : string) : option Z :=
  match s with
  | EmptyString => None
  | _ => digits_acc 0 s
  end.

End JSString.

(* ================================================================== *)
(** ** Dates: the time-value arithmetic of ECMA-262, section "Date Objects" *)

Module JSDate.

Definition msPerDay : Z := 86400000.

Definition Day (t : Z) : Z := t / msPerDay.
Definition TimeWithinDay (t : Z) : Z := t mod msPerDay.

Definition DayFromYear (y : Z) : Z :=
  365 * (y - 1970) + (y - 1969) / 4 - (y - 1901) / 100 + (y - 1601) / 400.

Definition isLeap (y : Z) : bool :=
  (y mod 4 =? 0) && (negb (y mod 100 =? 0) || (y mod 400 =? 0)).

(** The largest [y] with [DayFromYear y <= d], found from the mean year
    length of 146097/400 days and one correction step. *)
Definition YearFromDay (d : Z) : Z :=
  let y := 1970 + (400 * d) / 146097 in
  if d <? DayFromYear y then y - 1
  else if DayFromYear (y + 1) <=? d then y + 1
  else y.

Definition YearFromTime (t : Z) : Z := YearFromDay (Day t).
Definition InLeapYear (t : Z) : bool := isLeap (YearFromTime t).
Definition DayWithinYear (t : Z) : Z := Day t - DayFromYear (YearFromTime t).

(** Day within the year on which month [m] (0 = January) starts. *)
Definition monthStart (m : Z) (leap : bool) : Z :=
  let l := if leap then 1 else 0 in
  match m with
  | 0 => 0
  | 1 => 31
  | 2 => 59 + l
  | 3 => 90 + l
  | 4 => 120 + l
  | 5 => 151 + l
  | 6 => 181 + l
  | 7 => 212 + l
  | 8 => 243 + l
  | 9 => 273 + l
  | 10 => 304 + l
  | _ => 334 + l
  end.

Definition monthOfYearDay (d : Z) (leap : bool) : Z :=
  if d <? monthStart 1 leap then 0
  else if d <? monthStart 2 leap then 1
  else if d <? monthStart 3 leap then 2
  else if d <? monthStart 4 leap then 3
  else if d <? monthStart 5 leap then 4
  else if d <? monthStart 6 leap then 5
  else if d <? monthStart 7 leap then 6
  else if d <? monthStart 8 leap then 7
  else if d <? monthStart 9 leap then 8
  else if d <? monthStart 10 leap then 9
  else if d <? monthStart 11 leap then 10
  else 11.

Definition MonthFromTime (t : Z) : Z :=
  monthOfYearDay (DayWithinYear t) (InLeapYear t).

Definition DateFromTime (t : Z) : Z :=
  DayWithinYear t - monthStart (MonthFromTime t) (InLeapYear t) + 1.

Definition HourFromTime (t : Z) : Z := (t / 3600000) mod 24.
Definition MinFromTime (t : Z) : Z := (t / 60000) mod 60.
Definition SecFromTime (t : Z) : Z := (t / 1000) mod 60.
Definition msFromTime (t : Z) : Z := t mod 1000.

(** [MakeDay(year, month, date)]: months outside 0..11 carry into the
    year, days outside the month carry into the following months. *)
Definition MakeDay (year month date : Z) : Z :=
  let ym := year + month / 12 in
  let mn := month mod 12 in
  DayFromYear ym + monthStart mn (isLeap ym) + date - 1.

Definition MakeTime (h m s ms : Z) : Z :=
  h * 3600000 + m * 60000 + s * 1000 + ms.

Definition MakeDate (day time : Z) : Z := day * msPerDay + time.

Definition maxTime : Z := 8640000000000000.

Definition TimeClip (t : Z) : option Z :=
  if Z.abs t <=? maxTime then Some t else None.

(** A [Date] object is its time value; [None] is the invalid date. *)
Definition Date : Type := option Z.

Section LocalTime.
(** The host's offset of local time from UTC, in milliseconds, taken
    as fixed (no daylight-saving transitions). *)
Variable LocalTZA : Z.

Definition LocalTime (t : Z) : Z := t + LocalTZA.
Definition UTC (t : Z) : Z := t - LocalTZA.

(** [d.getDate()] *)
Definition getDate (d : Date) : option Z :=
  option_map (fun t => DateFromTime (LocalTime t)) d.

(** [d.getMonth()] *)
Definition getMonth (d : Date) : option Z :=
  option_map (fun t => MonthFromTime (LocalTime t)) d.

(** [d.setDate(dt)] *)
Definition setDate (d : Date) (dt : option Z) : Date :=
  match d, dt with
  | Some t, Some n =>
      let lt := LocalTime t in
      TimeClip (UTC (MakeDate (MakeDay (YearFromTime lt) (MonthFromTime lt) n)
                              (TimeWithinDay lt)))
  | _, _ => None
  end.

(** [d.setMonth(m)] *)
Definition setMonth (d : Date) (m : option Z) : Date :=
  match d, m with
  | Some t, Some n =>
      let lt := LocalTime t in
      TimeClip (UTC (MakeDate (MakeDay (YearFromTime lt) n (DateFromTime lt))
                              (TimeWithinDay lt)))
  | _, _ => None
  end.

(** [d.setHours(0, 0, 0, 0)] *)
Definition setHours0 (d : Date) : Date :=
  match d with
  | Some t => TimeClip (UTC (MakeDate (Day (LocalTime t)) (MakeTime 0 0 0 0)))
  | None => None
  end.
End LocalTime.

(** Relational comparison of two dates (or of their [getTime()]): every
    comparison with an invalid date is false. *)
Definition lt (a b : Date) : bool :=
  match a, b with Some x, Some y => x <? y | _, _ => false end.
Definition le (a b : Date) : bool :=
  match a, b with Some x, Some y => x <=? y | _, _ => false end.
Definition gt (a b : Date) : bool := lt b a.
Definition ge (a b : Date) : bool := le b a.
(** [a.getTime() === b.getTime()] *)
Definition same (a b : Date) : bool :=
  match a, b with Some x, Some y => x =? y | _, _ => false end.

(** [a - b] on dates. *)
Definition sub (a b : Date) : option Z :=
  match a, b with Some x, Some y => Some (x - y) | _, _ => None end.

(** The year of [toISOString]: four digits for 0..9999, otherwise a sign
    and six digits. *)
Definition isoYear (y : Z) : string :=
  if (0 <=? y) && (y <=? 9999) then JSString.pad 4 y
  else if y <? 0 then "-" ++ JSString.pad 6 (- y)
  else "+" ++ JSString.pad 6 y.

(** [new Date(t).toISOString()] for a valid time value [t]. *)
Definition toISOString (t : Z) : string :=
  isoYear (YearFromTime t) ++ "-" ++ JSString.pad 2 (MonthFromTime t + 1)
    ++ "-" ++ JSString.pad 2 (DateFromTime t)
    ++ "T" ++ JSString.pad 2 (HourFromTime t)
    ++ ":" ++ JSString.pad 2 (MinFromTime t)
    ++ ":" ++ JSString.pad 2 (SecFromTime t)
    ++ "." ++ JSString.pad 3 (msFromTime t) ++ "Z".

(** [d.toISOString().split('T')[0]] *)
Definition isoDate (t : Z) : string :=
  JSString.split_head "T"%char (toISOString t).

(** A parser for the two ISO forms the application itself writes:
    [YYYY-MM-DD] (UTC midnight) and [YYYY-MM-DDTHH:mm:ss.sssZ].  It is
    the [Date_parse] of the host used in the worked examples. *)
Definition parse_date_part (s : string) : option Z :=
  match JSString.digits (substring 0 4 s),
        JSString.digits (substring 5 2 s),
        JSString.digits (substring 8 2 s) with
  | Some y, Some m, Some d =>
      if Ascii.eqb (match get 4 s with Some c => c | None => " "%char end) "-"
         && Ascii.eqb (match get 7 s with Some c => c | None => " "%char end) "-"
         && (1 <=? m) && (m <=? 12) && (1 <=? d) && (d <=? 31)
      then Some (MakeDay y (m - 1) d)
      else None
  | _, _, _ => None
  end.

Definition parse_time_part (s : string) : option Z :=
  match JSString.digits (substring 0 2 s),
        JSString.digits (substring 3 2 s),
        JSString.digits (substring 6 2 s),
        JSString.digits (substring 9 3 s) with
  | Some h, Some m, Some sec, Some ms =>
      if (h <=? 23) && (m <=? 59) && (sec <=? 59)
         && String.eqb (substring 2 1 s) ":" && String.eqb (substring 5 1 s) ":"
         && String.eqb (substring 8 1 s) "." && String.eqb (substring 12 1 s) "Z"
      then Some (MakeTime h m sec ms)
      else None
  | _, _, _, _ => None
  end.

Definition iso_parse (s : string) : Date :=
  match String.length s with
  | 10%nat =>
      match parse_date_part s with
      | Some d => TimeClip (MakeDate d 0)
      | None => None
      end
  | 24%nat =>
      match parse_date_part (substring 0 10 s), parse_time_part (substring 11 13 s) with
      | Some d, Some tm =>
          if String.eqb (substring 10 1 s) "T" then TimeClip (MakeDate d tm) else None
      | _, _ => None
      end
  | _ => None
  end.

End JSDate.

(* ================================================================== *)
(** ** Data model *)

(** [task.recurring]: [{ frequency, interval }]; [interval] may be absent. *)
Record Recurring := {
  frequency : string;
  interval : option Z
}.

(** The task object built by [createTask]. *)
Record Task := {
  id : string;
  title : string;
  description : string;
  priority : string;
  status : string;
  tags : list string;
  dueDate : option string;
  parentId : option string;
  subtasks : list string;
  recurring : option Recurring;
  createdAt : string;
  updatedAt : string;
  completedAt : option string
}.

(** The argument of [createTask]; a missing property is [None]. *)
Record TaskData := {
  td_title : option string;
  td_description : option string;
  td_priority : option string;
  td_tags : option (list string);
  td_dueDate : option string;
  td_parentId : option string;
  td_recurring : option Recurring
}.

(** The [updates] argument of [updateTask]: an object whose properties
    the merge copies over the stored task, whatever they are.  [None] is
    a property that is not supplied ([undefined]); for [dueDate],
    [recurring], [parentId] and [completedAt] the supplied value may
    itself be [null].  The first seven are the attributes the callers
    patch; the last five are the other properties of a task ([updatedAt]
    is left out: the merge overrides it). *)
Record Patch := {
  p_title : option string;
  p_description : option string;
  p_priority : option string;
  p_status : option string;
  p_tags : option (list string);
  p_dueDate : option (option string);
  p_recurring : option (option Recurring);
  p_id : option string;
  p_parentId : option (option string);
  p_subtasks : option (list string);
  p_createdAt : option string;
  p_completedAt : option (option string)
}.

(** The blob kept under [STORAGE_KEY]; [version] and [settings] are not
    touched by the operations embedded here and are left out. *)
Record Data := {
  tasks : list Task;
  lastUpdated : option string
}.

(** What the user sees of the persistence gateway. *)
Inductive UIEvent :=
| Alert (msg : string)
| Confirm (msg : string) (answer : bool)
| Download (filename : string) (exported : list Task).

(** The state threaded through every operation: the persisted blob, the
    number of host calls made so far (it indexes the oracles of [Host]),
    and the dialogs and downloads produced. *)
Record World := {
  storage : Data;
  calls : nat;
  ui : list UIEvent
}.

(** The code throws plain [Error] objects; the constructor records the
    class the message belongs to.  [RangeError] is what the engine itself
    throws ([toISOString] of an invalid date, call stack exhausted). *)
Inductive Error :=
| ValidationError (msg : string)
| NotFoundError (msg : string)
| RangeError (msg : string).

Inductive Result (A : Type) :=
| Ok (a : A)
| Throw (e : Error).
Arguments Ok {A} a.
Arguments Throw {A} e.

(** The browser. *)
Record Host := {
  (** time value returned by [new Date()] / [Date.now()] at host call [k] *)
  clock : nat -> Z;
  (** [Math.random().toString(36).substring(2, 9)] at host call [k] *)
  random36 : nat -> string;
  (** the user's answer to [confirm] at host call [k] *)
  confirm_answer : nat -> bool;
  (** whether a blob passes the [MAX_STORAGE_SIZE] check and
      [localStorage.setItem] takes it *)
  storage_accepts : Data -> bool;
  (** [new Date(string)] *)
  Date_parse : string -> JSDate.Date;
  (** [div.textContent = str; div.innerHTML] *)
  innerHTML_of_text : string -> string;
  (** [a.localeCompare(b)] *)
  localeCompare : string -> string -> Z;
  (** the offset of local time from UTC in milliseconds, one constant:
      a zone whose offset changes (daylight saving) is not a [Host] *)
  LocalTZA : Z;
  (** how many nested quota recoveries fit on the call stack *)
  stack_depth : nat
}.

(** *** The state-and-exception monad of the operations *)

Definition M (A : Type) : Type := World -> Result A * World.

Definition ret {A} (a : A) : M A := fun w => (Ok a, w).
Definition throw {A} (e : Error) : M A := fun w => (Throw e, w).
Definition bind {A B} (m : M A) (k : A -> M B) : M B :=
  fun w => match m w with
           | (Ok a, w') => k a w'
           | (Throw e, w') => (Throw e, w')
           end.
Definition lift {A} (r : Result A) : M A := fun w => (r, w).

Declare Scope js_scope.
Delimit Scope js_scope with js.
Notation "x <- m ;; k" := (bind m (fun x => k))
  (at level 61, m at next level, right associativity) : js_scope.
Notation "m ;;; k" := (bind m (fun _ => k))
  (at level 61, right associativity) : js_scope.
Local Open Scope js_scope.

(** *** Array helpers *)

(** [arr.findIndex(p)], [None] for [-1]. *)
Fixpoint findIndex {A} (p : A -> bool) (l : list A) : option nat :=
  match l with
  | [] => None
  | x :: r => if p x then Some O else option_map S (findIndex p r)
  end.

(** [arr[i] = v] for [i] inside the array. *)
Fixpoint list_set {A} (i : nat) (v : A) (l : list A) : list A :=
  match l, i with
  | [], _ => []
  | _ :: r, O => v :: r
  | x :: r, S j => x :: list_set j v r
  end.

(** [arr.includes(s)] on an array of strings. *)
Definition includes (l : list string) (s : string) : bool :=
  existsb (String.eqb s) l.

(** Addition and multiplication of numbers that may be [NaN]. *)
Definition num_add (a b : option Z) : option Z :=
  match a, b with Some x, Some y => Some (x + y) | _, _ => None end.
Definition num_sub (a b : option Z) : option Z :=
  match a, b with Some x, Some y => Some (x - y) | _, _ => None end.
Definition num_neg (a : option Z) : option Z := option_map Z.opp a.

(* ================================================================== *)
(** ** Utilities *)

Section Utils.
Variable host : Host.

(** One call into the host; the result is the index of the call. *)
Definition host_call : M nat :=
  fun w => (Ok (calls w),
            {| storage := storage w; calls := S (calls w); ui := ui w |}).

(** [new Date()] / [Date.now()] *)
Definition now : M Z := k <- host_call ;; ret (clock host k).

(** [new Date().toISOString()] *)
Definition nowISO : M string := t <- now ;; ret (JSDate.toISOString t).

Definition emit (e : UIEvent) : M unit :=
  fun w => (Ok tt, {| storage := storage w; calls := calls w; ui := ui w ++ [e] |}).

Definition generateId : M string :=
  t <- now ;;
  k <- host_call ;;
  ret ("task_" ++ JSString.of_Z t ++ "_" ++ random36 host k).

Definition sanitizeString (str : string) : string := innerHTML_of_text host str.

Definition validateDate (dateString : string) : M (option string) :=
  if negb (JSString.truthy dateString) then ret None
  else match Date_parse host dateString with
       | None => throw (ValidationError "Invalid date format")
       | Some _ => ret (Some dateString)
       end.

Definition truncate (str : string) (maxLength : nat) : string :=
  if negb (JSString.truthy str) || (String.length str <=? maxLength)%nat then str
  else JSString.trim (substring 0 maxLength str).
End Utils.

(* ================================================================== *)
(** ** The persistence gateway (localStorage module) *)

Section Storage.
Variable host : Host.

Definition getData : M Data := fun w => (Ok (storage w), w).

Definition getTasks : M (list Task) := data <- getData ;; ret (tasks data).

Definition setItem (data : Data) : M unit :=
  fun w => (Ok tt, {| storage := data; calls := calls w; ui := ui w |}).

(** [saveData], with the handler of the [catch] branch as a parameter. *)
Definition saveData_with (onQuota : M unit) (data : Data) : M unit :=
  if storage_accepts host data then setItem data else onQuota.

Definition exportTasks (ts : list Task) : M unit :=
  t <- now host ;;
  emit (Download ("tasks-export-" ++ JSDate.isoDate t ++ ".json") ts).

Definition confirm (msg : string) : M bool :=
  k <- host_call ;;
  let answer := confirm_answer host k in
  emit (Confirm msg answer) ;;; ret answer.

(** The test of strategy 1: a task is kept unless it is completed, has a
    completion time, and that time is not after [thirtyDaysAgo]. *)
Definition keepRecent (thirtyDaysAgo : JSDate.Date) (task : Task) : bool :=
  if (status task =? "completed")%string && JSString.truthy_opt (completedAt task)
  then match completedAt task with
       | Some c => JSDate.gt (Date_parse host c) thirtyDaysAgo
       | None => true
       end
  else true.

Definition isActive (task : Task) : bool := (status task =? "active")%string.

Definition count_msg (pre : string) (n : nat) (post : string) : string :=
  pre ++ JSString.of_Z (Z.of_nat n) ++ post.

(** [handleQuotaExceeded], with [saveTasks] as a parameter. *)
Definition handleQuotaExceeded_with (saveTasks : list Task -> M unit) : M unit :=
  ts <- getTasks ;;
  t <- now host ;;
  let today : JSDate.Date := Some t in
  let thirtyDaysAgo :=
    JSDate.setDate (LocalTZA host) today
      (num_sub (JSDate.getDate (LocalTZA host) today) (Some 30)) in
  let filtered := filter (keepRecent thirtyDaysAgo) ts in
  if (List.length filtered <? List.length ts)%nat then
    saveTasks filtered ;;;
    emit (Alert (count_msg "Removed " (List.length ts - List.length filtered)
                           " old completed tasks to free up space."))
  else
    shouldExport <-
      confirm "Storage is full. Would you like to export your tasks before clearing old data?" ;;
    (if shouldExport then exportTasks ts else ret tt) ;;;
    let activeTasks := filter isActive ts in
    saveTasks activeTasks ;;;
    emit (Alert (count_msg "Cleared " (List.length ts - List.length activeTasks)
                           " completed tasks to free up space.")).

(** [saveTasks] -> [saveData] -> [handleQuotaExceeded] -> [saveTasks] is
    a recursion through the [catch] branch; [depth] bounds its nesting
    and the engine's [RangeError] ends it. *)
Fixpoint saveTasks_at (depth : nat) (ts : list Task) : M unit :=
  _data <- getData ;;
  stamp <- nowISO host ;;
  saveData_with
    match depth with
    | O => throw (RangeError "Maximum call stack size exceeded")
    | S d => handleQuotaExceeded_with (saveTasks_at d)
    end
    {| tasks := ts; lastUpdated := Some stamp |}.

Definition handleQuotaExceeded_at (depth : nat) : M unit :=
  match depth with
  | O => throw (RangeError "Maximum call stack size exceeded")
  | S d => handleQuotaExceeded_with (saveTasks_at d)
  end.

Definition handleQuotaExceeded : M unit := handleQuotaExceeded_at (stack_depth host).
Definition saveData (data : Data) : M unit := saveData_with handleQuotaExceeded data.
Definition saveTasks (ts : list Task) : M unit := saveTasks_at (stack_depth host) ts.
End Storage.

(* ================================================================== *)
(** ** The task store (taskManager.js) *)

Section TaskManager.
Variable host : Host.

Definition hasId (i : string) (t : Task) : bool := (id t =? i)%string.

(** [x || dflt] for a string that may be missing. *)
Definition or_default (o : option string) (dflt : string) : string :=
  match o with
  | Some s => if JSString.truthy s then s else dflt
  | None => dflt
  end.

(** [x || null] for a string that may be missing. *)
Definition or_null (o : option string) : option string :=
  match o with
  | Some s => if JSString.truthy s then Some s else None
  | None => None
  end.

Definition blank (s : string) : bool :=
  negb (JSString.truthy s) || (String.length (JSString.trim s) =? 0)%nat.

Definition validPriorities : list string := ["low"; "medium"; "high"].

Definition createTask (taskData : TaskData) : M Task :=
  match td_title taskData with
  | None => throw (ValidationError "Task title is required")
  | Some rawTitle =>
      if blank rawTitle then throw (ValidationError "Task title is required")
      else
        newId <- generateId host ;;
        due <- match td_dueDate taskData with
               | Some d => if JSString.truthy d then validateDate host d else ret None
               | None => ret None
               end ;;
        created <- nowISO host ;;
        updated <- nowISO host ;;
        let prio := or_default (td_priority taskData) "medium" in
        let task :=
          {| id := newId;
             title := truncate (sanitizeString host rawTitle) 200;
             description :=
               match td_description taskData with
               | Some d => if JSString.truthy d then sanitizeString host d
                           else EmptyString
               | None => EmptyString
               end;
             priority := if includes validPriorities prio then prio else "medium";
             status := "active";
             tags := match td_tags taskData with Some l => l | None => [] end;
             dueDate := due;
             parentId := or_null (td_parentId taskData);
             subtasks := [];
             recurring := td_recurring taskData;
             createdAt := created;
             updatedAt := updated;
             completedAt := None |} in
        ts <- getTasks ;;
        saveTasks host (ts ++ [task]) ;;;
        ret task
  end.

Definition getTaskById (i : string) : M (option Task) :=
  ts <- getTasks ;; ret (find (hasId i) ts).

(** [{ ...task, ...updates, updatedAt }] *)
Definition merge (t : Task) (u : Patch) (stamp : string) : Task :=
  {| id := match p_id u with Some v => v | None => id t end;
     title := match p_title u with Some v => v | None => title t end;
     description := match p_description u with Some v => v | None => description t end;
     priority := match p_priority u with Some v => v | None => priority t end;
     status := match p_status u with Some v => v | None => status t end;
     tags := match p_tags u with Some v => v | None => tags t end;
     dueDate := match p_dueDate u with Some v => v | None => dueDate t end;
     parentId := match p_parentId u with Some v => v | None => parentId t end;
     subtasks := match p_subtasks u with Some v => v | None => subtasks t end;
     recurring := match p_recurring u with Some v => v | None => recurring t end;
     createdAt := match p_createdAt u with Some v => v | None => createdAt t end;
     updatedAt := stamp;
     completedAt := match p_completedAt u with Some v => v | None => completedAt t end |}.

Definition set_completedAt (t : Task) (c : option string) : Task :=
  {| id := id t; title := title t; description := description t;
     priority := priority t; status := status t; tags := tags t;
     dueDate := dueDate t; parentId := parentId t; subtasks := subtasks t;
     recurring := recurring t; createdAt := createdAt t;
     updatedAt := updatedAt t; completedAt := c |}.

Definition set_title (u : Patch) (v : option string) : Patch :=
  {| p_title := v; p_description := p_description u; p_priority := p_priority u;
     p_status := p_status u; p_tags := p_tags u; p_dueDate := p_dueDate u;
     p_recurring := p_recurring u;
     p_id := p_id u; p_parentId := p_parentId u; p_subtasks := p_subtasks u;
     p_createdAt := p_createdAt u; p_completedAt := p_completedAt u |}.

Definition set_description (u : Patch) (v : option string) : Patch :=
  {| p_title := p_title u; p_description := v; p_priority := p_priority u;
     p_status := p_status u; p_tags := p_tags u; p_dueDate := p_dueDate u;
     p_recurring := p_recurring u;
     p_id := p_id u; p_parentId := p_parentId u; p_subtasks := p_subtasks u;
     p_createdAt := p_createdAt u; p_completedAt := p_completedAt u |}.

Definition set_dueDate (u : Patch) (v : option (option string)) : Patch :=
  {| p_title := p_title u; p_description := p_description u; p_priority := p_priority u;
     p_status := p_status u; p_tags := p_tags u; p_dueDate := v;
     p_recurring := p_recurring u;
     p_id := p_id u; p_parentId := p_parentId u; p_subtasks := p_subtasks u;
     p_createdAt := p_createdAt u; p_completedAt := p_completedAt u |}.

(** The part of [updateTask] headed "Validate updates": it rewrites
    [updates] in place or throws. *)
Definition validateUpdates (updates : Patch) : M Patch :=
  u1 <- match p_title updates with
        | Some t =>
            if blank t then throw (ValidationError "Task title cannot be empty")
            else ret (set_title updates (Some (truncate (sanitizeString host t) 200)))
        | None => ret updates
        end ;;
  let u2 := match p_description u1 with
            | Some d => set_description u1 (Some (sanitizeString host d))
            | None => u1
            end in
  match p_priority u2 with
  | Some p =>
      if includes validPriorities p then ret tt
      else throw (ValidationError "Invalid priority value")
  | None => ret tt
  end ;;;
  match p_dueDate u2 with
  | Some (Some d) => v <- validateDate host d ;; ret (set_dueDate u2 (Some v))
  | _ => ret u2
  end.

Definition updateTask (i : string) (updates : Patch) : M Task :=
  ts <- getTasks ;;
  match findIndex (hasId i) ts, find (hasId i) ts with
  | Some index, Some old =>
      u <- validateUpdates updates ;;
      stamp <- nowISO host ;;
      let merged := merge old u stamp in
      final <-
        (if match p_status u with Some s => (s =? "completed")%string | None => false end
            && match completedAt merged with None => true | Some _ => false end
         then c <- nowISO host ;; ret (set_completedAt merged (Some c))
         else if match p_status u with Some s => (s =? "active")%string | None => false end
         then ret (set_completedAt merged None)
         else ret merged) ;;
      saveTasks host (list_set index final ts) ;;;
      ret final
  | _, _ => throw (NotFoundError "Task not found")
  end.

Definition deleteTask (i : string) : M bool :=
  ts <- getTasks ;;
  let filteredTasks := filter (fun t => negb (hasId i t)) ts in
  if (List.length filteredTasks =? List.length ts)%nat
  then throw (NotFoundError "Task not found")
  else saveTasks host filteredTasks ;;; ret true.

Definition statusPatch (s : string) : Patch :=
  {| p_title := None; p_description := None; p_priority := None;
     p_status := Some s; p_tags := None; p_dueDate := None; p_recurring := None;
     p_id := None; p_parentId := None; p_subtasks := None;
     p_createdAt := None; p_completedAt := None |}.

Definition flipped (t : Task) : string :=
  if (status t =? "active")%string then "completed" else "active".

Definition toggleTaskStatus (i : string) : M Task :=
  found <- getTaskById i ;;
  match found with
  | None => throw (NotFoundError "Task not found")
  | Some task => updateTask i (statusPatch (flipped task))
  end.

Definition set_parentId (d : TaskData) (p : option string) : TaskData :=
  {| td_title := td_title d; td_description := td_description d;
     td_priority := td_priority d; td_tags := td_tags d;
     td_dueDate := td_dueDate d; td_parentId := p;
     td_recurring := td_recurring d |}.

(** [parentTask.subtasks.push(id); parentTask.updatedAt = stamp] *)
Definition add_subtask (t : Task) (sub : string) (stamp : string) : Task :=
  {| id := id t; title := title t; description := description t;
     priority := priority t; status := status t; tags := tags t;
     dueDate := dueDate t; parentId := parentId t;
     subtasks := subtasks t ++ [sub];
     recurring := recurring t; createdAt := createdAt t;
     updatedAt := stamp; completedAt := completedAt t |}.

(** [tasks] is read before [createTask] runs and written back after it:
    the array saved at the end is the one read at the start, with the
    parent replaced. *)
Definition createSubtask (parent : string) (subtaskData : TaskData) : M Task :=
  ts <- getTasks ;;
  match find (hasId parent) ts, findIndex (hasId parent) ts with
  | Some parentTask, Some taskIndex =>
      subtask <- createTask (set_parentId subtaskData (Some parent)) ;;
      stamp <- nowISO host ;;
      saveTasks host (list_set taskIndex (add_subtask parentTask (id subtask) stamp) ts) ;;;
      ret subtask
  | _, _ => throw (NotFoundError "Parent task not found")
  end.

Definition isSubtaskOf (parent : string) (t : Task) : bool :=
  match parentId t with Some p => (p =? parent)%string | None => false end.

Definition getSubtasks (parent : string) : M (list Task) :=
  ts <- getTasks ;; ret (filter (isSubtaskOf parent) ts).

Definition isCompleted (t : Task) : bool := (status t =? "completed")%string.

Definition updateParentTaskProgress (parent : string) : M unit :=
  subs <- getSubtasks parent ;;
  if (List.length subs =? 0)%nat then ret tt
  else
    let allCompleted := forallb isCompleted subs in
    let anyCompleted := existsb isCompleted subs in
    if allCompleted then updateTask parent (statusPatch "completed") ;;; ret tt
    else if anyCompleted then
      parentTask <- getTaskById parent ;;
      match parentTask with
      | Some p =>
          if isCompleted p then updateTask parent (statusPatch "active") ;;; ret tt
          else ret tt
      | None => ret tt
      end
    else ret tt.

(** [calculateNextOccurrence]; [toISOString] throws on an invalid date. *)
Definition calculateNextOccurrence (task : Task) : Result (option string) :=
  match recurring task with
  | None => Ok None
  | Some rule =>
      if negb (JSString.truthy_opt (dueDate task)) then Ok None
      else
        let currentDue : JSDate.Date :=
          match dueDate task with Some d => Date_parse host d | None => None end in
        let n := match interval rule with Some k => k | None => 1 end in
        let tz := LocalTZA host in
        let finish (nextDate : JSDate.Date) : Result (option string) :=
          match nextDate with
          | Some t => Ok (Some (JSDate.isoDate t))
          | None => Throw (RangeError "Invalid time value")
          end in
        if (frequency rule =? "daily")%string then
          finish (JSDate.setDate tz currentDue
                    (num_add (JSDate.getDate tz currentDue) (Some n)))
        else if (frequency rule =? "weekly")%string then
          finish (JSDate.setDate tz currentDue
                    (num_add (JSDate.getDate tz currentDue) (Some (7 * n))))
        else if (frequency rule =? "monthly")%string then
          finish (JSDate.setMonth tz currentDue
                    (num_add (JSDate.getMonth tz currentDue) (Some n)))
        else Ok None
  end.

Definition createNextRecurrence (task : Task) : M (option Task) :=
  match recurring task with
  | None => ret None
  | Some _ =>
      nextDueDate <- lift (calculateNextOccurrence task) ;;
      if negb (JSString.truthy_opt nextDueDate) then ret None
      else
        newTask <- createTask
          {| td_title := Some (title task);
             td_description := Some (description task);
             td_priority := Some (priority task);
             td_tags := Some (tags task);
             td_dueDate := nextDueDate;
             td_parentId := None;
             td_recurring := recurring task |} ;;
        ret (Some newTask)
  end.

Definition toggleTaskStatusWithRecurrence (i : string) : M (Task * option Task) :=
  found <- getTaskById i ;;
  match found with
  | None => throw (NotFoundError "Task not found")
  | Some task =>
      let newStatus := flipped task in
      updatedTask <- updateTask i (statusPatch newStatus) ;;
      nextTask <-
        (if (newStatus =? "completed")%string
            && match recurring task with Some _ => true | None => false end
            && negb (JSString.truthy_opt (parentId task))
         then createNextRecurrence task
         else ret None) ;;
      ret (updatedTask, nextTask)
  end.
End TaskManager.

(* ================================================================== *)
(** ** The sort engine (filtering and sorting module) *)

(** [Array.prototype.sort(comparefn)].  The sort is stable and a [NaN]
    returned by the comparator counts as [+0].  For a comparator that is
    a consistent ordering the result is fixed by the language; it is
    computed here by insertion from the right, which places an element
    before the first element it does not exceed.  For a comparator that
    is not a consistent ordering (one that answers [NaN] for some pairs
    only) the language leaves the order to the engine, which may differ
    from this one: statements about the order of the result are made for
    inputs on which the comparator is consistent. *)
Definition notAfter (v : option Z) : bool :=
  match v with Some z => z <=? 0 | None => true end.

Fixpoint insert_by {A} (cmp : A -> A -> option Z) (x : A) (l : list A) : list A :=
  match l with
  | [] => [x]
  | y :: r => if notAfter (cmp x y) then x :: y :: r else y :: insert_by cmp x r
  end.

Definition array_sort {A} (cmp : A -> A -> option Z) (l : list A) : list A :=
  fold_right (insert_by cmp) [] l.

Section Sort.
Variable host : Host.

(** [const priorityOrder = { high: 3, medium: 2, low: 1 }]; a key that
    is not in the table yields [undefined], which is [NaN] in the
    subtraction. *)
Definition priorityOrder (p : string) : option Z :=
  if (p =? "high")%string then Some 3
  else if (p =? "medium")%string then Some 2
  else if (p =? "low")%string then Some 1
  else None.

Definition ordered (sortOrder : string) (comparison : option Z) : option Z :=
  if (sortOrder =? "asc")%string then comparison else num_neg comparison.

Definition parseDate (s : string) : JSDate.Date := Date_parse host s.

(** The comparator passed to [sorted.sort]. *)
Definition compareTasks (sortBy sortOrder : string) (a b : Task) : option Z :=
  if (sortBy =? "dueDate")%string then
    match JSString.truthy_opt (dueDate a), JSString.truthy_opt (dueDate b) with
    | false, false => Some 0
    | false, true => Some 1
    | true, false => Some (-1)
    | true, true =>
        ordered sortOrder
          (JSDate.sub (match dueDate a with Some d => parseDate d | None => None end)
                      (match dueDate b with Some d => parseDate d | None => None end))
    end
  else if (sortBy =? "priority")%string then
    ordered sortOrder (num_sub (priorityOrder (priority b)) (priorityOrder (priority a)))
  else if (sortBy =? "createdAt")%string then
    ordered sortOrder (JSDate.sub (parseDate (createdAt a)) (parseDate (createdAt b)))
  else if (sortBy =? "updatedAt")%string then
    ordered sortOrder (JSDate.sub (parseDate (updatedAt a)) (parseDate (updatedAt b)))
  else if (sortBy =? "title")%string then
    ordered sortOrder (Some (localeCompare host (title a) (title b)))
  else ordered sortOrder (Some 0).

Definition sortTasks (ts : list Task) (sortBy sortOrder : string) : list Task :=
  array_sort (compareTasks sortBy sortOrder) ts.
End Sort.

(* ================================================================== *)
(** ** The statistics engine *)

Record ByPriority := { high : nat; medium : nat; low : nat }.
Record ByStatus := { bs_active : nat; bs_completed : nat }.

(** The object returned by [calculateStatistics].  [completionRate] is a
    rounded floating-point quotient of [completed] and [total] and is not
    part of this record. *)
Record Stats := {
  total : nat;
  active : nat;
  completed : nat;
  overdue : nat;
  byPriority : ByPriority;
  byStatus : ByStatus;
  dueToday : nat;
  dueThisWeek : nat;
  dueSoon : nat;
  noDueDate : nat
}.

Section Statistics.
Variable host : Host.

Definition bump (b : bool) (n : nat) : nat := if b then S n else n.

(** [today], [weekFromNow] and [threeDaysFromNow] for the time value
    [t] read from the clock. *)
Definition startOfToday (t : Z) : JSDate.Date :=
  JSDate.setHours0 (LocalTZA host) (Some t).

Definition daysFrom (d : JSDate.Date) (n : Z) : JSDate.Date :=
  JSDate.setDate (LocalTZA host) d (num_add (JSDate.getDate (LocalTZA host) d) (Some n)).

(** [new Date(task.dueDate)] followed by [setHours(0, 0, 0, 0)] *)
Definition dueDay (d : string) : JSDate.Date :=
  JSDate.setHours0 (LocalTZA host) (Date_parse host d).

(** The body of [tasks.forEach]: every counter is raised by the branches
    of the source whose tests hold for [task].  [dueSoon] is raised in
    two places, the "Due today" branch and the "Due soon" branch nested
    in "Due this week". *)
Definition count_task (today weekFromNow threeDaysFromNow : JSDate.Date)
    (stats : Stats) (task : Task) : Stats :=
  (* if (task.status === 'active') ... else if (task.status === 'completed') *)
  let isAct := (status task =? "active")%string in
  let isCompl := negb isAct && (status task =? "completed")%string in
  (* if (!task.dueDate) ... else { const dueDate = ...; } *)
  let hasDue := JSString.truthy_opt (dueDate task) in
  let due := match dueDate task with Some d => dueDay d | None => None end in
  let dated := isAct && hasDue in
  (* dueDate.getTime() === today.getTime() *)
  let isToday := dated && JSDate.same due today in
  (* dueDate >= today && dueDate <= weekFromNow *)
  let inWeek := dated && JSDate.ge due today && JSDate.le due weekFromNow in
  (* dueDate <= threeDaysFromNow, inside the previous test *)
  let inThree := inWeek && JSDate.le due threeDaysFromNow in
  {| total := total stats;
     active := bump isAct (active stats);
     completed := bump isCompl (completed stats);
     overdue := bump (dated && JSDate.lt due today) (overdue stats);
     byPriority :=
       {| high := bump (priority task =? "high")%string (high (byPriority stats));
          medium := bump (priority task =? "medium")%string (medium (byPriority stats));
          low := bump (priority task =? "low")%string (low (byPriority stats)) |};
     byStatus :=
       {| bs_active := bump isAct (bs_active (byStatus stats));
          bs_completed := bump isCompl (bs_completed (byStatus stats)) |};
     dueToday := bump isToday (dueToday stats);
     dueThisWeek := bump inWeek (dueThisWeek stats);
     dueSoon := bump inThree (bump isToday (dueSoon stats));
     noDueDate := bump (isAct && negb hasDue) (noDueDate stats) |}.

Definition emptyStats (n : nat) : Stats :=
  {| total := n; active := 0; completed := 0; overdue := 0;
     byPriority := {| high := 0; medium := 0; low := 0 |};
     byStatus := {| bs_active := 0; bs_completed := 0 |};
     dueToday := 0; dueThisWeek := 0; dueSoon := 0; noDueDate := 0 |}.

(** [calculateStatistics(tasks)], with the value [t] of [new Date()]. *)
Definition calculateStatistics (t : Z) (ts : list Task) : Stats :=
  let today := startOfToday t in
  let weekFromNow := daysFrom today 7 in
  let threeDaysFromNow := daysFrom today 3 in
  fold_left (count_task today weekFromNow threeDaysFromNow) ts
            (emptyStats (List.length ts)).

(** The count the specification gives for [dueSoon]: the active tasks
    whose due day lies between today and three days from today,
    inclusive, each counted once. *)
Definition dueSoon_spec (t : Z) (ts : list Task) : nat :=
  let today := startOfToday t in
  let threeDaysFromNow := daysFrom today 3 in
  List.length
    (filter (fun task =>
               (status task =? "active")%string
               && match dueDate task with
                  | Some d => JSString.truthy d
                              && JSDate.ge (dueDay d) today
                              && JSDate.le (dueDay d) threeDaysFromNow
                  | None => false
                  end) ts).
End Statistics.

(* ================================================================== *)
(** ** A concrete host and concrete tasks for the worked examples *)

Module Demo.

(** The text serializer of the DOM escapes [&], [<] and [>]. *)
Fixpoint escapeText (s : string) : string :=
  match s with
  | EmptyString => EmptyString
  | String c r =>
      (if Ascii.eqb c "&" then "&amp;"
       else if Ascii.eqb c "<" then "&lt;"
       else if Ascii.eqb c ">" then "&gt;"
       else String c EmptyString) ++ escapeText r
  end.

Definition compareStrings (a b : string) : Z :=
  match String.compare a b with Lt => -1 | Eq => 0 | Gt => 1 end.

(** 2024-06-01T12:00:00.000Z *)
Definition noon : Z := 1717243200000.

(** A browser in UTC whose clock advances one millisecond per call,
    whose storage takes every blob and whose user accepts every dialog. *)
Definition host : Host :=
  {| clock := fun k => noon + Z.of_nat k;
     random36 := fun k => "r" ++ JSString.of_Z (Z.of_nat k);
     confirm_answer := fun _ => true;
     storage_accepts := fun _ => true;
     Date_parse := JSDate.iso_parse;
     innerHTML_of_text := escapeText;
     localeCompare := compareStrings;
     LocalTZA := 0;
     stack_depth := 4 |}.

(** The same browser with a storage that refuses every blob holding
    more than [n] tasks. *)
Definition smallHost (n : nat) : Host :=
  {| clock := clock host;
     random36 := random36 host;
     confirm_answer := confirm_answer host;
     storage_accepts := fun d => (List.length (tasks d) <=? n)%nat;
     Date_parse := Date_parse host;
     innerHTML_of_text := innerHTML_of_text host;
     localeCompare := localeCompare host;
     LocalTZA := LocalTZA host;
     stack_depth := stack_depth host |}.

Definition mkTask (i prio st : string) (due : option string)
    (rec : option Recurring) (parent done : option string) : Task :=
  {| id := i; title := "Task " ++ i; description := EmptyString; priority := prio;
     status := st; tags := []; dueDate := due; parentId := parent;
     subtasks := []; recurring := rec;
     createdAt := "2024-05-01T08:00:00.000Z";
     updatedAt := "2024-05-01T08:00:00.000Z";
     completedAt := done |}.

Definition world (ts : list Task) : World :=
  {| storage := {| tasks := ts; lastUpdated := None |}; calls := 0; ui := [] |}.

Definition tHigh : Task := mkTask "h" "high" "active" None None None None.
Definition tMedium : Task := mkTask "m" "medium" "active" None None None None.
Definition tLow : Task := mkTask "l" "low" "active" None None None None.

End Demo.

(* ================================================================== *)
(** ** More of the utility module *)

Module JSText.

(** [String.prototype.toLowerCase] on the ASCII letters. *)
Definition lower (c : ascii) : ascii :=
  let n := nat_of_ascii c in
  if (65 <=? n)%nat && (n <=? 90)%nat then ascii_of_nat (n + 32) else c.

Fixpoint toLowerCase (s : string) : string :=
  match s with
  | EmptyString => EmptyString
  | String c r => String (lower c) (toLowerCase r)
  end.

(** [s.includes(q)]: [q] occurs in [s] at some position. *)
Fixpoint includes (s q : string) : bool :=
  String.prefix q s
  || match s with
     | EmptyString => false
     | String _ r => includes r q
     end.

(** [s.replace(/c/g, rep)] for a one-character pattern. *)
Fixpoint replaceAll (c : ascii) (rep : string) (s : string) : string :=
  match s with
  | EmptyString => EmptyString
  | String a r =>
      (if Ascii.eqb a c then rep else String a EmptyString) ++ replaceAll c rep r
  end.

(** [s] contains the character [c]. *)
Fixpoint has (c : ascii) (s : string) : bool :=
  match s with
  | EmptyString => false
  | String a r => Ascii.eqb a c || has c r
  end.

End JSText.

(** [escapeHtml(unsafe)] for a string argument: five replacements, one
    after the other. *)
Definition doubleQuote : ascii := ascii_of_nat 34.

Definition escapeHtml (unsafe : string) : string :=
  JSText.replaceAll "'" "&#039;"
    (JSText.replaceAll doubleQuote "&quot;"
       (JSText.replaceAll ">" "&gt;"
          (JSText.replaceAll "<" "&lt;"
             (JSText.replaceAll "&" "&amp;" unsafe)))).

Section MoreUtils.
Variable host : Host.

(** [isOverdue(dateString)], with the value [t] of [new Date()]. *)
Definition isOverdue (t : Z) (dateString : option string) : bool :=
  match dateString with
  | Some d =>
      JSString.truthy d
      && JSDate.lt (JSDate.setHours0 (LocalTZA host) (Date_parse host d))
                   (JSDate.setHours0 (LocalTZA host) (Some t))
  | None => false
  end.
End MoreUtils.

(* ================================================================== *)
(** ** More of the task store *)

(** The [filters] argument of [getAllTasks]. *)
Record ListFilters := {
  lf_status : option string;
  lf_priority : option string
}.

(** The object returned by [getTaskCounts]. *)
Record Counts := {
  c_total : nat;
  c_active : nat;
  c_completed : nat
}.

(** [x && x !== 'all']: the value to filter on, if any. *)
Definition selected (o : option string) : option string :=
  match o with
  | Some s => if JSString.truthy s && negb (s =? "all")%string then Some s else None
  | None => None
  end.

Definition hasStatus (s : string) (t : Task) : bool := (status t =? s)%string.
Definition hasPriorityOf (p : string) (t : Task) : bool := (priority t =? p)%string.

Section MoreTaskManager.
Variable host : Host.

Definition getAllTasks (filters : ListFilters) : M (list Task) :=
  ts <- getTasks ;;
  let ts1 := match selected (lf_status filters) with
             | Some s => filter (hasStatus s) ts
             | None => ts
             end in
  let ts2 := match selected (lf_priority filters) with
             | Some p => filter (hasPriorityOf p) ts1
             | None => ts1
             end in
  ret ts2.

Definition getTaskCounts : M Counts :=
  ts <- getTasks ;;
  ret {| c_total := List.length ts;
         c_active := List.length (filter (hasStatus "active") ts);
         c_completed := List.length (filter (hasStatus "completed") ts) |}.

(** [try { m; count++ } catch (error) { console.error(...) }] *)
Definition counted {A} (m : M A) (count : nat) : M nat :=
  fun w => match m w with
           | (Ok _, w') => (Ok (S count), w')
           | (Throw _, w') => (Ok count, w')
           end.

(** The [forEach] of [bulkDeleteTasks], from the count so far. *)
Fixpoint bulkDelete_from (count : nat) (taskIds : list string) : M nat :=
  match taskIds with
  | [] => ret count
  | i :: rest =>
      count' <- counted (deleteTask host i) count ;;
      bulkDelete_from count' rest
  end.

Definition bulkDeleteTasks (taskIds : list string) : M nat :=
  bulkDelete_from 0 taskIds.

(** The [updates] object after one call of [updateTask] on a stored
    identifier: the validation section assigns the cleaned title and
    description before it tests the priority, and the checked due date
    after it; a throw leaves the assignments made so far. *)
Definition updatesAfter (updates : Patch) : Patch :=
  let titleBlank := match p_title updates with Some t => blank t | None => false end in
  if titleBlank then updates
  else
    let u1 := match p_title updates with
              | Some t => set_title updates (Some (truncate (sanitizeString host t) 200))
              | None => updates
              end in
    let u2 := match p_description u1 with
              | Some d => set_description u1 (Some (sanitizeString host d))
              | None => u1
              end in
    let priorityOk := match p_priority u2 with
                      | Some p => includes validPriorities p
                      | None => true
                      end in
    if priorityOk then
      match p_dueDate u2 with
      | Some (Some d) =>
          if negb (JSString.truthy d) then set_dueDate u2 (Some None)
          else match Date_parse host d with
               | Some _ => set_dueDate u2 (Some (Some d))
               | None => u2
               end
      | _ => u2
      end
    else u2.

(** The [forEach] of [bulkUpdateTasks]: every call receives the same
    [updates] object, as the calls before it left it ([updateTask]
    reaches its validation section when the identifier is stored). *)
Fixpoint bulkUpdate_from (count : nat) (taskIds : list string) (updates : Patch)
    : M nat :=
  match taskIds with
  | [] => ret count
  | i :: rest =>
      found <- getTaskById i ;;
      count' <- counted (updateTask host i updates) count ;;
      bulkUpdate_from count' rest
        (match found with Some _ => updatesAfter updates | None => updates end)
  end.

Definition bulkUpdateTasks (taskIds : list string) (updates : Patch) : M nat :=
  bulkUpdate_from 0 taskIds updates.
End MoreTaskManager.

(* ================================================================== *)
(** ** The filter engine *)

(** The [filters] argument of [filterTasks]. *)
Record Filters := {
  f_status : option string;
  f_priority : option string;
  f_search : option string;
  f_dateFrom : option string;
  f_dateTo : option string;
  f_showOverdueOnly : bool
}.

Section FilterEngine.
Variable host : Host.

Definition dueOn (task : Task) : JSDate.Date :=
  match dueDate task with Some d => Date_parse host d | None => None end.

(** [task.title.toLowerCase().includes(query) ||
     (task.description && task.description.toLowerCase().includes(query))] *)
Definition matchesQuery (query : string) (task : Task) : bool :=
  JSText.includes (JSText.toLowerCase (title task)) query
  || (JSString.truthy (description task)
      && JSText.includes (JSText.toLowerCase (description task)) query).

Definition dueFrom (from : string) (task : Task) : bool :=
  JSString.truthy_opt (dueDate task) && JSDate.ge (dueOn task) (Date_parse host from).

Definition dueTo (to : string) (task : Task) : bool :=
  JSString.truthy_opt (dueDate task) && JSDate.le (dueOn task) (Date_parse host to).

(** [task.status === 'active' && task.dueDate && new Date(task.dueDate) < today] *)
Definition overdueAt (today : JSDate.Date) (task : Task) : bool :=
  (status task =? "active")%string && JSString.truthy_opt (dueDate task)
  && JSDate.lt (dueOn task) today.

(** [filterTasks(tasks, filters)], with the value [t] of [new Date()]. *)
Definition filterTasks (t : Z) (ts : list Task) (filters : Filters) : list Task :=
  let f1 := match selected (f_status filters) with
            | Some s => filter (hasStatus s) ts
            | None => ts
            end in
  let f2 := match selected (f_priority filters) with
            | Some p => filter (hasPriorityOf p) f1
            | None => f1
            end in
  let f3 := match f_search filters with
            | Some q =>
                if JSString.truthy q && (0 <? String.length (JSString.trim q))%nat
                then filter (matchesQuery (JSString.trim (JSText.toLowerCase q))) f2
                else f2
            | None => f2
            end in
  let f4 := match f_dateFrom filters with
            | Some d => if JSString.truthy d then filter (dueFrom d) f3 else f3
            | None => f3
            end in
  let f5 := match f_dateTo filters with
            | Some d => if JSString.truthy d then filter (dueTo d) f4 else f4
            | None => f4
            end in
  if f_showOverdueOnly filters
  then filter (overdueAt (JSDate.setHours0 (LocalTZA host) (Some t))) f5
  else f5.

Definition filterAndSortTasks (t : Z) (ts : list Task) (filters : Filters)
    (sortBy sortOrder : string) : list Task :=
  sortTasks host (filterTasks t ts filters) sortBy sortOrder.

Definition getOverdueTasks (t : Z) (ts : list Task) : list Task :=
  filter (overdueAt (JSDate.setHours0 (LocalTZA host) (Some t))) ts.

(** [new Date(task.dueDate).setHours(0, 0, 0, 0) === today.getTime()] *)
Definition getTasksDueToday (t : Z) (ts : list Task) : list Task :=
  let today := JSDate.setHours0 (LocalTZA host) (Some t) in
  filter (fun task =>
            (status task =? "active")%string && JSString.truthy_opt (dueDate task)
            && JSDate.same (JSDate.setHours0 (LocalTZA host) (dueOn task)) today) ts.

Definition getTasksDueThisWeek (t : Z) (ts : list Task) : list Task :=
  let today := JSDate.setHours0 (LocalTZA host) (Some t) in
  let weekFromNow :=
    JSDate.setDate (LocalTZA host) today
      (num_add (JSDate.getDate (LocalTZA host) today) (Some 7)) in
  filter (fun task =>
            (status task =? "active")%string && JSString.truthy_opt (dueDate task)
            && JSDate.ge (dueOn task) today && JSDate.le (dueOn task) weekFromNow) ts.
End FilterEngine.

(* ================================================================== *)
(** ** More of the statistics engine *)

Record OverdueByDays := {
  lessThanWeek : nat;
  oneToTwoWeeks : nat;
  moreThanTwoWeeks : nat
}.

(** The object returned by [getOverdueStats]. *)
Record OverdueStats := {
  os_total : nat;
  os_byPriority : ByPriority;
  overdueByDays : OverdueByDays
}.

(** The object returned by [getUpcomingSummary]. *)
Record Upcoming := {
  up_today : list Task;
  up_tomorrow : list Task;
  up_thisWeek : list Task;
  up_later : list Task
}.

Section MoreStatistics.
Variable host : Host.

(** [if (task.priority in distribution) distribution[task.priority]++],
    and the unguarded [stats.byPriority[task.priority]++] of
    [getOverdueStats]: the three counters of the object.  A priority that
    names none of them leaves the three as they are (the increment then
    sets another property, which the record does not hold). *)
Definition count_priority (d : ByPriority) (task : Task) : ByPriority :=
  {| high := bump (priority task =? "high")%string (high d);
     medium := bump (priority task =? "medium")%string (medium d);
     low := bump (priority task =? "low")%string (low d) |}.

Definition getPriorityDistribution (ts : list Task) : ByPriority :=
  fold_left count_priority ts {| high := 0; medium := 0; low := 0 |}.

(** [if (task.status in distribution) distribution[task.status]++], the
    two counters of the object. *)
Definition count_status (d : ByStatus) (task : Task) : ByStatus :=
  {| bs_active := bump (status task =? "active")%string (bs_active d);
     bs_completed := bump (status task =? "completed")%string (bs_completed d) |}.

Definition getStatusDistribution (ts : list Task) : ByStatus :=
  fold_left count_status ts {| bs_active := 0; bs_completed := 0 |}.

(** [new Date(today.getTime() - n * 24 * 60 * 60 * 1000)] *)
Definition daysBefore (today : JSDate.Date) (n : Z) : JSDate.Date :=
  match today with
  | Some t => JSDate.TimeClip (t - n * 24 * 60 * 60 * 1000)
  | None => None
  end.

(** The body of the [forEach] of [getOverdueStats]. *)
Definition count_overdue (today oneWeekAgo twoWeeksAgo : JSDate.Date)
    (stats : OverdueStats) (task : Task) : OverdueStats :=
  if (status task =? "active")%string && JSString.truthy_opt (dueDate task) then
    let due := match dueDate task with Some d => dueDay host d | None => None end in
    if JSDate.lt due today then
      {| os_total := S (os_total stats);
         os_byPriority := count_priority (os_byPriority stats) task;
         overdueByDays :=
           let b := overdueByDays stats in
           if JSDate.ge due oneWeekAgo then
             {| lessThanWeek := S (lessThanWeek b);
                oneToTwoWeeks := oneToTwoWeeks b;
                moreThanTwoWeeks := moreThanTwoWeeks b |}
           else if JSDate.ge due twoWeeksAgo then
             {| lessThanWeek := lessThanWeek b;
                oneToTwoWeeks := S (oneToTwoWeeks b);
                moreThanTwoWeeks := moreThanTwoWeeks b |}
           else
             {| lessThanWeek := lessThanWeek b;
                oneToTwoWeeks := oneToTwoWeeks b;
                moreThanTwoWeeks := S (moreThanTwoWeeks b) |} |}
    else stats
  else stats.

(** [getOverdueStats(tasks)], with the value [t] of [new Date()]. *)
Definition getOverdueStats (t : Z) (ts : list Task) : OverdueStats :=
  let today := startOfToday host t in
  fold_left (count_overdue today (daysBefore today 7) (daysBefore today 14)) ts
    {| os_total := 0;
       os_byPriority := {| high := 0; medium := 0; low := 0 |};
       overdueByDays := {| lessThanWeek := 0; oneToTwoWeeks := 0;
                           moreThanTwoWeeks := 0 |} |}.

(** The body of the [forEach] of [getUpcomingSummary]. *)
Definition place_upcoming (today tomorrow nextWeek : JSDate.Date)
    (summary : Upcoming) (task : Task) : Upcoming :=
  if (status task =? "active")%string && JSString.truthy_opt (dueDate task) then
    let due := match dueDate task with Some d => dueDay host d | None => None end in
    if JSDate.same due today then
      {| up_today := up_today summary ++ [task]; up_tomorrow := up_tomorrow summary;
         up_thisWeek := up_thisWeek summary; up_later := up_later summary |}
    else if JSDate.same due tomorrow then
      {| up_today := up_today summary; up_tomorrow := up_tomorrow summary ++ [task];
         up_thisWeek := up_thisWeek summary; up_later := up_later summary |}
    else if JSDate.gt due today && JSDate.le due nextWeek then
      {| up_today := up_today summary; up_tomorrow := up_tomorrow summary;
         up_thisWeek := up_thisWeek summary ++ [task]; up_later := up_later summary |}
    else if JSDate.gt due nextWeek then
      {| up_today := up_today summary; up_tomorrow := up_tomorrow summary;
         up_thisWeek := up_thisWeek summary; up_later := up_later summary ++ [task] |}
    else summary
  else summary.

(** [getUpcomingSummary(tasks)], with the value [t] of [new Date()]. *)
Definition getUpcomingSummary (t : Z) (ts : list Task) : Upcoming :=
  let today := startOfToday host t in
  fold_left (place_upcoming today (daysFrom host today 1) (daysFrom host today 7)) ts
    {| up_today := []; up_tomorrow := []; up_thisWeek := []; up_later := [] |}.
End MoreStatistics.

(* ================================================================== *)
(** ** Reordering (drag and drop module) *)

(** A [Map] from identifiers to tasks: the entries in insertion order. *)
Definition TaskMap : Type := list (string * Task).

(** [map.set(k, v)]: a key that is present keeps its place and takes the
    new value, a new key goes to the end. *)
Fixpoint map_set (k : string) (v : Task) (m : TaskMap) : TaskMap :=
  match m with
  | [] => [(k, v)]
  | (k', v') :: r =>
      if (k' =? k)%string then (k, v) :: r else (k', v') :: map_set k v r
  end.

(** [map.get(k)], [None] when [map.has(k)] is false. *)
Fixpoint map_get (k : string) (m : TaskMap) : option Task :=
  match m with
  | [] => None
  | (k', v) :: r => if (k' =? k)%string then Some v else map_get k r
  end.

(** [map.delete(k)] *)
Fixpoint map_delete (k : string) (m : TaskMap) : TaskMap :=
  match m with
  | [] => []
  | (k', v) :: r => if (k' =? k)%string then r else (k', v) :: map_delete k r
  end.

(** [new Map(tasks.map(task => [task.id, task]))] *)
Definition taskMapOf (ts : list Task) : TaskMap :=
  fold_left (fun m task => map_set (id task) task m) ts [].

(** The first [forEach] of [reorderTasks]. *)
Fixpoint take_in_order (taskOrder : list string) (taskMap : TaskMap)
    (reordered : list Task) : list Task * TaskMap :=
  match taskOrder with
  | [] => (reordered, taskMap)
  | i :: rest =>
      match map_get i taskMap with
      | Some task => take_in_order rest (map_delete i taskMap) (reordered ++ [task])
      | None => take_in_order rest taskMap reordered
      end
  end.

Definition reorderTasks (ts : list Task) (taskOrder : list string) : list Task :=
  let (reordered, rest) := take_in_order taskOrder (taskMapOf ts) [] in
  reordered ++ map snd rest.

(* ================================================================== *)
(** ** Notions used in the statements *)

(** *** Sorting *)

Definition hasPriority (p : string) (t : Task) : bool := (priority t =? p)%string.

(** The tasks of [l] that carry priority [p], in the order of [l]. *)
Definition withPriority (p : string) (l : list Task) : list Task :=
  filter (hasPriority p) l.

Definition validPriority (t : Task) : Prop := In (priority t) validPriorities.

(** *** Statistics *)

Section DueTests.
Variable host : Host.
Variables today weekFromNow threeDaysFromNow : JSDate.Date.

Definition dueOf (task : Task) : JSDate.Date :=
  match dueDate task with Some d => dueDay host d | None => None end.

(** The test of the branch commented "Due today". *)
Definition isDueToday (task : Task) : bool :=
  (status task =? "active")%string && JSString.truthy_opt (dueDate task)
  && JSDate.same (dueOf task) today.

(** The test of the branch commented "Due soon (within 3 days)", inside
    the branch commented "Due this week". *)
Definition isDueInThree (task : Task) : bool :=
  (status task =? "active")%string && JSString.truthy_opt (dueDate task)
  && JSDate.ge (dueOf task) today && JSDate.le (dueOf task) weekFromNow
  && JSDate.le (dueOf task) threeDaysFromNow.
End DueTests.

(** *** Records with one field replaced *)

Definition set_recurring (t : Task) (r : option Recurring) : Task :=
  {| id := id t; title := title t; description := description t;
     priority := priority t; status := status t; tags := tags t;
     dueDate := dueDate t; parentId := parentId t; subtasks := subtasks t;
     recurring := r; createdAt := createdAt t;
     updatedAt := updatedAt t; completedAt := completedAt t |}.

Definition set_status (u : Patch) (v : option string) : Patch :=
  {| p_title := p_title u; p_description := p_description u;
     p_priority := p_priority u; p_status := v; p_tags := p_tags u;
     p_dueDate := p_dueDate u; p_recurring := p_recurring u;
     p_id := p_id u; p_parentId := p_parentId u; p_subtasks := p_subtasks u;
     p_createdAt := p_createdAt u; p_completedAt := p_completedAt u |}.

(** *** Small arguments *)

Definition titleOnly (t : string) : TaskData :=
  {| td_title := Some t; td_description := None; td_priority := None;
     td_tags := None; td_dueDate := None; td_parentId := None;
     td_recurring := None |}.

Definition priorityPatch (p : string) : Patch :=
  {| p_title := None; p_description := None; p_priority := Some p;
     p_status := None; p_tags := None; p_dueDate := None; p_recurring := None;
     p_id := None; p_parentId := None; p_subtasks := None;
     p_createdAt := None; p_completedAt := None |}.

(** *** Classes of errors *)

Definition isUserError (e : Error) : Prop :=
  match e with
  | ValidationError _ | NotFoundError _ => True
  | RangeError _ => False
  end.

Definition isRangeError (e : Error) : Prop :=
  match e with RangeError _ => True | _ => False end.

(** *** Status and completion time *)

(** What "Handle status change" leaves in [completedAt], from the value
    before the call, the patched status and the clock reading. *)
Definition completedAt_after (before : option string) (patched : option string)
    (stamp : string) : option string :=
  match patched with
  | Some s =>
      if (s =? "completed")%string then
        match before with Some c => Some c | None => Some stamp end
      else if (s =? "active")%string then None
      else before
  | None => before
  end.

(** [completedAt] is non-null exactly when [status] is ["completed"]. *)
Definition consistent (t : Task) : Prop :=
  completedAt t <> None <-> status t = "completed"%string.

(** The value of a property after the merge: the one the patch supplies,
    the old one when it supplies none. *)
Definition patched {A} (o : option A) (old : A) : A :=
  match o with Some v => v | None => old end.

(** The properties of a patch that validation does not look at and that
    the callers do not patch are the same in [u] and [p]. *)
Definition sameExtras (u p : Patch) : Prop :=
  p_id u = p_id p /\ p_parentId u = p_parentId p /\ p_subtasks u = p_subtasks p
  /\ p_createdAt u = p_createdAt p /\ p_completedAt u = p_completedAt p.

(** A patch that supplies none of [id], [parentId], [subtasks],
    [createdAt] and [completedAt]. *)
Definition plain (p : Patch) : Prop :=
  p_id p = None /\ p_parentId p = None /\ p_subtasks p = None
  /\ p_createdAt p = None /\ p_completedAt p = None.

(** The patch [{ status, completedAt }]. *)
Definition completionPatch (s : string) (c : option string) : Patch :=
  {| p_title := None; p_description := None; p_priority := None;
     p_status := Some s; p_tags := None; p_dueDate := None; p_recurring := None;
     p_id := None; p_parentId := None; p_subtasks := None;
     p_createdAt := None; p_completedAt := Some c |}.

(** A patch of the documented fields: it is plain, and its [status],
    when supplied, is one of the two documented values. *)
Definition documented (p : Patch) : Prop :=
  match p_status p with
  | Some s => s = "active"%string \/ s = "completed"%string
  | None => True
  end
  /\ plain p.

Definition allConsistent (w : World) : Prop := Forall consistent (tasks (storage w)).

Section Reachable.
Variable host : Host.

(** One call of a store operation, whatever it returns. *)
Inductive step : World -> World -> Prop :=
| step_create td w : step w (snd (createTask host td w))
| step_update i p w : documented p -> step w (snd (updateTask host i p w))
| step_toggle i w : step w (snd (toggleTaskStatus host i w))
| step_delete i w : step w (snd (deleteTask host i w))
| step_createSubtask parent td w : step w (snd (createSubtask host parent td w))
| step_progress parent w : step w (snd (updateParentTaskProgress host parent w))
| step_recurrence task w : step w (snd (createNextRecurrence host task w))
| step_toggleRecurrence i w : step w (snd (toggleTaskStatusWithRecurrence host i w)).

(** The worlds reached from an empty collection. *)
Inductive reachable : World -> Prop :=
| reach_empty w : tasks (storage w) = [] -> reachable w
| reach_step w w' : reachable w -> step w w' -> reachable w'.

End Reachable.

(** *** Recurrence *)

Definition recognized (f : string) : Prop :=
  f = "daily"%string \/ f = "weekly"%string \/ f = "monthly"%string.

(** *** Dialogs of the quota recovery *)

Definition removedAlert (n : nat) : UIEvent :=
  Alert (count_msg "Removed " n " old completed tasks to free up space.").

Definition clearedAlert (n : nat) : UIEvent :=
  Alert (count_msg "Cleared " n " completed tasks to free up space.").

Definition exportOffer (answer : bool) : UIEvent :=
  Confirm "Storage is full. Would you like to export your tasks before clearing old data?"
          answer.

(** *** Filtering and sorting *)

Definition dated (t : Task) : bool := JSString.truthy_opt (dueDate t).

(** Every due date that is set parses: the comparator of the sort by due
    date then never returns [NaN] and is a consistent ordering. *)
Definition dueDatesParse (host : Host) (ts : list Task) : Prop :=
  Forall (fun t => forall d, dueDate t = Some d -> JSString.truthy d = true ->
                             Date_parse host d <> None) ts.

(** The due dates of [a] and [b] parse, and [a] is due no later than [b]
    when the order is ["asc"], no earlier for any other order. *)
Definition dueInOrder (host : Host) (sortOrder : string) (a b : Task) : Prop :=
  match dueOn host a, dueOn host b with
  | Some x, Some y => if (sortOrder =? "asc")%string then x <= y else y <= x
  | _, _ => False
  end.
Definition undated (t : Task) : bool := negb (JSString.truthy_opt (dueDate t)).

(** No criterion at all. *)
Definition noFilters : Filters :=
  {| f_status := None; f_priority := None; f_search := None;
     f_dateFrom := None; f_dateTo := None; f_showOverdueOnly := false |}.

(** The six single-criterion filters a filter is made of. *)
Definition onlyStatus (f : Filters) : Filters :=
  {| f_status := f_status f; f_priority := None; f_search := None;
     f_dateFrom := None; f_dateTo := None; f_showOverdueOnly := false |}.
Definition onlyPriority (f : Filters) : Filters :=
  {| f_status := None; f_priority := f_priority f; f_search := None;
     f_dateFrom := None; f_dateTo := None; f_showOverdueOnly := false |}.
Definition onlySearch (f : Filters) : Filters :=
  {| f_status := None; f_priority := None; f_search := f_search f;
     f_dateFrom := None; f_dateTo := None; f_showOverdueOnly := false |}.
Definition onlyDateFrom (f : Filters) : Filters :=
  {| f_status := None; f_priority := None; f_search := None;
     f_dateFrom := f_dateFrom f; f_dateTo := None; f_showOverdueOnly := false |}.
Definition onlyDateTo (f : Filters) : Filters :=
  {| f_status := None; f_priority := None; f_search := None;
     f_dateFrom := None; f_dateTo := f_dateTo f; f_showOverdueOnly := false |}.
Definition onlyOverdue (f : Filters) : Filters :=
  {| f_status := None; f_priority := None; f_search := None;
     f_dateFrom := None; f_dateTo := None;
     f_showOverdueOnly := f_showOverdueOnly f |}.

Section FilterTests.
Variable host : Host.

(** The test each criterion of [filterTasks] applies; a criterion that
    is not set lets every task through. *)
Definition passesStatus (f : Filters) (task : Task) : bool :=
  match selected (f_status f) with Some s => hasStatus s task | None => true end.
Definition passesPriority (f : Filters) (task : Task) : bool :=
  match selected (f_priority f) with Some p => hasPriorityOf p task | None => true end.
Definition passesSearch (f : Filters) (task : Task) : bool :=
  match f_search f with
  | Some q =>
      if JSString.truthy q && (0 <? String.length (JSString.trim q))%nat
      then matchesQuery (JSString.trim (JSText.toLowerCase q)) task
      else true
  | None => true
  end.
Definition passesDateFrom (f : Filters) (task : Task) : bool :=
  match f_dateFrom f with
  | Some d => if JSString.truthy d then dueFrom host d task else true
  | None => true
  end.
Definition passesDateTo (f : Filters) (task : Task) : bool :=
  match f_dateTo f with
  | Some d => if JSString.truthy d then dueTo host d task else true
  | None => true
  end.
Definition passesOverdue (t : Z) (f : Filters) (task : Task) : bool :=
  if f_showOverdueOnly f
  then overdueAt host (JSDate.setHours0 (LocalTZA host) (Some t)) task
  else true.

Definition passes (t : Z) (f : Filters) (task : Task) : bool :=
  passesStatus f task && passesPriority f task && passesSearch f task
  && passesDateFrom f task && passesDateTo f task && passesOverdue t f task.
End FilterTests.

(** *** Counting *)

Definition countIf {A} (p : A -> bool) (l : list A) : nat := List.length (filter p l).

Section StatTests.
Variable host : Host.
Variable today weekFromNow : JSDate.Date.

Definition statActive (task : Task) : bool := (status task =? "active")%string.
Definition statCompleted (task : Task) : bool := (status task =? "completed")%string.
Definition statNoDue (task : Task) : bool :=
  statActive task && negb (JSString.truthy_opt (dueDate task)).
Definition statOverdue (task : Task) : bool :=
  statActive task && JSString.truthy_opt (dueDate task)
  && JSDate.lt (dueOf host task) today.
Definition statInWeek (task : Task) : bool :=
  statActive task && JSString.truthy_opt (dueDate task)
  && JSDate.ge (dueOf host task) today && JSDate.le (dueOf host task) weekFromNow.
End StatTests.

(** *** The store *)

(** A storage that takes every write. *)
Definition accepting (host : Host) : Prop :=
  forall d, storage_accepts host d = true.

(** What the validation of [createTask] and [updateTask] establishes of
    a task. *)
Definition wellFormed (host : Host) (t : Task) : Prop :=
  In (priority t) validPriorities
  /\ (String.length (title t) <= 200)%nat
  /\ (status t = "active"%string \/ status t = "completed"%string)
  /\ (forall d, dueDate t = Some d -> Date_parse host d <> None).

Definition otherThan (i : string) (t : Task) : bool := negb (hasId i t).

(** The task [t] with other modification and completion times. *)
Definition restamped (t : Task) (updated : string) (completed : option string) : Task :=
  {| id := id t; title := title t; description := description t;
     priority := priority t; status := status t; tags := tags t;
     dueDate := dueDate t; parentId := parentId t; subtasks := subtasks t;
     recurring := recurring t; createdAt := createdAt t;
     updatedAt := updated; completedAt := completed |}.

(** What the quota recovery may leave of the persisted tasks [old]: the
    tasks that pass some test which every active task passes. *)
Definition recovered (old new : list Task) : Prop :=
  exists keep : Task -> bool,
    (forall t, isActive t = true -> keep t = true) /\ new = filter keep old.

(** The patch [{ title }]. *)
Definition titlePatch (t : string) : Patch :=
  {| p_title := Some t; p_description := None; p_priority := None;
     p_status := None; p_tags := None; p_dueDate := None; p_recurring := None;
     p_id := None; p_parentId := None; p_subtasks := None;
     p_createdAt := None; p_completedAt := None |}.

(** What [updateTask] makes of a title. *)
Definition cleanTitle (host : Host) (t : string) : string :=
  truncate (sanitizeString host t) 200.

(* ================================================================== *)
(** * Properties *)

Local Open Scope list_scope.

(** ** Calendar arithmetic *)

Module JSDateFacts.
Import JSDate.

Lemma monthOfYearDay_range d leap : 0 <= monthOfYearDay d leap <= 11.
Proof.
  unfold monthOfYearDay.
  repeat match goal with |- context [if ?c then _ else _] => destruct c end; lia.
Qed.

(** Rebuilding the day number from the calendar fields of a time value
    gives its day back, and the date field counts days linearly. *)
Lemma MakeDay_fields t n :
  MakeDay (YearFromTime t) (MonthFromTime t) (DateFromTime t + n) = Day t + n.
Proof.
  unfold MakeDay, DateFromTime.
  pose proof (monthOfYearDay_range (DayWithinYear t) (InLeapYear t)) as Hm.
  fold (MonthFromTime t) in Hm.
  rewrite (Z.div_small (MonthFromTime t) 12) by lia.
  rewrite (Z.mod_small (MonthFromTime t) 12) by lia.
  rewrite Z.add_0_r. fold (InLeapYear t).
  unfold DayWithinYear. lia.
Qed.

Lemma Day_TimeWithinDay t : MakeDate (Day t) (TimeWithinDay t) = t.
Proof.
  unfold MakeDate, Day, TimeWithinDay, msPerDay.
  pose proof (Z.div_mod t 86400000). lia.
Qed.

(** [d.setDate(d.getDate() + n)] moves a valid date by [n] whole days. *)
Lemma setDate_getDate tz t n :
  setDate tz (Some t) (num_add (getDate tz (Some t)) (Some n))
  = TimeClip (t + n * msPerDay).
Proof.
  unfold setDate, getDate, num_add, option_map.
  rewrite MakeDay_fields. f_equal.
  unfold UTC, LocalTime.
  pose proof (Day_TimeWithinDay (t + tz)) as H.
  unfold MakeDate in *. lia.
Qed.

Lemma setDate_getDate_sub tz t n :
  setDate tz (Some t) (num_sub (getDate tz (Some t)) (Some n))
  = TimeClip (t - n * msPerDay).
Proof.
  pose proof (setDate_getDate tz t (- n)) as H.
  unfold num_add, num_sub, getDate, option_map in *.
  replace (DateFromTime (LocalTime tz t) - n)
    with (DateFromTime (LocalTime tz t) + - n) by lia.
  rewrite H. f_equal. lia.
Qed.

(** *** The year of a day number *)

Lemma DayFromYear_step y :
  DayFromYear y + 365 <= DayFromYear (y + 1) <= DayFromYear y + 366.
Proof. unfold DayFromYear. Z.to_euclidean_division_equations; lia. Qed.

(** Years are 146097/400 days long on average. *)
Lemma DayFromYear_mean y :
  146097 * (y - 1970) - 400 <= 400 * DayFromYear y <= 146097 * (y - 1970) + 600.
Proof. unfold DayFromYear. Z.to_euclidean_division_equations; lia. Qed.

(** [YearFromDay d] is the year whose days include [d]. *)
Lemma YearFromDay_bracket d :
  DayFromYear (YearFromDay d) <= d < DayFromYear (YearFromDay d + 1).
Proof.
  unfold YearFromDay. set (y := 1970 + 400 * d / 146097).
  pose proof (DayFromYear_mean (y - 1)) as Lm.
  pose proof (DayFromYear_mean (y + 2)) as Lp.
  assert (Hy : 146097 * (y - 1970) <= 400 * d < 146097 * (y - 1970 + 1)).
  { subst y. Z.to_euclidean_division_equations. lia. }
  clearbody y.
  destruct (d <? DayFromYear y) eqn:E1.
  - apply Z.ltb_lt in E1. replace (y - 1 + 1) with y by lia. lia.
  - apply Z.ltb_ge in E1.
    destruct (DayFromYear (y + 1) <=? d) eqn:E2.
    + apply Z.leb_le in E2. replace (y + 1 + 1) with (y + 2) by lia. lia.
    + apply Z.leb_gt in E2. lia.
Qed.

Lemma DayFromYear_mono y y' : y <= y' -> DayFromYear y <= DayFromYear y'.
Proof.
  intros H. replace y' with (y + Z.of_nat (Z.to_nat (y' - y))) by lia.
  induction (Z.to_nat (y' - y)) as [|n IH]; [now rewrite Z.add_0_r|].
  pose proof (DayFromYear_step (y + Z.of_nat n)).
  replace (y + Z.of_nat (S n)) with (y + Z.of_nat n + 1) by lia. lia.
Qed.

Lemma YearFromDay_unique y d :
  DayFromYear y <= d < DayFromYear (y + 1) -> YearFromDay d = y.
Proof.
  intros Hd. pose proof (YearFromDay_bracket d) as Hb.
  destruct (Z.lt_trichotomy (YearFromDay d) y) as [Hlt|[Heq|Hgt]];
    [exfalso | assumption | exfalso].
  - pose proof (DayFromYear_mono (YearFromDay d + 1) y). lia.
  - pose proof (DayFromYear_mono (y + 1) (YearFromDay d)). lia.
Qed.

Lemma leap_step_4 y :
  (y + 1 - 1969) / 4 - (y - 1969) / 4 = if y mod 4 =? 0 then 1 else 0.
Proof.
  destruct (y mod 4 =? 0) eqn:E;
    [apply Z.eqb_eq in E | apply Z.eqb_neq in E];
    Z.to_euclidean_division_equations; lia.
Qed.

Lemma leap_step_100 y :
  (y + 1 - 1901) / 100 - (y - 1901) / 100 = if y mod 100 =? 0 then 1 else 0.
Proof.
  destruct (y mod 100 =? 0) eqn:E;
    [apply Z.eqb_eq in E | apply Z.eqb_neq in E];
    Z.to_euclidean_division_equations; lia.
Qed.

Lemma leap_step_400 y :
  (y + 1 - 1601) / 400 - (y - 1601) / 400 = if y mod 400 =? 0 then 1 else 0.
Proof.
  destruct (y mod 400 =? 0) eqn:E;
    [apply Z.eqb_eq in E | apply Z.eqb_neq in E];
    Z.to_euclidean_division_equations; lia.
Qed.

Lemma DaysInYear y :
  DayFromYear (y + 1) - DayFromYear y = if isLeap y then 366 else 365.
Proof.
  unfold DayFromYear, isLeap.
  pose proof (leap_step_4 y) as H4.
  pose proof (leap_step_100 y) as H100.
  pose proof (leap_step_400 y) as H400.
  assert (D1 : y mod 400 = 0 -> y mod 100 = 0)
    by (Z.to_euclidean_division_equations; lia).
  assert (D2 : y mod 100 = 0 -> y mod 4 = 0)
    by (Z.to_euclidean_division_equations; lia).
  destruct (y mod 4 =? 0) eqn:E4;
    [apply Z.eqb_eq in E4 | apply Z.eqb_neq in E4];
    (destruct (y mod 100 =? 0) eqn:E100;
     [apply Z.eqb_eq in E100 | apply Z.eqb_neq in E100]);
    (destruct (y mod 400 =? 0) eqn:E400;
     [apply Z.eqb_eq in E400 | apply Z.eqb_neq in E400]);
    cbn [andb orb negb]; lia.
Qed.

Lemma DayWithinYear_range t :
  0 <= DayWithinYear t < (if InLeapYear t then 366 else 365).
Proof.
  unfold DayWithinYear, InLeapYear, YearFromTime.
  pose proof (YearFromDay_bracket (Day t)).
  pose proof (DaysInYear (YearFromDay (Day t))).
  destruct (isLeap (YearFromDay (Day t))); lia.
Qed.

(** The day of the month is between 1 and 31. *)
Lemma DateFromTime_range t : 1 <= DateFromTime t <= 31.
Proof.
  unfold DateFromTime, MonthFromTime.
  pose proof (DayWithinYear_range t) as H.
  unfold monthOfYearDay.
  destruct (InLeapYear t); simpl in *;
    repeat match goal with
           | |- context [if ?c then _ else _] =>
               let E := fresh "E" in
               destruct c eqn:E;
               [apply Z.ltb_lt in E | apply Z.ltb_ge in E]; simpl
           end; lia.
Qed.

Lemma Day_MakeDate day time :
  0 <= time < msPerDay ->
  Day (MakeDate day time) = day /\ TimeWithinDay (MakeDate day time) = time.
Proof.
  unfold Day, TimeWithinDay, MakeDate, msPerDay. intros H.
  Z.to_euclidean_division_equations. lia.
Qed.

Lemma TimeWithinDay_range t : 0 <= TimeWithinDay t < msPerDay.
Proof. unfold TimeWithinDay, msPerDay. apply Z.mod_pos_bound. lia. Qed.

(** Months beyond December carry into the year. *)
Lemma MakeDay_normal y m d : MakeDay y m d = MakeDay (y + m / 12) (m mod 12) d.
Proof.
  unfold MakeDay.
  rewrite Z.mod_mod by lia.
  rewrite (Z.div_small (m mod 12) 12) by (apply Z.mod_pos_bound; lia).
  now rewrite Z.add_0_r.
Qed.

Ltac each_month m :=
  let H := fresh "H" in
  assert (H : m = 0 \/ m = 1 \/ m = 2 \/ m = 3 \/ m = 4 \/ m = 5 \/ m = 6
              \/ m = 7 \/ m = 8 \/ m = 9 \/ m = 10 \/ m = 11) by lia;
  destruct H as [H|[H|[H|[H|[H|[H|[H|[H|[H|[H|[H|H]]]]]]]]]]]; subst m.

Lemma monthStart_range m leap d :
  0 <= m <= 11 -> 0 <= d <= 27 -> 0 <= monthStart m leap + d < 365.
Proof. intros Hm Hd. each_month m; destruct leap; cbn [monthStart]; lia. Qed.

(** The first 28 days of every month are found back by the month table. *)
Lemma monthOfYearDay_monthStart m leap d :
  0 <= m <= 11 -> 0 <= d <= 27 -> monthOfYearDay (monthStart m leap + d) leap = m.
Proof.
  intros Hm Hd. unfold monthOfYearDay.
  each_month m; destruct leap; cbn [monthStart];
    repeat match goal with
           | |- context [if ?c then _ else _] =>
               let E := fresh "E" in
               destruct c eqn:E;
               [apply Z.ltb_lt in E | apply Z.ltb_ge in E]
           end; lia.
Qed.

(** A time value built from a year, a month 0..11, a day 1..28 and a
    time of day has exactly these calendar fields. *)
Lemma fields_of_MakeDate y m d time :
  0 <= m <= 11 -> 1 <= d <= 28 -> 0 <= time < msPerDay ->
  let t := MakeDate (MakeDay y m d) time in
  YearFromTime t = y /\ MonthFromTime t = m /\ DateFromTime t = d
  /\ TimeWithinDay t = time.
Proof.
  intros Hm Hd Ht t.
  destruct (Day_MakeDate (MakeDay y m d) time Ht) as [HD HT].
  fold t in HD, HT.
  assert (HM : MakeDay y m d = DayFromYear y + (monthStart m (isLeap y) + (d - 1))).
  { unfold MakeDay. rewrite Z.div_small, Z.mod_small, Z.add_0_r by lia. lia. }
  pose proof (monthStart_range m (isLeap y) (d - 1) Hm ltac:(lia)) as Hs.
  assert (HY : YearFromTime t = y).
  { unfold YearFromTime. rewrite HD, HM. apply YearFromDay_unique.
    pose proof (DayFromYear_step y). lia. }
  assert (HW : DayWithinYear t = monthStart m (isLeap y) + (d - 1)).
  { unfold DayWithinYear. rewrite HY, HD, HM. lia. }
  assert (HMo : MonthFromTime t = m).
  { unfold MonthFromTime, InLeapYear. rewrite HW, HY.
    apply monthOfYearDay_monthStart; lia. }
  repeat split; try assumption.
  unfold DateFromTime, InLeapYear. rewrite HMo, HW, HY. lia.
Qed.

Lemma TimeClip_Some t : Z.abs t <= maxTime -> TimeClip t = Some t.
Proof. unfold TimeClip. intros H. apply Z.leb_le in H. now rewrite H. Qed.

Lemma TimeClip_inv t u : TimeClip t = Some u -> u = t /\ Z.abs t <= maxTime.
Proof.
  unfold TimeClip. destruct (Z.abs t <=? maxTime) eqn:E; [|discriminate].
  intros [= <-]. split; [reflexivity | now apply Z.leb_le].
Qed.
End JSDateFacts.

(* ================================================================== *)
(** ** Sorting by priority *)

Section InsertFacts.
Context {A : Type} (cmp : A -> A -> option Z).

(** An element inserted into a list goes past every element it exceeds
    and stops in front of the first one it does not exceed. *)
Lemma insert_by_split x before after :
  Forall (fun y => notAfter (cmp x y) = false) before ->
  Forall (fun y => notAfter (cmp x y) = true) after ->
  insert_by cmp x (before ++ after) = before ++ x :: after.
Proof.
  intros Hb Ha. induction Hb as [|y before Hy _ IH]; simpl.
  - destruct Ha as [|y after Hy _]; simpl; [reflexivity | now rewrite Hy].
  - now rewrite Hy, IH.
Qed.
End InsertFacts.

Lemma Permutation_filter {A} (f : A -> bool) (l l' : list A) :
  Permutation l l' -> Permutation (filter f l) (filter f l').
Proof.
  induction 1 as [|x l l' _ IH|x y l|l l' l'' _ IH1 _ IH2]; simpl.
  - constructor.
  - destruct (f x); [now constructor | assumption].
  - destruct (f x), (f y); try apply Permutation_refl. apply perm_swap.
  - now apply Permutation_trans with (filter f l').
Qed.

Lemma Forall_filter {A} (P : A -> Prop) (f : A -> bool) (l : list A) :
  (forall x, In x l -> f x = true -> P x) -> Forall P (filter f l).
Proof.
  intros H. apply Forall_forall. intros x Hx.
  apply filter_In in Hx. destruct Hx; auto.
Qed.

Section PriorityOrder.
Variable host : Host.

Lemma compare_priority_asc a b :
  compareTasks host "priority" "asc" a b
  = num_sub (priorityOrder (priority b)) (priorityOrder (priority a)).
Proof. reflexivity. Qed.

Lemma compare_priority_desc a b :
  compareTasks host "priority" "desc" a b
  = num_neg (num_sub (priorityOrder (priority b)) (priorityOrder (priority a))).
Proof. reflexivity. Qed.

Ltac by_priority H :=
  unfold validPriority, validPriorities in H; simpl in H;
  destruct H as [H|[H|[H|[]]]]; symmetry in H.

Ltac bucket_side p :=
  apply Forall_filter; intros y _ Hy;
  unfold hasPriority in Hy; apply String.eqb_eq in Hy;
  first [rewrite compare_priority_asc | rewrite compare_priority_desc];
  rewrite Hy; match goal with H : priority _ = _ |- _ => rewrite H end;
  reflexivity.

Lemma withPriority_cons p x l :
  withPriority p (x :: l)
  = if (priority x =? p)%string then x :: withPriority p l else withPriority p l.
Proof. reflexivity. Qed.

(** Ascending order lists the high tasks first, then the medium ones,
    then the low ones, each group in input order. *)
Lemma sortTasks_priority_asc l :
  Forall validPriority l ->
  sortTasks host l "priority" "asc"
  = withPriority "high" l ++ withPriority "medium" l ++ withPriority "low" l.
Proof.
  unfold sortTasks, array_sort.
  induction 1 as [|x l Hx _ IH]; [reflexivity|].
  simpl fold_right. rewrite IH. rewrite !withPriority_cons.
  by_priority Hx; rewrite Hx; simpl.
  - rewrite app_assoc.
    rewrite (insert_by_split _ x
               (withPriority "high" l ++ withPriority "medium" l)
               (withPriority "low" l)).
    + now rewrite <- app_assoc.
    + apply Forall_app; split; bucket_side "x".
    + bucket_side "x".
  - rewrite (insert_by_split _ x (withPriority "high" l)
               (withPriority "medium" l ++ withPriority "low" l)).
    + reflexivity.
    + bucket_side "x".
    + apply Forall_app; split; bucket_side "x".
  - rewrite (insert_by_split _ x []
               (withPriority "high" l ++ withPriority "medium" l
                  ++ withPriority "low" l)).
    + reflexivity.
    + constructor.
    + apply Forall_app; split; [|apply Forall_app; split]; bucket_side "x".
Qed.

(** Descending order lists the low tasks first, then the medium ones,
    then the high ones, each group again in input order. *)
Lemma sortTasks_priority_desc l :
  Forall validPriority l ->
  sortTasks host l "priority" "desc"
  = withPriority "low" l ++ withPriority "medium" l ++ withPriority "high" l.
Proof.
  unfold sortTasks, array_sort.
  induction 1 as [|x l Hx _ IH]; [reflexivity|].
  simpl fold_right. rewrite IH. rewrite !withPriority_cons.
  by_priority Hx; rewrite Hx; simpl.
  - rewrite (insert_by_split _ x []
               (withPriority "low" l ++ withPriority "medium" l
                  ++ withPriority "high" l)).
    + reflexivity.
    + constructor.
    + apply Forall_app; split; [|apply Forall_app; split]; bucket_side "x".
  - rewrite (insert_by_split _ x (withPriority "low" l)
               (withPriority "medium" l ++ withPriority "high" l)).
    + reflexivity.
    + bucket_side "x".
    + apply Forall_app; split; bucket_side "x".
  - rewrite app_assoc.
    rewrite (insert_by_split _ x
               (withPriority "low" l ++ withPriority "medium" l)
               (withPriority "high" l)).
    + now rewrite <- app_assoc.
    + apply Forall_app; split; bucket_side "x".
    + bucket_side "x".
Qed.

(** When no two tasks share a priority a group holds at most one task. *)
Lemma withPriority_rev p l :
  NoDup (map priority l) -> rev (withPriority p l) = withPriority p l.
Proof.
  intros Hnd.
  assert (H : withPriority p l = [] \/ exists x, withPriority p l = [x]).
  { induction l as [|x l IH]; [now left|].
    simpl in Hnd. inversion Hnd as [|? ? Hnotin Hnd']; subst.
    rewrite withPriority_cons.
    destruct (priority x =? p)%string eqn:E; [|auto].
    right. exists x. f_equal.
    apply String.eqb_eq in E.
    destruct (withPriority p l) as [|y r] eqn:F; [reflexivity|].
    exfalso. apply Hnotin.
    assert (Hy : In y (withPriority p l)) by (rewrite F; now left).
    apply filter_In in Hy. destruct Hy as [Hy1 Hy2].
    unfold hasPriority in Hy2. apply String.eqb_eq in Hy2.
    rewrite E, <- Hy2. now apply in_map. }
  destruct H as [-> | [x ->]]; reflexivity.
Qed.
End PriorityOrder.

Lemma Forall_validPriority_rev l : Forall validPriority l -> Forall validPriority (rev l).
Proof. intros H. apply Forall_forall. intros x Hx. apply in_rev in Hx.
       revert x Hx. now apply Forall_forall. Qed.

Lemma withPriority_of_rev p l : withPriority p (rev l) = rev (withPriority p l).
Proof.
  unfold withPriority. induction l as [|x l IH]; [reflexivity|].
  simpl. rewrite filter_app, IH. simpl.
  destruct (hasPriority p x); simpl; [reflexivity | now rewrite app_nil_r].
Qed.

(** Descending order is ascending order read backwards, up to the order
    of tasks that share a priority: those keep their input order in both. *)
Lemma sortTasks_priority_desc_rev host l :
  Forall validPriority l ->
  sortTasks host l "priority" "desc" = rev (sortTasks host (rev l) "priority" "asc").
Proof.
  intros H.
  rewrite sortTasks_priority_desc by assumption.
  rewrite sortTasks_priority_asc by now apply Forall_validPriority_rev.
  rewrite !withPriority_of_rev, !rev_app_distr, !rev_involutive.
  now rewrite app_assoc.
Qed.

(** C1, as stated, fails: on the three tasks high, medium, low the
    ascending priority sort does not return low, medium, high. *)
Lemma C1_sort_priority_asc_is_not_low_first :
  sortTasks Demo.host [Demo.tHigh; Demo.tMedium; Demo.tLow] "priority" "asc"
  <> [Demo.tLow; Demo.tMedium; Demo.tHigh].
Proof. vm_compute. discriminate. Qed.

(** C1 (amended): for three tasks with priorities high, medium and low,
    given in any order, [sortTasks(tasks, "priority", "asc")] returns
    them as high, medium, low and [sortTasks(tasks, "priority", "desc")]
    returns them as low, medium, high. *)
Theorem C1_sort_priority_three host (a b c : Task) (l : list Task) :
  priority a = "high"%string -> priority b = "medium"%string ->
  priority c = "low"%string ->
  Permutation l [a; b; c] ->
  sortTasks host l "priority" "asc" = [a; b; c]
  /\ sortTasks host l "priority" "desc" = [c; b; a].
Proof.
  intros Ha Hb Hc Hl.
  assert (Hv : Forall validPriority l).
  { apply (Permutation_Forall (Permutation_sym Hl)).
    unfold validPriority, validPriorities.
    repeat (apply Forall_cons || apply Forall_nil);
      rewrite ?Ha, ?Hb, ?Hc; simpl; auto. }
  assert (Hbucket : forall p, Permutation (withPriority p [a; b; c]) (withPriority p l)).
  { intros p. apply Permutation_filter. now apply Permutation_sym. }
  assert (Hh : withPriority "high" l = [a]).
  { apply Permutation_length_1_inv. rewrite <- Hbucket.
    unfold withPriority, hasPriority. simpl. now rewrite Ha, Hb, Hc. }
  assert (Hm : withPriority "medium" l = [b]).
  { apply Permutation_length_1_inv. rewrite <- Hbucket.
    unfold withPriority, hasPriority. simpl. now rewrite Ha, Hb, Hc. }
  assert (Hlo : withPriority "low" l = [c]).
  { apply Permutation_length_1_inv. rewrite <- Hbucket.
    unfold withPriority, hasPriority. simpl. now rewrite Ha, Hb, Hc. }
  rewrite sortTasks_priority_asc, sortTasks_priority_desc by assumption.
  rewrite Hh, Hm, Hlo. split; reflexivity.
Qed.

Lemma C1_sort_priority_three_witness :
  sortTasks Demo.host [Demo.tLow; Demo.tHigh; Demo.tMedium] "priority" "asc"
    = [Demo.tHigh; Demo.tMedium; Demo.tLow]
  /\ sortTasks Demo.host [Demo.tLow; Demo.tHigh; Demo.tMedium] "priority" "desc"
    = [Demo.tLow; Demo.tMedium; Demo.tHigh].
Proof.
  apply (C1_sort_priority_three Demo.host Demo.tHigh Demo.tMedium Demo.tLow);
    try reflexivity.
  apply Permutation_sym, perm_trans with [Demo.tHigh; Demo.tLow; Demo.tMedium].
  - apply perm_skip, perm_swap.
  - apply perm_swap.
Defined.

(** C7, as stated, fails: two tasks of the same priority come out in
    input order under both orders, so the two results are equal and not
    reverses of each other. *)
Lemma C7_equal_priorities_not_reversed :
  let twin := Demo.mkTask "h2" "high" "active" None None None None in
  sortTasks Demo.host [Demo.tHigh; twin] "priority" "desc"
  <> rev (sortTasks Demo.host [Demo.tHigh; twin] "priority" "asc").
Proof. vm_compute. discriminate. Qed.

(** C7 (amended): for every task list whose priorities are low, medium or
    high, [sortTasks(tasks, "priority", "desc")] is the reverse of
    [sortTasks] applied with ["asc"] to the reversed list (tasks that
    share a priority keep their input order under both orders); when no
    two tasks share a priority it is the exact reverse of
    [sortTasks(tasks, "priority", "asc")]. *)
Theorem C7_priority_desc_is_reverse_of_asc host (l : list Task) :
  Forall validPriority l ->
  sortTasks host l "priority" "desc" = rev (sortTasks host (rev l) "priority" "asc")
  /\ (NoDup (map priority l) ->
      sortTasks host l "priority" "desc" = rev (sortTasks host l "priority" "asc")).
Proof.
  intros Hv. split; [now apply sortTasks_priority_desc_rev|].
  intros Hnd.
  rewrite sortTasks_priority_asc, sortTasks_priority_desc by assumption.
  rewrite !rev_app_distr, !withPriority_rev by assumption.
  now rewrite app_assoc.
Qed.

Lemma C7_priority_desc_is_reverse_of_asc_witness :
  let l := [Demo.tMedium; Demo.tHigh; Demo.tLow] in
  sortTasks Demo.host l "priority" "desc" = rev (sortTasks Demo.host l "priority" "asc").
Proof.
  intros l.
  refine (proj2 (C7_priority_desc_is_reverse_of_asc Demo.host l _) _).
  - repeat (apply Forall_cons || apply Forall_nil); unfold validPriority; simpl; auto.
  - repeat (apply NoDup_cons || apply NoDup_nil); simpl; intuition discriminate.
Defined.

(* ================================================================== *)
(** ** Statistics: the [dueSoon] counter *)

Section DueSoon.
Variable host : Host.
Variables today weekFromNow threeDaysFromNow : JSDate.Date.

Lemma bump_add b n : bump b n = (n + (if b then 1 else 0))%nat.
Proof. destruct b; simpl; lia. Qed.

Lemma fold_dueToday l s :
  dueToday (fold_left (count_task host today weekFromNow threeDaysFromNow) l s)
  = (dueToday s + List.length (filter (isDueToday host today) l))%nat.
Proof.
  revert s. induction l as [|x l IH]; intros s; [simpl; lia|].
  cbn [fold_left filter]. rewrite IH. unfold count_task. cbn [dueToday].
  fold (dueOf host x). rewrite bump_add. fold (isDueToday host today x).
  destruct (isDueToday host today x); cbn [List.length]; lia.
Qed.

Lemma fold_dueSoon l s :
  dueSoon (fold_left (count_task host today weekFromNow threeDaysFromNow) l s)
  = (dueSoon s + List.length (filter (isDueToday host today) l)
     + List.length
         (filter (isDueInThree host today weekFromNow threeDaysFromNow) l))%nat.
Proof.
  revert s. induction l as [|x l IH]; intros s; [simpl; lia|].
  cbn [fold_left filter]. rewrite IH. unfold count_task. cbn [dueSoon].
  fold (dueOf host x). rewrite !bump_add. fold (isDueToday host today x).
  fold (isDueInThree host today weekFromNow threeDaysFromNow x).
  destruct (isDueToday host today x),
    (isDueInThree host today weekFromNow threeDaysFromNow x);
    cbn [List.length]; lia.
Qed.
End DueSoon.

Import JSDateFacts.

Lemma daysFrom_Some host t0 n :
  daysFrom host (Some t0) n = JSDate.TimeClip (t0 + n * JSDate.msPerDay).
Proof. unfold daysFrom. apply setDate_getDate. Qed.

(** What [calculateStatistics] returns as [dueSoon]: the count the
    specification describes plus, once more, every active task due today. *)
Lemma calculateStatistics_dueSoon host t ts :
  daysFrom host (startOfToday host t) 7 <> None ->
  dueSoon (calculateStatistics host t ts)
  = (dueSoon_spec host t ts + dueToday (calculateStatistics host t ts))%nat.
Proof.
  intros Hweek. unfold calculateStatistics, dueSoon_spec.
  rewrite fold_dueSoon, fold_dueToday. simpl.
  set (today := startOfToday host t) in *.
  enough (E : filter (isDueInThree host today (daysFrom host today 7) (daysFrom host today 3)) ts
              = filter (fun task =>
                  (status task =? "active")%string
                  && match dueDate task with
                     | Some d => JSString.truthy d
                                 && JSDate.ge (dueDay host d) today
                                 && JSDate.le (dueDay host d) (daysFrom host today 3)
                     | None => false
                     end) ts) by (rewrite E; lia).
  apply filter_ext. intros task. unfold isDueInThree, dueOf.
  destruct today as [t0|] eqn:Et; [|exfalso; apply Hweek; reflexivity].
  rewrite !daysFrom_Some in *.
  destruct (JSDate.TimeClip (t0 + 7 * JSDate.msPerDay)) as [w|] eqn:Ew; [|congruence].
  apply TimeClip_inv in Ew. destruct Ew as [-> Hw].
  unfold today, startOfToday, JSDate.setHours0 in Et.
  apply TimeClip_inv in Et. destruct Et as [Et Ht0]. rewrite <- Et in Ht0.
  rewrite (TimeClip_Some (t0 + 3 * JSDate.msPerDay))
    by (unfold JSDate.msPerDay, JSDate.maxTime in *; lia).
  destruct (status task =? "active")%string; simpl; [|reflexivity].
  destruct (dueDate task) as [d|]; simpl; [|reflexivity].
  destruct (JSString.truthy d); simpl; [|reflexivity].
  destruct (dueDay host d) as [x|]; simpl.
  - unfold JSDate.ge, JSDate.le.
    destruct (t0 <=? x) eqn:E1; simpl; [|reflexivity].
    destruct (x <=? t0 + 259200000) eqn:E2; [|now rewrite andb_false_r].
    rewrite andb_true_r. apply Z.leb_le. apply Z.leb_le in E2. lia.
  - reflexivity.
Qed.

(** C4: one active task due today is counted twice in [dueSoon] (once by
    the "Due today" branch, once by the "Due soon" branch), where the
    specified count is one. *)
Lemma C4_task_due_today_is_counted_twice :
  let ts := [Demo.mkTask "a" "low" "active" (Some "2024-06-01") None None None] in
  dueSoon (calculateStatistics Demo.host Demo.noon ts) = 2%nat
  /\ dueSoon_spec Demo.host Demo.noon ts = 1%nat.
Proof. vm_compute. split; reflexivity. Qed.

(* ================================================================== *)
(** ** Recurrence: the next occurrence *)

Lemma Day_add_days t n :
  JSDate.Day (t + n * JSDate.msPerDay) = JSDate.Day t + n.
Proof. unfold JSDate.Day, JSDate.msPerDay. now rewrite Z.div_add by lia. Qed.

(** The calendar fields after [setMonth(getMonth() + 1)] on a day of the
    month that every month has. *)
Lemma next_month_fields lt :
  JSDate.DateFromTime lt <= 28 ->
  let lt' := JSDate.MakeDate
               (JSDate.MakeDay (JSDate.YearFromTime lt) (JSDate.MonthFromTime lt + 1)
                               (JSDate.DateFromTime lt))
               (JSDate.TimeWithinDay lt) in
  JSDate.YearFromTime lt' = JSDate.YearFromTime lt + (JSDate.MonthFromTime lt + 1) / 12
  /\ JSDate.MonthFromTime lt' = (JSDate.MonthFromTime lt + 1) mod 12
  /\ JSDate.DateFromTime lt' = JSDate.DateFromTime lt
  /\ JSDate.TimeWithinDay lt' = JSDate.TimeWithinDay lt.
Proof.
  intros Hd. cbv zeta. rewrite MakeDay_normal.
  apply fields_of_MakeDate.
  - pose proof (Z.mod_pos_bound (JSDate.MonthFromTime lt + 1) 12). lia.
  - pose proof (DateFromTime_range lt). lia.
  - apply TimeWithinDay_range.
Qed.




Example next_occurrence_daily :
  calculateNextOccurrence Demo.host
    (Demo.mkTask "a" "low" "active" (Some "2024-02-29")
       (Some {| frequency := "daily"; interval := None |}) None None)
  = Ok (Some "2024-03-01"%string).
Proof. reflexivity. Qed.

Example next_occurrence_weekly :
  calculateNextOccurrence Demo.host
    (Demo.mkTask "a" "low" "active" (Some "2024-12-28")
       (Some {| frequency := "weekly"; interval := None |}) None None)
  = Ok (Some "2025-01-04"%string).
Proof. reflexivity. Qed.

Example next_occurrence_monthly :
  calculateNextOccurrence Demo.host
    (Demo.mkTask "a" "low" "active" (Some "2024-12-15")
       (Some {| frequency := "monthly"; interval := None |}) None None)
  = Ok (Some "2025-01-15"%string).
Proof. reflexivity. Qed.

(** The month is added in local time and the result is printed in UTC:
    five hours west of Greenwich the due date 2024-03-01 is the local
    evening of 29 February, and one local month later is printed as
    2024-03-30. *)
Example next_occurrence_west_of_Greenwich :
  let west :=
    {| clock := clock Demo.host; random36 := random36 Demo.host;
       confirm_answer := confirm_answer Demo.host;
       storage_accepts := storage_accepts Demo.host;
       Date_parse := Date_parse Demo.host;
       innerHTML_of_text := innerHTML_of_text Demo.host;
       localeCompare := localeCompare Demo.host;
       LocalTZA := -18000000; stack_depth := stack_depth Demo.host |} in
  calculateNextOccurrence west
    (Demo.mkTask "a" "low" "active" (Some "2024-03-01")
       (Some {| frequency := "monthly"; interval := None |}) None None)
  = Ok (Some "2024-03-30"%string).
Proof. reflexivity. Qed.

(** Month-end overflow follows [MakeDay]: 31 January plus one month is
    2 March in a leap year. *)
Example next_occurrence_month_end :
  calculateNextOccurrence Demo.host
    (Demo.mkTask "a" "low" "active" (Some "2024-01-31")
       (Some {| frequency := "monthly"; interval := None |}) None None)
  = Ok (Some "2024-03-02"%string).
Proof. reflexivity. Qed.

(* ================================================================== *)
(** ** The task store *)

(** *** Arrays *)

Lemma find_findIndex {A} (f : A -> bool) l x :
  find f l = Some x -> exists i, findIndex f l = Some i.
Proof.
  induction l as [|y l IH]; simpl; [discriminate|].
  destruct (f y); [eauto|]. intros H. destruct (IH H) as [i ->]. simpl. eauto.
Qed.

Lemma findIndex_find {A} (f : A -> bool) l i :
  findIndex f l = Some i -> exists x, find f l = Some x.
Proof.
  revert i. induction l as [|y l IH]; simpl; [discriminate|].
  destruct (f y); [eauto|]. intros i H.
  destruct (findIndex f l) as [j|]; [|discriminate]. eauto.
Qed.

Lemma find_list_set {A} (f : A -> bool) l i v :
  findIndex f l = Some i -> f v = true -> find f (list_set i v l) = Some v.
Proof.
  revert i. induction l as [|y l IH]; simpl; [discriminate|].
  destruct (f y) eqn:E.
  - intros i [= <-] Hv. simpl. now rewrite Hv.
  - intros i H Hv. destruct (findIndex f l) as [j|]; [|discriminate].
    injection H as <-. cbn [list_set find]. rewrite E. now apply IH.
Qed.

Lemma Forall_list_set {A} (P : A -> Prop) l i v :
  Forall P l -> P v -> Forall P (list_set i v l).
Proof.
  intros Hl Hv. revert i. induction Hl as [|y l Hy Hl' IH]; intros i.
  - destruct i; constructor.
  - destruct i; simpl; constructor; auto.
Qed.

Lemma Forall_find {A} (P : A -> Prop) (f : A -> bool) l x :
  Forall P l -> find f l = Some x -> P x.
Proof.
  intros Hl Hx. apply find_some in Hx. destruct Hx as [Hx _].
  revert x Hx. now apply Forall_forall.
Qed.

Lemma Forall_filter_sub {A} (P : A -> Prop) (f : A -> bool) l :
  Forall P l -> Forall P (filter f l).
Proof.
  intros H. apply Forall_filter. intros x Hx _. revert x Hx. now apply Forall_forall.
Qed.

(** *** The persistence gateway *)

(** Runs the monadic plumbing of a goal. *)
Ltac run :=
  cbv beta iota zeta delta
    [bind ret throw lift getTasks getData nowISO now host_call
     emit setItem confirm exportTasks] in *;
  cbn [fst snd storage calls ui tasks lastUpdated] in *.

Section GatewayFacts.
Variable host : Host.


(** A write the storage takes replaces the blob and costs one clock
    read (the [lastUpdated] stamp). *)
Lemma saveTasks_at_accepted depth ts w :
  storage_accepts host
    {| tasks := ts;
       lastUpdated := Some (JSDate.toISOString (clock host (calls w))) |} = true ->
  saveTasks_at host depth ts w
  = (Ok tt,
     {| storage := {| tasks := ts;
                      lastUpdated := Some (JSDate.toISOString (clock host (calls w))) |};
        calls := S (calls w); ui := ui w |}).
Proof.
  intros H. destruct depth; simpl; run; unfold saveData_with; now rewrite H.
Qed.

(** Whatever happens inside [saveTasks], every task left in storage
    comes from the array to be written or from the blob that was there. *)
Lemma saveTasks_at_Forall (P : Task -> Prop) depth :
  forall ts w,
    Forall P ts -> Forall P (tasks (storage w)) ->
    Forall P (tasks (storage (snd (saveTasks_at host depth ts w)))).
Proof.
  induction depth as [|d IH]; intros ts w Hts Hw; simpl; run;
    unfold saveData_with;
    destruct (storage_accepts host _); run; try assumption.
  unfold handleQuotaExceeded_with. run.
  match goal with
  | |- context [(List.length (filter ?f ?l) <? List.length ?l)%nat] =>
      set (kept := filter f l);
      assert (Hkept : Forall P kept) by (now apply Forall_filter_sub);
      destruct (List.length kept <? List.length l)%nat
  end.
  - match goal with
    | |- context [saveTasks_at host d ?l ?w0] =>
        specialize (IH l w0 Hkept Hw); destruct (saveTasks_at host d l w0) as [[[]|e] w1]
    end; exact IH.
  - destruct (confirm_answer host _); run;
      match goal with
      | |- context [saveTasks_at host d ?l ?w0] =>
          specialize (IH l w0 (Forall_filter_sub P _ _ Hw) Hw);
          destruct (saveTasks_at host d l w0) as [[[]|e] w1]
      end; exact IH.
Qed.

(** The only error that comes out of [saveTasks] is the engine's. *)
Lemma saveTasks_at_throws depth :
  forall ts w e w', saveTasks_at host depth ts w = (Throw e, w') -> isRangeError e.
Proof.
  induction depth as [|d IH]; intros ts w e w'; simpl; run;
    unfold saveData_with;
    destruct (storage_accepts host _); run; try discriminate.
  - intros [= <- _]. exact I.
  - unfold handleQuotaExceeded_with. run.
    destruct (_ <? _)%nat.
    + destruct (saveTasks_at host d _ _) as [[[]|e1] w1] eqn:E; run.
      * discriminate.
      * intros [= <- _]. eapply IH, E.
    + destruct (confirm_answer host _); run;
        (destruct (saveTasks_at host d _ _) as [[[]|e1] w1] eqn:E; run;
         [discriminate | intros [= <- _]; eapply IH, E]).
Qed.

Lemma saveTasks_Forall (P : Task -> Prop) ts w :
  Forall P ts -> Forall P (tasks (storage w)) ->
  Forall P (tasks (storage (snd (saveTasks host ts w)))).
Proof. exact (saveTasks_at_Forall P (stack_depth host) ts w). Qed.

Lemma saveTasks_throws ts w e w' :
  saveTasks host ts w = (Throw e, w') -> isRangeError e.
Proof. exact (saveTasks_at_throws (stack_depth host) ts w e w'). Qed.
End GatewayFacts.

(** *** [updateTask] *)

Section UpdateFacts.
Variable host : Host.

(** Validation reads nothing from the host, leaves the world alone,
    fails only with a validation error and passes [status] through. *)
Lemma validateUpdates_run p w :
  (exists u, validateUpdates host p w = (Ok u, w) /\ p_status u = p_status p)
  \/ (exists msg, validateUpdates host p w = (Throw (ValidationError msg), w)).
Proof.
  unfold validateUpdates, validateDate. run.
  destruct (p_title p) as [t|]; [destruct (blank t); [right; eauto|]|];
    cbn [p_description p_priority p_dueDate p_status set_title set_description];
    destruct (p_description p) as [d|];
    cbn [p_description p_priority p_dueDate p_status set_title set_description];
    (destruct (p_priority p) as [pr|];
     [destruct (includes validPriorities pr); [|right; eauto]|]);
    (destruct (p_dueDate p) as [[dd|]|];
     [destruct (JSString.truthy dd); cbn [negb];
      [destruct (Date_parse host dd); [|right; eauto]|]| |]);
    left; eexists; split; reflexivity.
Qed.

(** The [status] of a patch plays no part in validation. *)
Lemma validateUpdates_ignores_status p s w e w' :
  validateUpdates host p w = (Throw e, w') ->
  validateUpdates host (set_status p s) w = (Throw e, w').
Proof.
  destruct p as [ti de pr st ta du re pi pp ps pc pd].
  unfold validateUpdates, validateDate. run.
  cbv beta iota delta
    [set_status set_title set_description set_dueDate
     p_title p_description p_priority p_status p_tags p_dueDate p_recurring
     p_id p_parentId p_subtasks p_createdAt p_completedAt].
  destruct ti as [t|]; [destruct (blank t); [trivial|]|];
    destruct de as [d|];
    (destruct pr as [pr|];
     [destruct (includes validPriorities pr); [|trivial]|]);
    (destruct du as [[dd|]|];
     [destruct (JSString.truthy dd); cbn [negb];
      [destruct (Date_parse host dd); [|trivial]|]| |]);
    discriminate.
Qed.

(** Validation passes through the properties it does not look at. *)
Lemma validateUpdates_extras p w u w' :
  validateUpdates host p w = (Ok u, w') -> sameExtras u p.
Proof.
  destruct p as [ti de pr st ta du re pi pp ps pc pd].
  unfold validateUpdates, validateDate, sameExtras. run.
  cbv beta iota delta
    [set_status set_title set_description set_dueDate
     p_title p_description p_priority p_status p_tags p_dueDate p_recurring
     p_id p_parentId p_subtasks p_createdAt p_completedAt].
  destruct ti as [t|]; [destruct (blank t); [discriminate|]|];
    destruct de as [d|];
    (destruct pr as [pr|];
     [destruct (includes validPriorities pr); [|discriminate]|]);
    (destruct du as [[dd|]|];
     [destruct (JSString.truthy dd); cbn [negb];
      [destruct (Date_parse host dd); [|discriminate]|]| |]);
    intros [= <- <-]; repeat split.
Qed.
End UpdateFacts.

Section UpdateRun.
Variable host : Host.

(** [updateTask] on an identifier that is stored: either validation
    fails and nothing else happens, or the merged record [final] is
    handed to [saveTasks] in place of the old one and returned. *)
Lemma updateTask_found i p w t :
  find (hasId i) (tasks (storage w)) = Some t ->
  (exists msg,
      validateUpdates host p w = (Throw (ValidationError msg), w)
      /\ updateTask host i p w = (Throw (ValidationError msg), w))
  \/ (exists u final w1 idx,
        updateTask host i p w
        = match saveTasks host (list_set idx final (tasks (storage w))) w1 with
          | (Ok _, w2) => (Ok final, w2)
          | (Throw e, w2) => (Throw e, w2)
          end
        /\ validateUpdates host p w = (Ok u, w)
        /\ findIndex (hasId i) (tasks (storage w)) = Some idx
        /\ storage w1 = storage w /\ ui w1 = ui w
        /\ id final = patched (p_id p) (id t)
        /\ parentId final = patched (p_parentId p) (parentId t)
        /\ status final = match p_status p with Some s => s | None => status t end
        /\ completedAt final
           = completedAt_after (patched (p_completedAt p) (completedAt t)) (p_status p)
               (JSDate.toISOString (clock host (S (calls w))))).
Proof.
  intros Hfind.
  destruct (find_findIndex _ _ _ Hfind) as [idx Hidx].
  unfold updateTask. run. rewrite Hfind, Hidx.
  destruct (validateUpdates_run host p w) as [(u & Hu & Hst) | (msg & Hu)];
    rewrite Hu; [right | left; eauto].
  destruct (validateUpdates_extras host p w u w Hu) as (Ei & Ep & _ & _ & Ed).
  unfold completedAt_after, patched. cbn [merge completedAt]. rewrite Hst, Ed.
  assert (Hm : forall stamp c,
             id (set_completedAt (merge t u stamp) c)
             = match p_id p with Some v => v | None => id t end
             /\ parentId (set_completedAt (merge t u stamp) c)
                = match p_parentId p with Some v => v | None => parentId t end
             /\ status (set_completedAt (merge t u stamp) c)
                = match p_status p with Some s => s | None => status t end
             /\ completedAt (set_completedAt (merge t u stamp) c) = c)
    by (intros; cbn; now rewrite Hst, Ei, Ep).
  assert (Hm' : forall stamp,
             id (merge t u stamp) = match p_id p with Some v => v | None => id t end
             /\ parentId (merge t u stamp)
                = match p_parentId p with Some v => v | None => parentId t end
             /\ status (merge t u stamp)
                = match p_status p with Some s => s | None => status t end
             /\ completedAt (merge t u stamp)
                = match p_completedAt p with Some v => v | None => completedAt t end)
    by (intros; cbn; now rewrite Hst, Ei, Ep, Ed).
  destruct (match p_completedAt p with Some v => v | None => completedAt t end)
    as [c|] eqn:Eb;
    (destruct (p_status p) as [s|]; cbn [andb];
     [destruct (String.eqb_spec s "completed") as [->|Ec];
      cbn [andb String.eqb Ascii.eqb Bool.eqb];
      [|destruct (s =? "active")%string eqn:Ea]|]);
    exists u; eexists _, _, idx; (split; [reflexivity|]);
    (split; [reflexivity|]); (split; [reflexivity|]);
    (split; [reflexivity|]); (split; [reflexivity|]);
    first [ apply Hm | apply Hm' ].
Qed.

Lemma updateTask_missing i p w :
  find (hasId i) (tasks (storage w)) = None ->
  updateTask host i p w = (Throw (NotFoundError "Task not found"), w).
Proof.
  intros H. unfold updateTask. run. rewrite H.
  destruct (findIndex _ _); reflexivity.
Qed.
End UpdateRun.

Section UpdateClaims.
Variable host : Host.

(** When the storage takes the write, the updated record is the one
    stored under the identifier. *)
Lemma saveTasks_stores i idx final ts w1 w2 :
  (forall d, storage_accepts host d = true) ->
  findIndex (hasId i) ts = Some idx ->
  hasId i final = true ->
  saveTasks host (list_set idx final ts) w1 = (Ok tt, w2) ->
  find (hasId i) (tasks (storage w2)) = Some final.
Proof.
  intros Hacc Hidx Hid Hs. unfold saveTasks in Hs.
  rewrite saveTasks_at_accepted in Hs by apply Hacc.
  injection Hs as <-. cbn [storage tasks]. now apply find_list_set.
Qed.
End UpdateClaims.

(** As stated for every patch, C2 fails: the merge copies a [completedAt]
    that the patch supplies before the status rule looks at it, so
    [{ status: "completed", completedAt: null }] on a task completed
    earlier overwrites its completion time with the time of the call. *)
Lemma C2_patch_with_null_completedAt_overwrites :
  let t := Demo.mkTask "a" "low" "completed" None None None
             (Some "2024-05-02T09:00:00.000Z") in
  exists t' w',
    updateTask Demo.host "a" (completionPatch "completed" None) (Demo.world [t])
    = (Ok t', w')
    /\ completedAt t = Some "2024-05-02T09:00:00.000Z"%string
    /\ completedAt t' = Some "2024-06-01T12:00:00.001Z"%string
    /\ tasks (storage w') = [t'].
Proof.
  intros t.
  pose (r := updateTask Demo.host "a" (completionPatch "completed" None) (Demo.world [t])).
  assert (E : updateTask Demo.host "a" (completionPatch "completed" None) (Demo.world [t])
              = r) by reflexivity.
  vm_compute in r. subst r.
  eexists _, _. split; [exact E|]. repeat split.
Qed.

(** C2: the status rule of [updateTask] applies to the completion time
    after the merge, [before]: the one the patch supplies, and the one of
    the stored task [t] when the patch supplies none (the case of every
    patch of the documented fields).  Whenever the call returns, with
    [patch.status == "completed"] the returned [completedAt] is [before]
    when that is non-null and the clock reading made during the call when
    it is null, and with [patch.status == "active"] it is null.  And the
    call does return when the patch passes validation and the storage
    takes the write; the returned task is then stored in the place of
    [t]. *)
Theorem C2_update_sets_and_clears_completedAt host i p w t :
  find (hasId i) (tasks (storage w)) = Some t ->
  let before := patched (p_completedAt p) (completedAt t) in
  let stamp := JSDate.toISOString (clock host (S (calls w))) in
  (p_completedAt p = None -> before = completedAt t)
  /\ (forall t' w',
        updateTask host i p w = (Ok t', w') ->
        (p_status p = Some "completed"%string ->
         completedAt t' = match before with Some c => Some c | None => Some stamp end)
        /\ (p_status p = Some "active"%string -> completedAt t' = None))
  /\ (accepting host ->
      forall u, validateUpdates host p w = (Ok u, w) ->
      exists t' w' idx,
        updateTask host i p w = (Ok t', w')
        /\ findIndex (hasId i) (tasks (storage w)) = Some idx
        /\ tasks (storage w') = list_set idx t' (tasks (storage w))).
Proof.
  intros Hfind before stamp. subst before stamp.
  split; [intros ->; reflexivity|].
  destruct (updateTask_found host i p w t Hfind)
    as [(msg & Hv & Hthrow)
       | (u & final & w1 & idx & Heq & Hv & Hidx & _ & _ & _ & _ & _ & Hc)].
  - split.
    + intros t' w' Hrun. rewrite Hthrow in Hrun. discriminate.
    + intros _ u Hu. rewrite Hu in Hv. discriminate.
  - split.
    + intros t' w' Hrun. rewrite Heq in Hrun.
      destruct (saveTasks host _ w1) as [[[]|e] w2] eqn:Hs; [|discriminate].
      injection Hrun as <- <-.
      split; intros Hp; rewrite Hc, Hp; reflexivity.
    + intros Hacc _ _. rewrite Heq. unfold saveTasks.
      rewrite saveTasks_at_accepted by apply Hacc.
      eexists _, _, idx. split; [reflexivity|]. split; [exact Hidx | reflexivity].
Qed.

Lemma C2_update_sets_and_clears_completedAt_witness :
  let t := Demo.mkTask "a" "low" "active" None None None None in
  exists t' w',
    updateTask Demo.host "a" (statusPatch "completed") (Demo.world [t]) = (Ok t', w')
    /\ completedAt t' = Some "2024-06-01T12:00:00.001Z"%string
    /\ tasks (storage w') = [t'].
Proof.
  intros t.
  destruct (C2_update_sets_and_clears_completedAt Demo.host "a"
              (statusPatch "completed") (Demo.world [t]) t eq_refl)
    as (_ & Hrule & Hreturns).
  destruct (Hreturns (fun _ => eq_refl) (statusPatch "completed") eq_refl)
    as (t' & w' & idx & Hrun & Hidx & Hts).
  exists t', w'. split; [exact Hrun|].
  split.
  - exact (proj1 (Hrule t' w' Hrun) eq_refl).
  - rewrite Hts. injection Hidx as <-. reflexivity.
Defined.

(** A patch that only sets a status to a string outside the enum. *)
Example update_status_archived :
  let t := Demo.mkTask "a" "low" "completed" None None None
             (Some "2024-05-02T09:00:00.000Z") in
  exists t' w',
    updateTask Demo.host "a" (statusPatch "archived") (Demo.world [t]) = (Ok t', w')
    /\ status t' = "archived"%string
    /\ completedAt t' = Some "2024-05-02T09:00:00.000Z"%string
    /\ tasks (storage w') = [t'].
Proof.
  intros t.
  pose (r := updateTask Demo.host "a" (statusPatch "archived") (Demo.world [t])).
  assert (E : updateTask Demo.host "a" (statusPatch "archived") (Demo.world [t]) = r)
    by reflexivity.
  vm_compute in r. subst r.
  eexists _, _. split; [exact E|]. repeat split.
Qed.

(** As stated for every patch, C9 fails in its last part: a patch that
    supplies [completedAt] beside the unrecognized status has it merged
    as well, so the completion time does not stay as it was. *)
Lemma C9_patch_with_completedAt_changes_it :
  let t := Demo.mkTask "a" "low" "completed" None None None
             (Some "2024-05-02T09:00:00.000Z") in
  exists t' w',
    updateTask Demo.host "a" (completionPatch "archived" None) (Demo.world [t])
    = (Ok t', w')
    /\ status t' = "archived"%string
    /\ completedAt t = Some "2024-05-02T09:00:00.000Z"%string
    /\ completedAt t' = None
    /\ tasks (storage w') = [t'].
Proof.
  intros t.
  pose (r := updateTask Demo.host "a" (completionPatch "archived" None) (Demo.world [t])).
  assert (E : updateTask Demo.host "a" (completionPatch "archived" None) (Demo.world [t])
              = r) by reflexivity.
  vm_compute in r. subst r.
  eexists _, _. split; [exact E|]. repeat split.
Qed.

(** C9: a patch whose [status] is a string other than ["active"] and
    ["completed"] is not rejected for it.  On a stored task, a validation
    error of such an update is also raised without the status (it stems
    from title, priority or due date); a patch of the status alone
    raises no validation or not-found error, and returns when the storage
    takes the write; and when the update returns, the returned task
    carries the status verbatim and the status rule leaves [completedAt]
    as the merge made it: the one the patch supplies, and the one the
    task had when the patch supplies none (the case of every patch of
    the documented fields).  When the storage takes the write the
    returned task is stored in the place of the old one. *)
Theorem C9_unrecognized_status_is_merged host i p s w t :
  find (hasId i) (tasks (storage w)) = Some t ->
  p_status p = Some s -> s <> "active"%string -> s <> "completed"%string ->
  (forall msg w',
      updateTask host i p w = (Throw (ValidationError msg), w') ->
      updateTask host i (set_status p None) w = (Throw (ValidationError msg), w'))
  /\ (forall e w', updateTask host i (statusPatch s) w = (Throw e, w') -> ~ isUserError e)
  /\ (accepting host ->
      exists t' w', updateTask host i (statusPatch s) w = (Ok t', w'))
  /\ (forall t' w',
        updateTask host i p w = (Ok t', w') ->
        status t' = s
        /\ completedAt t' = patched (p_completedAt p) (completedAt t)
        /\ (p_completedAt p = None -> completedAt t' = completedAt t)
        /\ (accepting host ->
            exists idx,
              findIndex (hasId i) (tasks (storage w)) = Some idx
              /\ tasks (storage w') = list_set idx t' (tasks (storage w)))).
Proof.
  intros Hfind Hp Hna Hnc.
  split; [|split; [|split]].
  - intros msg w' Hrun.
    destruct (updateTask_found host i p w t Hfind)
      as [(msg' & Hv & Hthrow) | (u & final & w1 & idx & Heq & _)].
    + rewrite Hthrow in Hrun. injection Hrun as <- <-.
      apply validateUpdates_ignores_status with (s := None) in Hv.
      destruct (updateTask_found host i (set_status p None) w t Hfind)
        as [(msg2 & Hv2 & Hthrow2) | (u2 & _ & _ & _ & _ & Hv2 & _)];
        rewrite Hv in Hv2; [|discriminate].
      injection Hv2 as <-. exact Hthrow2.
    + rewrite Heq in Hrun.
      destruct (saveTasks host _ w1) as [[[]|e] w2] eqn:Hs; [discriminate|].
      injection Hrun as -> <-.
      apply saveTasks_throws in Hs. destruct Hs.
  - intros e w' Hrun Huser.
    destruct (updateTask_found host i (statusPatch s) w t Hfind)
      as [(msg' & Hv & _) | (u & final & w1 & idx & Heq & _)].
    + unfold validateUpdates, statusPatch in Hv. run. cbn in Hv. discriminate.
    + rewrite Heq in Hrun.
      destruct (saveTasks host _ w1) as [[[]|e'] w2] eqn:Hs; [discriminate|].
      injection Hrun as -> <-.
      apply saveTasks_throws in Hs. destruct e; auto.
  - intros Hacc.
    destruct (updateTask_found host i (statusPatch s) w t Hfind)
      as [(msg' & Hv & _) | (u & final & w1 & idx & Heq & _)].
    + unfold validateUpdates, statusPatch in Hv. run. cbn in Hv. discriminate.
    + rewrite Heq. unfold saveTasks. rewrite saveTasks_at_accepted by apply Hacc.
      eexists _, _. reflexivity.
  - intros t' w' Hrun.
    destruct (updateTask_found host i p w t Hfind)
      as [(msg & _ & Hthrow)
         | (u & final & w1 & idx & Heq & _ & Hidx & _ & _ & _ & _ & Hst & Hc)].
    + rewrite Hthrow in Hrun. discriminate.
    + rewrite Heq in Hrun. unfold saveTasks in Hrun.
      destruct (saveTasks_at host _ _ w1) as [[[]|e] w2] eqn:Hs; [|discriminate].
      injection Hrun as <- <-.
      rewrite Hp in Hst, Hc. unfold completedAt_after in Hc.
      apply String.eqb_neq in Hna, Hnc. rewrite Hna, Hnc in Hc.
      split; [assumption|]. split; [assumption|].
      split; [intros Hn; now rewrite Hc, Hn|].
      intros Hacc. exists idx. split; [assumption|].
      rewrite saveTasks_at_accepted in Hs by apply Hacc.
      injection Hs as <-. reflexivity.
Qed.

Lemma C9_unrecognized_status_is_merged_witness :
  let t := Demo.mkTask "a" "low" "completed" None None None
             (Some "2024-05-02T09:00:00.000Z") in
  exists t' w',
    updateTask Demo.host "a" (statusPatch "archived") (Demo.world [t]) = (Ok t', w')
    /\ status t' = "archived"%string /\ completedAt t' = completedAt t.
Proof.
  intros t.
  pose (r := updateTask Demo.host "a" (statusPatch "archived") (Demo.world [t])).
  assert (E : updateTask Demo.host "a" (statusPatch "archived") (Demo.world [t]) = r)
    by reflexivity.
  vm_compute in r. subst r.
  eexists _, _. split; [exact E|].
  assert (Ha : "archived"%string <> "active"%string) by discriminate.
  assert (Hc : "archived"%string <> "completed"%string) by discriminate.
  pose proof (proj2 (proj2 (proj2 (C9_unrecognized_status_is_merged Demo.host "a"
                              (statusPatch "archived") "archived" (Demo.world [t]) t
                              eq_refl eq_refl Ha Hc))) _ _ E) as (H1 & _ & H3 & _).
  split; [exact H1 | exact (H3 eq_refl)].
Defined.

(** [createSubtask] writes back the array it read before [createTask]
    ran: the parent is stored with the new identifier in [subtasks], the
    subtask itself is returned but is not in the stored collection. *)
Example createSubtask_stores_the_parent_only :
  let r := createSubtask Demo.host "h" (titleOnly "Part one") (Demo.world [Demo.tHigh]) in
  exists sub w',
    r = (Ok sub, w')
    /\ parentId sub = Some "h"%string
    /\ map id (tasks (storage w')) = ["h"%string]
    /\ map subtasks (tasks (storage w')) = [[id sub]].
Proof. eexists _, _. vm_compute. repeat split. Qed.

(** *** Failed operations *)

Section FailureFacts.
Variable host : Host.

Lemma saveTasks_not_user_error ts w e w' :
  saveTasks host ts w = (Throw e, w') -> ~ isUserError e.
Proof.
  intros H Hu. apply saveTasks_throws in H. destruct e; auto.
Qed.

Lemma createTask_failure td w e w' :
  createTask host td w = (Throw e, w') -> isUserError e -> storage w' = storage w.
Proof.
  unfold createTask, generateId, validateDate. run.
  destruct (td_title td) as [raw|]; [|intros [= <- <-]; reflexivity].
  destruct (blank raw); [intros [= <- <-]; reflexivity|].
  destruct (td_dueDate td) as [d|].
  - destruct (JSString.truthy d); cbn [negb].
    + destruct (Date_parse host d); [|intros [= <- <-]; reflexivity].
      destruct (saveTasks host _ _) as [[[]|e1] w1] eqn:Hs; [discriminate|].
      intros [= <- <-] Hu. now apply saveTasks_not_user_error in Hs.
    + destruct (saveTasks host _ _) as [[[]|e1] w1] eqn:Hs; [discriminate|].
      intros [= <- <-] Hu. now apply saveTasks_not_user_error in Hs.
  - destruct (saveTasks host _ _) as [[[]|e1] w1] eqn:Hs; [discriminate|].
    intros [= <- <-] Hu. now apply saveTasks_not_user_error in Hs.
Qed.

Lemma updateTask_failure i p w e w' :
  updateTask host i p w = (Throw e, w') -> isUserError e -> storage w' = storage w.
Proof.
  intros Hrun Hu.
  destruct (find (hasId i) (tasks (storage w))) as [t|] eqn:Hfind.
  - destruct (updateTask_found host i p w t Hfind)
      as [(msg & _ & Hthrow) | (u & final & w1 & idx & Heq & _)].
    + rewrite Hthrow in Hrun. now injection Hrun as <- <-.
    + rewrite Heq in Hrun.
      destruct (saveTasks host _ w1) as [[[]|e1] w2] eqn:Hs; [discriminate|].
      injection Hrun as <- <-. now apply saveTasks_not_user_error in Hs.
  - rewrite updateTask_missing in Hrun by assumption. now injection Hrun as <- <-.
Qed.

Lemma deleteTask_failure i w e w' :
  deleteTask host i w = (Throw e, w') -> isUserError e -> storage w' = storage w.
Proof.
  unfold deleteTask. run.
  destruct (_ =? _)%nat; [intros [= <- <-]; reflexivity|].
  destruct (saveTasks host _ _) as [[[]|e1] w1] eqn:Hs; [discriminate|].
  intros [= <- <-] Hu. now apply saveTasks_not_user_error in Hs.
Qed.
End FailureFacts.

(** C5: when [createTask], [updateTask] or [deleteTask] fails with a
    validation error or a not-found error, the persisted blob after the
    call is the blob before the call. *)
Theorem C5_failed_operation_persists_nothing host w :
  (forall td e w',
      createTask host td w = (Throw e, w') -> isUserError e -> storage w' = storage w)
  /\ (forall i p e w',
        updateTask host i p w = (Throw e, w') -> isUserError e -> storage w' = storage w)
  /\ (forall i e w',
        deleteTask host i w = (Throw e, w') -> isUserError e -> storage w' = storage w).
Proof.
  split; [|split]; intros.
  - eapply createTask_failure; eauto.
  - eapply updateTask_failure; eauto.
  - eapply deleteTask_failure; eauto.
Qed.

(** The failures the claim lists do occur: a blank title on create, a
    priority outside the enum and an unparsable due date on update, an
    unknown identifier on update and delete. *)
Example failures_occur :
  let w := Demo.world [Demo.tHigh] in
  fst (createTask Demo.host (titleOnly "   ") w)
    = Throw (ValidationError "Task title is required")
  /\ fst (updateTask Demo.host "h" (priorityPatch "urgent") w)
    = Throw (ValidationError "Invalid priority value")
  /\ fst (updateTask Demo.host "h"
            {| p_title := None; p_description := None; p_priority := None;
               p_status := None; p_tags := None;
               p_dueDate := Some (Some "next week"%string); p_recurring := None;
     p_id := None; p_parentId := None; p_subtasks := None;
     p_createdAt := None; p_completedAt := None |} w)
    = Throw (ValidationError "Invalid date format")
  /\ fst (updateTask Demo.host "zz" (priorityPatch "low") w)
    = Throw (NotFoundError "Task not found")
  /\ fst (deleteTask Demo.host "zz" w) = Throw (NotFoundError "Task not found").
Proof. vm_compute. repeat split. Qed.

Lemma C5_failed_operation_persists_nothing_witness :
  let w := Demo.world [Demo.tHigh] in
  storage (snd (updateTask Demo.host "h" (priorityPatch "urgent") w)) = storage w.
Proof.
  intros w.
  pose (r := updateTask Demo.host "h" (priorityPatch "urgent") w).
  assert (E : updateTask Demo.host "h" (priorityPatch "urgent") w = r) by reflexivity.
  vm_compute in r. subst r. rewrite E. cbn [snd].
  exact (proj1 (proj2 (C5_failed_operation_persists_nothing Demo.host w)) _ _ _ _ E I).
Defined.

(* ================================================================== *)
(** ** The invariant between [status] and [completedAt] *)

Section Reachability.
Variable host : Host.

Ltac save_step :=
  match goal with
  | |- context [saveTasks host ?l ?w0] =>
      let H := fresh "Hsaved" in
      assert (H : Forall consistent (tasks (storage (snd (saveTasks host l w0)))));
      [ apply saveTasks_Forall | destruct (saveTasks host l w0) as [[[]|?] ?]; exact H ]
  end.

Lemma createTask_consistent td w :
  allConsistent w ->
  allConsistent (snd (createTask host td w))
  /\ forall t, fst (createTask host td w) = Ok t -> consistent t.
Proof.
  unfold allConsistent. intros Hw.
  unfold createTask, generateId, validateDate. run.
  assert (Hnew : forall a b c d e f g h i j k,
             consistent {| id := a; title := b; description := c; priority := d;
                           status := "active"; tags := e; dueDate := f;
                           parentId := g; subtasks := h; recurring := i;
                           createdAt := j; updatedAt := k; completedAt := None |}).
  { intros. unfold consistent. cbn. split; [congruence | discriminate]. }
  destruct (td_title td) as [raw|]; [|split; [assumption | discriminate]].
  destruct (blank raw); [split; [assumption | discriminate]|].
  destruct (td_dueDate td) as [d|];
    [destruct (JSString.truthy d); cbn [negb];
     [destruct (Date_parse host d); [|split; [assumption | discriminate]]|]|].
  all: split;
    [ save_step; [apply Forall_app; split; [assumption | repeat constructor; apply Hnew] | assumption]
    | destruct (saveTasks host _ _) as [[[]|?] ?]; cbn [fst];
      [intros t [= <-]; apply Hnew | discriminate] ].
Qed.

Lemma updateTask_consistent i p w :
  documented p -> allConsistent w -> allConsistent (snd (updateTask host i p w)).
Proof.
  unfold allConsistent. intros Hdoc Hw.
  destruct (find (hasId i) (tasks (storage w))) as [t|] eqn:Hfind.
  - destruct (updateTask_found host i p w t Hfind)
      as [(msg & _ & ->) | (u & final & w1 & idx & -> & _ & _ & Hst1 & _ & _ & _ & Hst & Hc)];
      [assumption|].
    save_step; [|now rewrite Hst1].
    apply Forall_list_set; [assumption|].
    pose proof (Forall_find _ _ _ _ Hw Hfind) as Ht.
    destruct Hdoc as (Hdoc & _ & _ & _ & _ & Hplain).
    unfold consistent in *. rewrite Hst, Hc, Hplain.
    unfold completedAt_after, patched.
    destruct (p_status p) as [s|]; [|assumption].
    destruct Hdoc as [-> | ->]; cbn [String.eqb Ascii.eqb Bool.eqb].
    + split; [congruence | discriminate].
    + destruct (completedAt t); split; congruence.
  - now rewrite updateTask_missing.
Qed.

Lemma documented_statusPatch t : documented (statusPatch (flipped t)).
Proof.
  split; [|repeat split].
  unfold statusPatch, flipped. cbn.
  destruct (status t =? "active")%string; auto.
Qed.

Lemma toggleTaskStatus_consistent i w :
  allConsistent w -> allConsistent (snd (toggleTaskStatus host i w)).
Proof.
  intros Hw. unfold toggleTaskStatus, getTaskById. run.
  destruct (find (hasId i) (tasks (storage w))) as [t|]; [|assumption].
  apply updateTask_consistent; [apply documented_statusPatch | assumption].
Qed.

Lemma deleteTask_consistent i w :
  allConsistent w -> allConsistent (snd (deleteTask host i w)).
Proof.
  unfold allConsistent. intros Hw. unfold deleteTask. run.
  destruct (_ =? _)%nat; [assumption|].
  save_step; [now apply Forall_filter_sub | assumption].
Qed.

Lemma createSubtask_consistent parent td w :
  allConsistent w -> allConsistent (snd (createSubtask host parent td w)).
Proof.
  intros Hw. unfold createSubtask. run.
  destruct (find (hasId parent) (tasks (storage w))) as [pt|] eqn:Hfind; [|assumption].
  destruct (findIndex (hasId parent) (tasks (storage w))) as [idx|]; [|assumption].
  destruct (createTask_consistent (set_parentId td (Some parent)) w Hw) as [Hw1 _].
  destruct (createTask host (set_parentId td (Some parent)) w) as [[sub|e] w1];
    cbn [snd] in Hw1; [|assumption].
  unfold allConsistent in *.
  save_step; [|assumption].
  apply Forall_list_set; [assumption|].
  pose proof (Forall_find _ _ _ _ Hw Hfind) as Hpt.
  unfold consistent in *. exact Hpt.
Qed.

Lemma updateParentTaskProgress_consistent parent w :
  allConsistent w -> allConsistent (snd (updateParentTaskProgress host parent w)).
Proof.
  intros Hw. unfold updateParentTaskProgress, getSubtasks, getTaskById. run.
  destruct (_ =? 0)%nat; [assumption|].
  destruct (forallb _ _).
  - pose proof (updateTask_consistent parent (statusPatch "completed") w
                  ltac:(split; [cbn; auto | repeat split]) Hw) as H.
    destruct (updateTask host parent _ w) as [[?|?] ?]; exact H.
  - destruct (existsb _ _); [|assumption].
    destruct (find (hasId parent) (tasks (storage w))) as [pt|]; [|assumption].
    destruct (isCompleted pt); [|assumption].
    pose proof (updateTask_consistent parent (statusPatch "active") w
                  ltac:(split; [cbn; auto | repeat split]) Hw) as H.
    destruct (updateTask host parent _ w) as [[?|?] ?]; exact H.
Qed.

Lemma createNextRecurrence_consistent task w :
  allConsistent w -> allConsistent (snd (createNextRecurrence host task w)).
Proof.
  intros Hw. unfold createNextRecurrence. run.
  destruct (recurring task); [|assumption].
  destruct (calculateNextOccurrence host task) as [next|e]; [|assumption].
  destruct (negb (JSString.truthy_opt next)); [assumption|].
  match goal with
  | |- context [createTask host ?td w] =>
      destruct (createTask_consistent td w Hw) as [H _];
      destruct (createTask host td w) as [[?|?] ?]; exact H
  end.
Qed.

Lemma toggleTaskStatusWithRecurrence_consistent i w :
  allConsistent w -> allConsistent (snd (toggleTaskStatusWithRecurrence host i w)).
Proof.
  intros Hw. unfold toggleTaskStatusWithRecurrence, getTaskById. run.
  destruct (find (hasId i) (tasks (storage w))) as [t|]; [|assumption].
  pose proof (updateTask_consistent i (statusPatch (flipped t)) w
                (documented_statusPatch t) Hw) as H.
  destruct (updateTask host i _ w) as [[u|e] w1]; cbn [snd] in H; [|assumption].
  destruct (_ && _ && _).
  - pose proof (createNextRecurrence_consistent t w1 H) as H2.
    destruct (createNextRecurrence host t w1) as [[?|?] ?]; exact H2.
  - exact H.
Qed.

Lemma step_consistent w w' : step host w w' -> allConsistent w -> allConsistent w'.
Proof.
  destruct 1; intros Hw.
  - now apply createTask_consistent.
  - now apply updateTask_consistent.
  - now apply toggleTaskStatus_consistent.
  - now apply deleteTask_consistent.
  - now apply createSubtask_consistent.
  - now apply updateParentTaskProgress_consistent.
  - now apply createNextRecurrence_consistent.
  - now apply toggleTaskStatusWithRecurrence_consistent.
Qed.
End Reachability.

(** C3: in every collection reached from the empty one by calls of
    [createTask], [updateTask] (with a patch of the documented fields
    whose status, if any, is ["active"] or ["completed"]),
    [toggleTaskStatus], [deleteTask],
    [createSubtask], [updateParentTaskProgress], [createNextRecurrence]
    and [toggleTaskStatusWithRecurrence], each with arbitrary arguments
    and whether it returns or throws, every task has a non-null
    [completedAt] exactly when its [status] is ["completed"]. *)
Theorem C3_completedAt_iff_completed host w :
  reachable host w -> Forall consistent (tasks (storage w)).
Proof.
  induction 1 as [w Hempty | w w' _ IH Hstep].
  - rewrite Hempty. constructor.
  - exact (step_consistent host w w' Hstep IH).
Qed.

Lemma C3_completedAt_iff_completed_witness :
  let w1 := snd (createTask Demo.host (titleOnly "Write report") (Demo.world [])) in
  let w2 := snd (updateTask Demo.host "task_1717243200000_r1" (statusPatch "completed") w1) in
  Forall consistent (tasks (storage w2)).
Proof.
  intros w1 w2.
  apply (C3_completedAt_iff_completed Demo.host w2).
  apply reach_step with w1.
  - apply reach_step with (Demo.world []).
    + apply reach_empty. reflexivity.
    + apply step_create.
  - apply step_update. split; [cbn; right; reflexivity | repeat split].
Defined.

(** The restriction on the patched status is needed: a status outside the
    enum is stored as it is (C9) and leaves a completion time on a task
    that is no longer completed. *)
Example undocumented_status_breaks_invariant :
  let t := Demo.mkTask "a" "low" "completed" None None None
             (Some "2024-05-02T09:00:00.000Z") in
  consistent t
  /\ ~ Forall consistent
       (tasks (storage (snd (updateTask Demo.host "a" (statusPatch "archived")
                               (Demo.world [t]))))).
Proof.
  intros t. split.
  - unfold consistent. cbn. split; [reflexivity | discriminate].
  - vm_compute. intros H. inversion H as [|x l Hx _]; subst.
    destruct Hx as [Hx _]. discriminate Hx. discriminate.
Qed.

(** So is the restriction to the documented fields: a patch that
    supplies [completedAt] and no status puts a completion time on an
    active task. *)
Example undocumented_field_breaks_invariant :
  let t := Demo.mkTask "a" "low" "active" None None None None in
  let p := set_status (completionPatch "active" (Some "2024-05-02T09:00:00.000Z")) None in
  consistent t
  /\ ~ Forall consistent (tasks (storage (snd (updateTask Demo.host "a" p (Demo.world [t]))))).
Proof.
  intros t p. split.
  - unfold consistent. cbn. split; [congruence | discriminate].
  - vm_compute. intros H. inversion H as [|x l Hx _]; subst.
    destruct Hx as [Hx _]. discriminate Hx. discriminate.
Qed.

(* ================================================================== *)
(** ** Recurrence on toggling *)

Lemma digit_not_T z : Ascii.eqb (JSString.digit z) "T" = false.
Proof.
  unfold JSString.digit.
  pose proof (Z.mod_pos_bound z 10 ltac:(lia)) as H.
  assert (Hc : z mod 10 = 0 \/ z mod 10 = 1 \/ z mod 10 = 2 \/ z mod 10 = 3
               \/ z mod 10 = 4 \/ z mod 10 = 5 \/ z mod 10 = 6 \/ z mod 10 = 7
               \/ z mod 10 = 8 \/ z mod 10 = 9) by lia.
  destruct Hc as [E|[E|[E|[E|[E|[E|[E|[E|[E|E]]]]]]]]]; rewrite E; reflexivity.
Qed.

Lemma pad_head n z :
  exists z' r, JSString.pad (S n) z = String (JSString.digit z') r.
Proof.
  revert z. induction n as [|n IH]; intros z.
  - exists z, EmptyString. reflexivity.
  - destruct (IH (z / 10)) as (z' & r & E).
    exists z', (r ++ String (JSString.digit z) EmptyString)%string.
    change (JSString.pad (S (S n)) z)
      with (JSString.pad (S n) (z / 10) ++ String (JSString.digit z) EmptyString)%string.
    rewrite E. reflexivity.
Qed.

(** The date part of an ISO string is never empty. *)
Lemma isoDate_truthy t : JSString.truthy (JSDate.isoDate t) = true.
Proof.
  unfold JSDate.isoDate, JSDate.toISOString, JSDate.isoYear.
  set (y := JSDate.YearFromTime t).
  destruct ((0 <=? y) && (y <=? 9999)); [|destruct (y <? 0)].
  - destruct (pad_head 3 y) as (z' & r & E). rewrite E.
    cbn [append JSString.split_head]. now rewrite digit_not_T.
  - reflexivity.
  - reflexivity.
Qed.

Section RecurrenceFacts.
Variable host : Host.

(** [calculateNextOccurrence] yields a date exactly for a task with a
    due date and a rule of recognized frequency, unless it throws. *)
Lemma calculateNextOccurrence_Some task d :
  calculateNextOccurrence host task = Ok (Some d) ->
  JSString.truthy d = true
  /\ JSString.truthy_opt (dueDate task) = true
  /\ exists rule, recurring task = Some rule /\ recognized (frequency rule).
Proof.
  unfold calculateNextOccurrence, recognized.
  destruct (recurring task) as [rule|]; [|discriminate].
  destruct (JSString.truthy_opt (dueDate task)); cbn [negb]; [|discriminate].
  destruct (frequency rule =? "daily")%string eqn:Ed;
    [|destruct (frequency rule =? "weekly")%string eqn:Ew;
      [|destruct (frequency rule =? "monthly")%string eqn:Em; [|discriminate]]];
    (match goal with
     | |- context [match ?x with Some _ => _ | None => _ end = Ok (Some d)] =>
         destruct x; [|discriminate]
     end);
    intros [= <-]; (split; [apply isoDate_truthy|]);
    (split; [reflexivity|]); exists rule; (split; [reflexivity|]);
    rewrite ?String.eqb_eq in *; auto.
Qed.

Lemma calculateNextOccurrence_not_null task rule :
  recurring task = Some rule -> recognized (frequency rule) ->
  JSString.truthy_opt (dueDate task) = true ->
  calculateNextOccurrence host task <> Ok None.
Proof.
  unfold calculateNextOccurrence, recognized. intros -> Hf ->. cbn [negb].
  destruct Hf as [-> | [-> | ->]]; cbn [String.eqb Ascii.eqb Bool.eqb];
    match goal with
    | |- match ?x with Some _ => _ | None => _ end <> _ => destruct x; discriminate
    end.
Qed.

Lemma createNextRecurrence_Some task w n w' :
  createNextRecurrence host task w = (Ok (Some n), w') ->
  JSString.truthy_opt (dueDate task) = true
  /\ exists rule, recurring task = Some rule /\ recognized (frequency rule).
Proof.
  unfold createNextRecurrence. run.
  destruct (recurring task) as [rule|] eqn:Er; [|discriminate].
  destruct (calculateNextOccurrence host task) as [[d|]|e] eqn:Ec; cbn; try discriminate.
  intros _. apply calculateNextOccurrence_Some in Ec.
  destruct Ec as (_ & Hd & rule' & Hr & Hf). split; [assumption|].
  exists rule'. split; [congruence | assumption].
Qed.

Lemma createNextRecurrence_None task rule w w' :
  recurring task = Some rule -> recognized (frequency rule) ->
  JSString.truthy_opt (dueDate task) = true ->
  createNextRecurrence host task w <> (Ok None, w').
Proof.
  intros Hr Hf Hd. unfold createNextRecurrence. run. rewrite Hr.
  pose proof (calculateNextOccurrence_not_null task rule Hr Hf Hd) as Hn.
  destruct (calculateNextOccurrence host task) as [[d|]|e] eqn:Ec;
    [|congruence|discriminate].
  apply calculateNextOccurrence_Some in Ec. destruct Ec as (Ht & _).
  cbn [JSString.truthy_opt]. rewrite Ht. cbn [negb].
  destruct (createTask host _ w) as [[n|e] w1]; discriminate.
Qed.
End RecurrenceFacts.

Lemma flipped_completed t :
  (flipped t =? "completed")%string = (status t =? "active")%string.
Proof. unfold flipped. destruct (status t =? "active")%string; reflexivity. Qed.

(** C6, as stated, fails: a top-level recurring task without a due date
    that goes from active to completed gets no next occurrence. *)
Lemma C6_recurring_task_without_due_date_has_no_next :
  let t := Demo.mkTask "a" "low" "active" None
             (Some {| frequency := "weekly"; interval := Some 1 |}) None None in
  status t = "active"%string /\ recurring t <> None /\ parentId t = None
  /\ exists u w',
       toggleTaskStatusWithRecurrence Demo.host "a" (Demo.world [t]) = (Ok (u, None), w')
       /\ status u = "completed"%string.
Proof.
  intros t. split; [reflexivity|]. split; [discriminate|]. split; [reflexivity|].
  eexists _, _. vm_compute. split; reflexivity.
Qed.

(** C6 (amended): when [toggleTaskStatusWithRecurrence(t.id)] returns on
    a stored task [t], [nextTask] is non-null exactly when [t] went from
    active to completed, has a due date, carries a recurrence rule whose
    frequency is daily, weekly or monthly, and has no [parentId]; for a
    subtask [nextTask] is null. *)
Theorem C6_next_task_exactly_when host i w t u next w' :
  find (hasId i) (tasks (storage w)) = Some t ->
  toggleTaskStatusWithRecurrence host i w = (Ok (u, next), w') ->
  (next <> None
   <-> status t = "active"%string
       /\ JSString.truthy_opt (dueDate t) = true
       /\ (exists rule, recurring t = Some rule /\ recognized (frequency rule))
       /\ JSString.truthy_opt (parentId t) = false)
  /\ (JSString.truthy_opt (parentId t) = true -> next = None).
Proof.
  intros Hfind. unfold toggleTaskStatusWithRecurrence, getTaskById. run.
  rewrite Hfind.
  destruct (updateTask host i (statusPatch (flipped t)) w) as [[u1|e] w1]; [|discriminate].
  rewrite flipped_completed.
  destruct (status t =? "active")%string eqn:Es; cbn [andb].
  - apply String.eqb_eq in Es.
    destruct (recurring t) as [rule|] eqn:Er; cbn [andb].
    + destruct (JSString.truthy_opt (parentId t)) eqn:Ep; cbn [negb].
      * intros [= <- <- <-]. split; [|reflexivity].
        split; [congruence | intros (_ & _ & _ & H); discriminate].
      * destruct (createNextRecurrence host t w1) as [[[n|]|e] w2] eqn:Ec;
          [| |discriminate]; intros [= <- <- <-]; (split; [|discriminate]).
        -- apply createNextRecurrence_Some in Ec. destruct Ec as (Hd & Hrule).
           rewrite Er in Hrule.
           split; [intros _ | discriminate].
           split; [assumption|]. split; [assumption|]. split; [assumption | reflexivity].
        -- split; [congruence|].
           intros (_ & Hd & (rule' & Hr & Hf) & _). exfalso.
           injection Hr as <-.
           exact (createNextRecurrence_None host t rule w1 w2 Er Hf Hd Ec).
    + intros [= <- <- <-]. split; [|reflexivity].
      split; [congruence | intros (_ & _ & (rule & Hr & _) & _); discriminate].
  - intros [= <- <- <-]. split; [|reflexivity].
    split; [congruence|]. intros (Hs & _).
    apply String.eqb_neq in Es. contradiction.
Qed.

Lemma C6_next_task_exactly_when_witness :
  let t := Demo.mkTask "a" "low" "active" (Some "2024-01-31")
             (Some {| frequency := "weekly"; interval := None |}) None None in
  exists u next w',
    toggleTaskStatusWithRecurrence Demo.host "a" (Demo.world [t]) = (Ok (u, next), w')
    /\ next <> None.
Proof.
  intros t.
  pose (r := toggleTaskStatusWithRecurrence Demo.host "a" (Demo.world [t])).
  assert (E : toggleTaskStatusWithRecurrence Demo.host "a" (Demo.world [t]) = r)
    by reflexivity.
  vm_compute in r. subst r.
  eexists _, _, _. split; [exact E|].
  apply (proj1 (C6_next_task_exactly_when Demo.host "a" (Demo.world [t]) t _ _ _
                  eq_refl E)).
  split; [reflexivity|]. split; [reflexivity|]. split; [|reflexivity].
  eexists. split; [reflexivity|]. right. left. reflexivity.
Defined.

(** A recurring subtask that is completed gets no next occurrence. *)
Example subtask_recurrence_is_suppressed :
  let t := Demo.mkTask "a" "low" "active" (Some "2024-01-31")
             (Some {| frequency := "weekly"; interval := None |}) (Some "p") None in
  exists u w',
    toggleTaskStatusWithRecurrence Demo.host "a" (Demo.world [t]) = (Ok (u, None), w').
Proof. intros t. eexists _, _. vm_compute. reflexivity. Qed.

(* ================================================================== *)
(** ** Quota recovery *)

Section QuotaFacts.
Variable host : Host.

(** A completed task with a readable completion time survives strategy
    1 exactly when it was completed after the instant thirty days
    before now. *)
Lemma keepRecent_completed limit task c tc :
  status task = "completed"%string ->
  completedAt task = Some c -> JSString.truthy c = true ->
  Date_parse host c = Some tc ->
  keepRecent host (Some limit) task = (limit <? tc).
Proof.
  intros Hs Hc Ht Hp. unfold keepRecent. rewrite Hs, Hc. cbn. now rewrite Ht, Hp.
Qed.

(** Tasks that are not completed are never removed by strategy 1. *)
Lemma keepRecent_other limit task :
  status task <> "completed"%string -> keepRecent host limit task = true.
Proof.
  intros Hs. unfold keepRecent. apply String.eqb_neq in Hs. now rewrite Hs.
Qed.

Lemma handleQuotaExceeded_with_run save w :
  handleQuotaExceeded_with host save w
  = let ts := tasks (storage w) in
    let w1 := {| storage := storage w; calls := S (calls w); ui := ui w |} in
    let limit := JSDate.TimeClip (clock host (calls w) - 30 * JSDate.msPerDay) in
    let filtered := filter (keepRecent host limit) ts in
    if (List.length filtered <? List.length ts)%nat then
      (save filtered ;;; emit (removedAlert (List.length ts - List.length filtered)))%js w1
    else
      (shouldExport <-
         confirm host
           "Storage is full. Would you like to export your tasks before clearing old data?" ;;
       (if shouldExport then exportTasks host ts else ret tt) ;;;
       save (filter isActive ts) ;;;
       emit (clearedAlert (List.length ts - List.length (filter isActive ts))))%js w1.
Proof.
  unfold handleQuotaExceeded_with at 1.
  cbv beta iota zeta delta [bind getTasks getData ret now host_call].
  cbn [storage calls ui tasks]. rewrite setDate_getDate_sub.
  destruct (_ <? _)%nat; reflexivity.
Qed.
End QuotaFacts.



(** Strategy 2: nothing is old enough, the export is offered and taken,
    and only the active task is kept. *)
Example quota_recovery_keeps_active_only :
  let recent := Demo.mkTask "new" "low" "completed" None None None
                  (Some "2024-05-30T09:00:00.000Z") in
  let w := Demo.world [recent; Demo.tLow] in
  let data := {| tasks := [recent; Demo.tLow; Demo.tHigh]; lastUpdated := None |} in
  let w' := snd (saveData (Demo.smallHost 2) data w) in
  tasks (storage w') = [Demo.tLow]
  /\ ui w' = [exportOffer true;
              Download "tasks-export-2024-06-01.json" [recent; Demo.tLow];
              clearedAlert 1].
Proof. vm_compute. split; reflexivity. Qed.

(** A recovery whose own write is refused recurs until the call stack is
    exhausted. *)
Example quota_recovery_can_exhaust_the_stack :
  fst (saveTasks (Demo.smallHost 0) [Demo.tHigh] (Demo.world [Demo.tLow]))
  = Throw (RangeError "Maximum call stack size exceeded").
Proof. vm_compute. reflexivity. Qed.


(* ================================================================== *)
(** * Further properties of the code *)

(** ** Utilities *)

Lemma has_append c a b : JSText.has c (a ++ b)%string = JSText.has c a || JSText.has c b.
Proof.
  induction a as [|x a IH]; simpl; [reflexivity|].
  now rewrite IH, orb_assoc.
Qed.

(** A replacement whose text is free of a character removes it. *)
Lemma replaceAll_removes c rep s :
  JSText.has c rep = false -> JSText.has c (JSText.replaceAll c rep s) = false.
Proof.
  intros Hrep. induction s as [|a s IH]; simpl; [reflexivity|].
  rewrite has_append, IH, orb_false_r.
  destruct (Ascii.eqb a c) eqn:E; [assumption|].
  simpl. now rewrite E.
Qed.

(** A replacement whose text is free of a character does not bring it in. *)
Lemma replaceAll_keeps_out d c rep s :
  JSText.has d rep = false -> JSText.has d s = false ->
  JSText.has d (JSText.replaceAll c rep s) = false.
Proof.
  intros Hrep. induction s as [|a s IH]; simpl; [reflexivity|].
  intros H. apply orb_false_iff in H. destruct H as [Ha Hs].
  rewrite has_append, (IH Hs), orb_false_r.
  destruct (Ascii.eqb a c); [assumption|].
  simpl. now rewrite Ha.
Qed.

(** X1: [escapeHtml] never returns a string with [<], [>], a double quote or
    a single quote in it. *)
Theorem escapeHtml_has_no_markup s :
  JSText.has "<" (escapeHtml s) = false
  /\ JSText.has ">" (escapeHtml s) = false
  /\ JSText.has doubleQuote (escapeHtml s) = false
  /\ JSText.has "'" (escapeHtml s) = false.
Proof.
  unfold escapeHtml. repeat split.
  - do 3 (apply replaceAll_keeps_out; [reflexivity|]).
    now apply replaceAll_removes.
  - do 2 (apply replaceAll_keeps_out; [reflexivity|]).
    now apply replaceAll_removes.
  - apply replaceAll_keeps_out; [reflexivity|].
    now apply replaceAll_removes.
  - now apply replaceAll_removes.
Qed.

Lemma trimStart_length s : (String.length (JSString.trimStart s) <= String.length s)%nat.
Proof.
  induction s as [|c s IH]; simpl; [lia|].
  destruct (JSString.is_ws c); simpl; lia.
Qed.

Lemma trimEnd_length s : (String.length (JSString.trimEnd s) <= String.length s)%nat.
Proof.
  induction s as [|c s IH]; simpl; [lia|].
  destruct (JSString.trimEnd s); [destruct (JSString.is_ws c)|]; simpl in *; lia.
Qed.

Lemma trim_length s : (String.length (JSString.trim s) <= String.length s)%nat.
Proof.
  unfold JSString.trim.
  pose proof (trimEnd_length (JSString.trimStart s)).
  pose proof (trimStart_length s). lia.
Qed.

Lemma substring_length_le n m s : (String.length (substring n m s) <= m)%nat.
Proof.
  revert n m. induction s as [|c s IH]; intros n m.
  - destruct n, m; simpl; lia.
  - destruct n as [|n].
    + destruct m as [|m]; simpl; [lia|]. specialize (IH 0%nat m). lia.
    + simpl. apply IH.
Qed.

(** X2: [truncate] returns at most [maxLength] characters, and truncating
    again changes nothing. *)
Theorem truncate_bounds_and_is_idempotent s n :
  (String.length (truncate s n) <= n)%nat
  /\ truncate (truncate s n) n = truncate s n.
Proof.
  assert (H : (String.length (truncate s n) <= n)%nat).
  { unfold truncate.
    destruct (negb (JSString.truthy s) || (String.length s <=? n)%nat) eqn:E.
    - apply orb_true_iff in E. destruct E as [E|E].
      + destruct s; [simpl; lia | discriminate].
      + now apply Nat.leb_le.
    - pose proof (trim_length (substring 0 n s)).
      pose proof (substring_length_le 0 n s). lia. }
  split; [assumption|].
  unfold truncate at 1. apply Nat.leb_le in H. rewrite H.
  now rewrite orb_true_r.
Qed.

(* ================================================================== *)
(** ** Sorting *)

Section ArraySortFacts.
Context {A : Type} (cmp : A -> A -> option Z).

Lemma insert_by_perm x l : Permutation (insert_by cmp x l) (x :: l).
Proof.
  induction l as [|y l IH]; simpl; [apply Permutation_refl|].
  destruct (notAfter (cmp x y)); [apply Permutation_refl|].
  apply perm_trans with (y :: x :: l); [now apply perm_skip | apply perm_swap].
Qed.

(** Whatever the comparator answers, sorting rearranges: no element is
    lost, none is duplicated. *)
Lemma array_sort_perm l : Permutation (array_sort cmp l) l.
Proof.
  unfold array_sort. induction l as [|x l IH]; simpl; [constructor|].
  apply perm_trans with (x :: fold_right (insert_by cmp) [] l).
  - apply insert_by_perm.
  - now apply perm_skip.
Qed.

(** An element that does not exceed anything in [after] is inserted into
    the part in front of it. *)
Lemma insert_by_front x before after :
  Forall (fun y => notAfter (cmp x y) = true) after ->
  insert_by cmp x (before ++ after) = insert_by cmp x before ++ after.
Proof.
  intros Ha. induction before as [|y before IH]; simpl.
  - destruct Ha as [|y after Hy _]; simpl; [reflexivity | now rewrite Hy].
  - destruct (notAfter (cmp x y)); [reflexivity | now rewrite IH].
Qed.
End ArraySortFacts.

(** X3: [sortTasks] returns the tasks it was given, each exactly once, for
    every sort field and order (also unknown ones, and when dates do not
    parse). *)
Theorem sortTasks_is_a_permutation host ts sortBy sortOrder :
  Permutation (sortTasks host ts sortBy sortOrder) ts.
Proof. apply array_sort_perm. Qed.

Lemma compare_dueDate_undated_dated host o a b :
  undated a = true -> dated b = true ->
  compareTasks host "dueDate" o a b = Some 1.
Proof.
  unfold undated, dated, compareTasks. cbn [String.eqb Ascii.eqb Bool.eqb].
  intros Ha Hb. apply negb_true_iff in Ha. now rewrite Ha, Hb.
Qed.

Lemma compare_dueDate_undated_undated host o a b :
  undated a = true -> undated b = true ->
  compareTasks host "dueDate" o a b = Some 0.
Proof.
  unfold undated, compareTasks. cbn [String.eqb Ascii.eqb Bool.eqb].
  intros Ha Hb. apply negb_true_iff in Ha, Hb. now rewrite Ha, Hb.
Qed.

Lemma compare_dueDate_dated_undated host o a b :
  dated a = true -> undated b = true ->
  compareTasks host "dueDate" o a b = Some (-1).
Proof.
  unfold undated, dated, compareTasks. cbn [String.eqb Ascii.eqb Bool.eqb].
  intros Ha Hb. apply negb_true_iff in Hb. now rewrite Ha, Hb.
Qed.

Section SortedFacts.
Context {A : Type} (cmp : A -> A -> option Z) (R : A -> A -> Prop) (P : A -> Prop).
Hypothesis R_trans : forall x y z, R x y -> R y z -> R x z.
Hypothesis cmp_R :
  forall x y, P x -> P y -> if notAfter (cmp x y) then R x y else R y x.

Lemma insert_by_sorted x l :
  P x -> Forall P l -> StronglySorted R l -> StronglySorted R (insert_by cmp x l).
Proof.
  intros Hx Hl Hs. induction l as [|y l IH]; cbn [insert_by].
  - constructor; constructor.
  - apply Forall_cons_iff in Hl. destruct Hl as [Hy Hl].
    apply StronglySorted_inv in Hs. destruct Hs as [Hs Hyl].
    pose proof (cmp_R x y Hx Hy) as Hc.
    destruct (notAfter (cmp x y)).
    + constructor; [constructor; assumption|].
      constructor; [assumption|].
      eapply Forall_impl; [|exact Hyl]. intros z Hz. now apply R_trans with y.
    + constructor; [now apply IH|].
      apply (Permutation_Forall (Permutation_sym (insert_by_perm cmp x l))).
      now constructor.
Qed.

Lemma array_sort_sorted l : Forall P l -> StronglySorted R (array_sort cmp l).
Proof.
  unfold array_sort. induction 1 as [|x l Hx Hl IH]; cbn [fold_right]; [constructor|].
  apply insert_by_sorted; [assumption| |assumption].
  apply (Permutation_Forall (Permutation_sym (array_sort_perm cmp l))). assumption.
Qed.
End SortedFacts.

Lemma dueInOrder_trans host o x y z :
  dueInOrder host o x y -> dueInOrder host o y z -> dueInOrder host o x z.
Proof.
  unfold dueInOrder.
  destruct (dueOn host x), (dueOn host y), (dueOn host z); try contradiction.
  destruct (o =? "asc")%string; lia.
Qed.

Lemma compare_dueDate_parsed host o x y tx ty :
  dated x = true -> dated y = true ->
  dueOn host x = Some tx -> dueOn host y = Some ty ->
  if notAfter (compareTasks host "dueDate" o x y)
  then dueInOrder host o x y else dueInOrder host o y x.
Proof.
  intros Hx Hy Ex Ey. unfold compareTasks, dueInOrder.
  cbn [String.eqb Ascii.eqb Bool.eqb]. unfold dated in Hx, Hy. rewrite Hx, Hy.
  unfold dueOn, parseDate in *. rewrite Ex, Ey.
  unfold ordered, JSDate.sub, num_neg, option_map, notAfter.
  destruct (o =? "asc")%string.
  - destruct (tx - ty <=? 0) eqn:E; [apply Z.leb_le in E | apply Z.leb_gt in E]; lia.
  - destruct (- (tx - ty) <=? 0) eqn:E; [apply Z.leb_le in E | apply Z.leb_gt in E]; lia.
Qed.

(** X4: When every due date that is set parses, sorting by due date, in
    either order, sorts the tasks that have a due date and puts the tasks
    without one behind them, in input order: the result is the sorted
    list of the dated tasks, which is in order of due date (ascending for
    ["asc"], descending otherwise), followed by the undated tasks. *)
Theorem sortTasks_dueDate_undated_last host ts sortOrder :
  dueDatesParse host ts ->
  sortTasks host ts "dueDate" sortOrder
  = sortTasks host (filter dated ts) "dueDate" sortOrder ++ filter undated ts
  /\ StronglySorted (dueInOrder host sortOrder)
       (sortTasks host (filter dated ts) "dueDate" sortOrder).
Proof.
  intros Hparse. split.
  - clear Hparse. unfold sortTasks, array_sort.
    induction ts as [|x ts IH]; [reflexivity|].
    cbn [fold_right filter]. rewrite IH.
    destruct (dated x) eqn:Ex.
    + assert (Hu : undated x = false)
        by (unfold undated; unfold dated in Ex; now rewrite Ex).
      rewrite Hu. cbn [fold_right].
      apply insert_by_front.
      apply Forall_filter. intros y _ Hy.
      now rewrite (compare_dueDate_dated_undated host sortOrder x y Ex Hy).
    + assert (Hu : undated x = true)
        by (unfold undated; unfold dated in Ex; now rewrite Ex).
      rewrite Hu.
      apply insert_by_split.
      * apply Forall_forall. intros y Hy.
        assert (Hd : dated y = true).
        { apply (Permutation_in y (array_sort_perm _ _)) in Hy.
          apply filter_In in Hy. apply Hy. }
        now rewrite (compare_dueDate_undated_dated host sortOrder x y Hu Hd).
      * apply Forall_filter. intros y _ Hy.
        now rewrite (compare_dueDate_undated_undated host sortOrder x y Hu Hy).
  - unfold sortTasks.
    apply array_sort_sorted
      with (P := fun t => dated t = true /\ exists z, dueOn host t = Some z).
    + apply dueInOrder_trans.
    + intros x y [Hx [tx Ex]] [Hy [ty Ey]].
      now apply compare_dueDate_parsed with tx ty.
    + apply Forall_forall. intros x Hx. apply filter_In in Hx. destruct Hx as [Hin Hd].
      split; [assumption|].
      unfold dueDatesParse in Hparse. rewrite Forall_forall in Hparse.
      specialize (Hparse x Hin). unfold dated in Hd. unfold dueOn.
      destruct (dueDate x) as [d|]; [|discriminate]. cbn [JSString.truthy_opt] in Hd.
      specialize (Hparse d eq_refl Hd).
      destruct (Date_parse host d) as [z|]; [eauto | congruence].
Qed.

Lemma sortTasks_dueDate_undated_last_witness :
  let a := Demo.mkTask "a" "low" "active" (Some "2024-06-09") None None None in
  let b := Demo.mkTask "b" "low" "active" None None None None in
  let c := Demo.mkTask "c" "low" "active" (Some "2024-06-03") None None None in
  sortTasks Demo.host [a; b; c] "dueDate" "asc" = [c; a] ++ [b].
Proof.
  intros a b c.
  refine (proj1 (sortTasks_dueDate_undated_last Demo.host [a; b; c] "asc" _)).
  repeat (apply Forall_cons || apply Forall_nil);
    intros d Hd _; try discriminate Hd; injection Hd as <-; vm_compute; discriminate.
Defined.

(* ================================================================== *)
(** ** Filtering *)

Lemma filter_and {A} (p q : A -> bool) l :
  filter q (filter p l) = filter (fun x => p x && q x) l.
Proof.
  induction l as [|x l IH]; simpl; [reflexivity|].
  destruct (p x); simpl; [destruct (q x); now rewrite IH | assumption].
Qed.

Lemma filter_true {A} (l : list A) : filter (fun _ => true) l = l.
Proof. induction l as [|x l IH]; simpl; [reflexivity | now rewrite IH]. Qed.

Section FilterFacts.
Variable host : Host.

Lemma step_filter {A} (o : option A) (test : A -> Task -> bool) l :
  match o with Some a => filter (test a) l | None => l end
  = filter (fun task => match o with Some a => test a task | None => true end) l.
Proof. destruct o; [reflexivity | now rewrite filter_true]. Qed.

(** [filterTasks] keeps, in their order, the tasks that pass every
    criterion. *)
Lemma filterTasks_filter t ts f :
  filterTasks host t ts f = filter (passes host t f) ts.
Proof.
  unfold filterTasks, passes.
  rewrite (step_filter (selected (f_status f)) hasStatus).
  rewrite (step_filter (selected (f_priority f)) hasPriorityOf), filter_and.
  assert (H3 : forall l,
             match f_search f with
             | Some q =>
                 if JSString.truthy q && (0 <? String.length (JSString.trim q))%nat
                 then filter (matchesQuery (JSString.trim (JSText.toLowerCase q))) l
                 else l
             | None => l
             end = filter (passesSearch f) l).
  { intros l. unfold passesSearch. destruct (f_search f) as [q|];
      [destruct (_ && _)|]; try reflexivity; now rewrite filter_true. }
  assert (H4 : forall l,
             match f_dateFrom f with
             | Some d => if JSString.truthy d then filter (dueFrom host d) l else l
             | None => l
             end = filter (passesDateFrom host f) l).
  { intros l. unfold passesDateFrom. destruct (f_dateFrom f) as [d|];
      [destruct (JSString.truthy d)|]; try reflexivity; now rewrite filter_true. }
  assert (H5 : forall l,
             match f_dateTo f with
             | Some d => if JSString.truthy d then filter (dueTo host d) l else l
             | None => l
             end = filter (passesDateTo host f) l).
  { intros l. unfold passesDateTo. destruct (f_dateTo f) as [d|];
      [destruct (JSString.truthy d)|]; try reflexivity; now rewrite filter_true. }
  assert (H6 : forall l,
             (if f_showOverdueOnly f
              then filter (overdueAt host (JSDate.setHours0 (LocalTZA host) (Some t))) l
              else l) = filter (passesOverdue host t f) l).
  { intros l. unfold passesOverdue. destruct (f_showOverdueOnly f);
      [reflexivity | now rewrite filter_true]. }
  rewrite H3, H4, H5, H6, !filter_and.
  apply filter_ext. intros x. unfold passesStatus, passesPriority.
  now rewrite !andb_assoc.
Qed.
End FilterFacts.

(** X5: Several criteria at once give the intersection of the single
    criteria: a task is returned by [filterTasks] exactly when each of
    the six one-criterion filters returns it; and without any criterion
    every task is returned. *)
Theorem filterTasks_is_the_intersection host t ts f task :
  filterTasks host t ts noFilters = ts
  /\ (In task (filterTasks host t ts f)
      <-> In task (filterTasks host t ts (onlyStatus f))
          /\ In task (filterTasks host t ts (onlyPriority f))
          /\ In task (filterTasks host t ts (onlySearch f))
          /\ In task (filterTasks host t ts (onlyDateFrom f))
          /\ In task (filterTasks host t ts (onlyDateTo f))
          /\ In task (filterTasks host t ts (onlyOverdue f))).
Proof.
  split; [reflexivity|].
  rewrite !filterTasks_filter, !filter_In.
  unfold passes, passesStatus, passesPriority, passesSearch, passesDateFrom,
    passesDateTo, passesOverdue, onlyStatus, onlyPriority, onlySearch,
    onlyDateFrom, onlyDateTo, onlyOverdue.
  cbn [f_status f_priority f_search f_dateFrom f_dateTo f_showOverdueOnly selected].
  rewrite ?andb_true_r, ?andb_true_l, !andb_true_iff. tauto.
Qed.

(** X6: Filtering is idempotent: filtering the result again by the same
    criteria (at the same time) returns it unchanged. *)
Theorem filterTasks_is_idempotent host t ts f :
  filterTasks host t (filterTasks host t ts f) f = filterTasks host t ts f.
Proof.
  rewrite !filterTasks_filter, filter_and.
  apply filter_ext. intros x. now rewrite andb_diag.
Qed.

(* ================================================================== *)
(** ** Statistics *)

Section CountFacts.
Variable host : Host.
Variables today weekFromNow threeDaysFromNow : JSDate.Date.

Lemma statCompleted_not_active task :
  negb (status task =? "active")%string && (status task =? "completed")%string
  = statCompleted task.
Proof.
  unfold statCompleted.
  destruct (status task =? "completed")%string eqn:E; [|now rewrite andb_false_r].
  apply String.eqb_eq in E. now rewrite E.
Qed.

(** Every counter of [calculateStatistics] is the number of tasks that
    pass the test of its branch. *)
Lemma fold_count_task l s :
  let r := fold_left (count_task host today weekFromNow threeDaysFromNow) l s in
  total r = total s
  /\ active r = (active s + countIf statActive l)%nat
  /\ completed r = (completed s + countIf statCompleted l)%nat
  /\ overdue r = (overdue s + countIf (statOverdue host today) l)%nat
  /\ dueThisWeek r = (dueThisWeek s + countIf (statInWeek host today weekFromNow) l)%nat
  /\ noDueDate r = (noDueDate s + countIf statNoDue l)%nat
  /\ byPriority r = fold_left count_priority l (byPriority s)
  /\ byStatus r = fold_left count_status l (byStatus s).
Proof.
  revert s. induction l as [|x l IH]; intros s.
  - unfold countIf. simpl. repeat split; lia.
  - cbn [fold_left]. specialize (IH (count_task host today weekFromNow threeDaysFromNow s x)).
    cbv zeta in IH. destruct IH as (H1 & H2 & H3 & H4 & H5 & H6 & H7 & H8).
    cbv zeta. rewrite H1, H2, H3, H4, H5, H6, H7, H8.
    unfold count_task. cbn [total active completed overdue dueThisWeek noDueDate
                              byPriority byStatus].
    fold (dueOf host x). rewrite statCompleted_not_active, !bump_add.
    unfold countIf. cbn [filter].
    unfold statOverdue, statInWeek, statNoDue, statActive.
    repeat split.
    + destruct (status x =? "active")%string; cbn [List.length]; lia.
    + destruct (statCompleted x); cbn [List.length]; lia.
    + destruct (_ && _ && JSDate.lt _ _); cbn [List.length]; lia.
    + destruct (_ && _ && JSDate.ge _ _ && _); cbn [List.length]; lia.
    + destruct (_ && negb _); cbn [List.length]; lia.
    + unfold count_priority. now rewrite !bump_add.
    + unfold count_status. now rewrite !bump_add.
Qed.

Lemma countIf_cons {A} (p : A -> bool) x l :
  countIf p (x :: l) = ((if p x then 1 else 0) + countIf p l)%nat.
Proof. unfold countIf. simpl. destruct (p x); reflexivity. Qed.

Lemma countIf_le_length {A} (p : A -> bool) l : (countIf p l <= List.length l)%nat.
Proof. unfold countIf. apply filter_length_le. Qed.

(** No task is counted as active and as completed. *)
Lemma active_completed_le_length l :
  (countIf statActive l + countIf statCompleted l <= List.length l)%nat.
Proof.
  induction l as [|x l IH]; [unfold countIf; simpl; lia|].
  rewrite !countIf_cons. cbn [List.length].
  destruct (statActive x) eqn:E, (statCompleted x) eqn:E2; try lia.
  unfold statActive, statCompleted in E, E2.
  apply String.eqb_eq in E, E2. congruence.
Qed.

Lemma due_bucket_of_one x :
  ((if statNoDue x then 1 else 0) + (if statOverdue host today x then 1 else 0)
   + (if statInWeek host today weekFromNow x then 1 else 0)
   <= (if statActive x then 1 else 0))%nat.
Proof.
  unfold statNoDue, statOverdue, statInWeek.
  destruct (statActive x); cbn [andb]; [|lia].
  destruct (JSString.truthy_opt (dueDate x)); cbn [andb negb]; [|lia].
  unfold JSDate.lt, JSDate.ge, JSDate.le.
  destruct (dueOf host x) as [d|], today as [t0|]; cbn [andb]; try lia.
  destruct (d <? t0) eqn:E1, (t0 <=? d) eqn:E2; cbn [andb]; try lia;
    try (apply Z.ltb_lt in E1; apply Z.leb_le in E2; lia);
    destruct weekFromNow; [destruct (d <=? _)|]; lia.
Qed.

(** An active task is without due date, or overdue, or due this week, or
    none of these, never two of them. *)
Lemma due_buckets_le_active l :
  (countIf statNoDue l + countIf (statOverdue host today) l
   + countIf (statInWeek host today weekFromNow) l <= countIf statActive l)%nat.
Proof.
  induction l as [|x l IH]; [unfold countIf; simpl; lia|].
  rewrite !countIf_cons. pose proof (due_bucket_of_one x). lia.
Qed.
End CountFacts.

Lemma fold_count_priority_le l d :
  let r := fold_left count_priority l d in
  (high r + medium r + low r <= high d + medium d + low d + List.length l)%nat.
Proof.
  revert d. induction l as [|x l IH]; intros d; [simpl; lia|].
  cbn [fold_left List.length]. specialize (IH (count_priority d x)).
  cbv zeta in *.
  assert (H : (high (count_priority d x) + medium (count_priority d x)
               + low (count_priority d x) <= high d + medium d + low d + 1)%nat).
  { unfold count_priority. cbn [high medium low]. rewrite !bump_add.
    destruct (priority x =? "high")%string eqn:Eh.
    - apply String.eqb_eq in Eh. rewrite Eh.
      cbn [String.eqb Ascii.eqb Bool.eqb]. lia.
    - destruct (priority x =? "medium")%string eqn:Em.
      + apply String.eqb_eq in Em. rewrite Em.
        cbn [String.eqb Ascii.eqb Bool.eqb]. lia.
      + destruct (priority x =? "low")%string; lia. }
  lia.
Qed.

(** X7: The counters of [calculateStatistics] never count a task twice
    across a partition: active and completed tasks together do not exceed
    the total, nor do the three priority counters; and among the active
    tasks those without due date, the overdue ones and those due this
    week are disjoint. *)
Theorem calculateStatistics_counts_partition host t ts :
  let s := calculateStatistics host t ts in
  total s = List.length ts
  /\ (active s + completed s <= total s)%nat
  /\ (high (byPriority s) + medium (byPriority s) + low (byPriority s) <= total s)%nat
  /\ (noDueDate s + overdue s + dueThisWeek s <= active s)%nat.
Proof.
  unfold calculateStatistics. cbv zeta.
  destruct (fold_count_task host (startOfToday host t) (daysFrom host (startOfToday host t) 7)
              (daysFrom host (startOfToday host t) 3) ts (emptyStats (List.length ts)))
    as (H1 & H2 & H3 & H4 & H5 & H6 & H7 & _).
  cbv zeta in *. rewrite H1, H2, H3, H4, H5, H6, H7. cbn [emptyStats total active completed
    overdue dueThisWeek noDueDate byPriority].
  split; [reflexivity|]. split; [|split].
  - apply active_completed_le_length.
  - pose proof (fold_count_priority_le ts {| high := 0; medium := 0; low := 0 |}) as H.
    cbv zeta in H. cbn [high medium low] in H. lia.
  - pose proof (due_buckets_le_active host (startOfToday host t)
                  (daysFrom host (startOfToday host t) 7) ts). lia.
Qed.

(** X8: The two distribution functions agree with [calculateStatistics]:
    [getPriorityDistribution] is its [byPriority], [getStatusDistribution]
    its [byStatus], whose two counters are [active] and [completed]. *)
Theorem distributions_agree_with_calculateStatistics host t ts :
  let s := calculateStatistics host t ts in
  getPriorityDistribution ts = byPriority s
  /\ getStatusDistribution ts = byStatus s
  /\ bs_active (getStatusDistribution ts) = active s
  /\ bs_completed (getStatusDistribution ts) = completed s.
Proof.
  unfold calculateStatistics. cbv zeta.
  destruct (fold_count_task host (startOfToday host t) (daysFrom host (startOfToday host t) 7)
              (daysFrom host (startOfToday host t) 3) ts (emptyStats (List.length ts)))
    as (_ & H2 & H3 & _ & _ & _ & H7 & H8).
  cbv zeta in *. rewrite H2, H3, H7, H8. cbn [emptyStats byPriority byStatus active completed].
  split; [reflexivity|]. split; [reflexivity|].
  unfold getStatusDistribution.
  assert (H : forall l d,
             bs_active (fold_left count_status l d) = (bs_active d + countIf statActive l)%nat
             /\ bs_completed (fold_left count_status l d)
                = (bs_completed d + countIf statCompleted l)%nat).
  { induction l as [|x l IH]; intros d; [unfold countIf; simpl; lia|].
    cbn [fold_left]. destruct (IH (count_status d x)) as [Ha Hc]. rewrite Ha, Hc.
    rewrite !countIf_cons. unfold count_status. cbn [bs_active bs_completed].
    rewrite !bump_add. unfold statActive, statCompleted.
    destruct (status x =? "active")%string, (status x =? "completed")%string; lia. }
  destruct (H ts {| bs_active := 0; bs_completed := 0 |}) as [Ha Hc].
  now rewrite Ha, Hc.
Qed.

(* ================================================================== *)
(** ** Due dates across the modules *)

(** The start of a day is at most one day before any instant of it and
    is a local midnight. *)
Lemma setHours0_Some tz x s :
  JSDate.setHours0 tz (Some x) = Some s ->
  s <= x < s + JSDate.msPerDay /\ (s + tz) mod JSDate.msPerDay = 0.
Proof.
  unfold JSDate.setHours0. intros H. apply TimeClip_inv in H. destruct H as [-> _].
  unfold JSDate.UTC, JSDate.MakeDate, JSDate.MakeTime, JSDate.Day, JSDate.LocalTime,
    JSDate.msPerDay.
  split.
  - Z.to_euclidean_division_equations. lia.
  - replace ((x + tz) / 86400000 * 86400000 + (0 * 3600000 + 0 * 60000 + 0 * 1000 + 0)
             - tz + tz) with ((x + tz) / 86400000 * 86400000) by lia.
    apply Z.mod_mul. lia.
Qed.

(** Before a local midnight means on an earlier day. *)
Lemma before_midnight tz x s t0 :
  JSDate.setHours0 tz (Some x) = Some s ->
  (t0 + tz) mod JSDate.msPerDay = 0 ->
  (s <? t0) = (x <? t0).
Proof.
  intros Hs Ht. apply setHours0_Some in Hs. destruct Hs as [Hx Hm].
  unfold JSDate.msPerDay in *.
  destruct (x <? t0) eqn:E.
  - apply Z.ltb_lt in E. apply Z.ltb_lt. lia.
  - apply Z.ltb_ge in E. apply Z.ltb_ge.
    Z.to_euclidean_division_equations. lia.
Qed.

Section DueFacts.
Variable host : Host.

Lemma fold_count_overdue today w1 w2 l s :
  let r := fold_left (count_overdue host today w1 w2) l s in
  os_total r = (os_total s + countIf (statOverdue host today) l)%nat
  /\ (lessThanWeek (overdueByDays r) + oneToTwoWeeks (overdueByDays r)
      + moreThanTwoWeeks (overdueByDays r)
      = lessThanWeek (overdueByDays s) + oneToTwoWeeks (overdueByDays s)
        + moreThanTwoWeeks (overdueByDays s) + countIf (statOverdue host today) l)%nat.
Proof.
  revert s. induction l as [|x l IH]; intros s; [unfold countIf; simpl; lia|].
  cbn [fold_left]. destruct (IH (count_overdue host today w1 w2 s x)) as [H1 H2].
  cbv zeta. rewrite H1, H2, !countIf_cons.
  unfold count_overdue, statOverdue, statActive. fold (dueOf host x).
  destruct ((status x =? "active")%string && JSString.truthy_opt (dueDate x));
    cbn [andb]; [|lia].
  destruct (JSDate.lt (dueOf host x) today); [|lia].
  cbn [os_total overdueByDays].
  destruct (JSDate.ge (dueOf host x) w1); [|destruct (JSDate.ge (dueOf host x) w2)];
    cbn [lessThanWeek oneToTwoWeeks moreThanTwoWeeks]; lia.
Qed.

Lemma fold_place_today today tomorrow nextWeek l s :
  up_today (fold_left (place_upcoming host today tomorrow nextWeek) l s)
  = up_today s ++ filter (isDueToday host today) l.
Proof.
  revert s. induction l as [|x l IH]; intros s; [simpl; now rewrite app_nil_r|].
  cbn [fold_left filter]. rewrite IH. unfold place_upcoming, isDueToday.
  fold (dueOf host x).
  destruct ((status x =? "active")%string && JSString.truthy_opt (dueDate x));
    cbn [andb]; [|reflexivity].
  destruct (JSDate.same (dueOf host x) today); cbn [up_today];
    [now rewrite <- app_assoc|].
  destruct (JSDate.same (dueOf host x) tomorrow); [reflexivity|].
  destruct (JSDate.gt _ _ && _); [reflexivity|].
  destruct (JSDate.gt _ _); reflexivity.
Qed.

Lemma getTasksDueToday_filter t ts :
  getTasksDueToday host t ts = filter (isDueToday host (startOfToday host t)) ts.
Proof.
  unfold getTasksDueToday. apply filter_ext. intros x.
  unfold isDueToday, dueOf, dueOn, dueDay, startOfToday.
  destruct (dueDate x); reflexivity.
Qed.
End DueFacts.

(** X9: The tasks due today are the same everywhere: [calculateStatistics]
    counts in [dueToday] the tasks [getTasksDueToday] returns, and the
    [today] list of [getUpcomingSummary] is that list. *)
Theorem due_today_agrees host t ts :
  dueToday (calculateStatistics host t ts) = List.length (getTasksDueToday host t ts)
  /\ up_today (getUpcomingSummary host t ts) = getTasksDueToday host t ts.
Proof.
  rewrite getTasksDueToday_filter. split.
  - unfold calculateStatistics. now rewrite fold_dueToday.
  - unfold getUpcomingSummary. now rewrite fold_place_today.
Qed.

(** X10: [getOverdueStats] counts the overdue tasks as [calculateStatistics]
    does, and its three age buckets add up to that count. *)
Theorem overdue_stats_add_up host t ts :
  let o := getOverdueStats host t ts in
  os_total o = overdue (calculateStatistics host t ts)
  /\ (lessThanWeek (overdueByDays o) + oneToTwoWeeks (overdueByDays o)
      + moreThanTwoWeeks (overdueByDays o) = os_total o)%nat.
Proof.
  unfold getOverdueStats. cbv zeta.
  match goal with
  | |- context [fold_left (count_overdue host ?a ?b ?c) ts ?s0] =>
      destruct (fold_count_overdue host a b c ts s0) as [H1 H2]
  end.
  cbv zeta in *. rewrite H1, H2. cbn [os_total overdueByDays lessThanWeek oneToTwoWeeks
                                        moreThanTwoWeeks].
  split; [|lia].
  unfold calculateStatistics.
  destruct (fold_count_task host (startOfToday host t) (daysFrom host (startOfToday host t) 7)
              (daysFrom host (startOfToday host t) 3) ts (emptyStats (List.length ts)))
    as (_ & _ & _ & H4 & _).
  cbv zeta in H4. now rewrite H4.
Qed.

Lemma overdueAt_statOverdue host t x :
  (forall d y, dueDate x = Some d -> Date_parse host d = Some y ->
               JSDate.setHours0 (LocalTZA host) (Some y) <> None) ->
  overdueAt host (JSDate.setHours0 (LocalTZA host) (Some t)) x
  = statOverdue host (startOfToday host t) x.
Proof.
  intros Hvalid.
  unfold statOverdue, overdueAt, statActive, dueOf, dueOn, dueDay, startOfToday.
  destruct (status x =? "active")%string; cbn [andb]; [|reflexivity].
  destruct (dueDate x) as [d|] eqn:Ed; cbn [JSString.truthy_opt]; [|reflexivity].
  destruct (JSString.truthy d); cbn [andb]; [|reflexivity].
  destruct (Date_parse host d) as [y|] eqn:Ey; [|reflexivity].
  specialize (Hvalid d y eq_refl Ey).
  destruct (JSDate.setHours0 (LocalTZA host) (Some y)) as [s|] eqn:Es; [|congruence].
  destruct (JSDate.setHours0 (LocalTZA host) (Some t)) as [t0|] eqn:Et; [|reflexivity].
  unfold JSDate.lt. apply setHours0_Some in Et. destruct Et as [_ Hm].
  symmetry. now apply before_midnight with (tz := LocalTZA host).
Qed.

Lemma statOverdue_isOverdue host t x :
  statOverdue host (startOfToday host t) x = isActive x && isOverdue host t (dueDate x).
Proof.
  unfold statOverdue, statActive, isActive, isOverdue, dueOf, dueDay, startOfToday.
  destruct (status x =? "active")%string; cbn [andb]; [|reflexivity].
  destruct (dueDate x) as [d|]; reflexivity.
Qed.

(** X11: The three tests for "overdue" agree.  [calculateStatistics] counts as
    overdue the active tasks for which [isOverdue] holds of the due date;
    and when the start of the day of every due date is a date in range,
    these are the tasks that [getOverdueTasks] returns (which compares the
    due date itself, not the start of its day). *)
Theorem overdue_count_is_getOverdueTasks host t ts :
  overdue (calculateStatistics host t ts)
  = List.length (filter (fun task => isActive task && isOverdue host t (dueDate task)) ts)
  /\ ((forall task d x,
         In task ts -> dueDate task = Some d -> Date_parse host d = Some x ->
         JSDate.setHours0 (LocalTZA host) (Some x) <> None) ->
      getOverdueTasks host t ts
      = filter (fun task => isActive task && isOverdue host t (dueDate task)) ts).
Proof.
  split.
  - unfold calculateStatistics.
    destruct (fold_count_task host (startOfToday host t)
                (daysFrom host (startOfToday host t) 7)
                (daysFrom host (startOfToday host t) 3) ts (emptyStats (List.length ts)))
      as (_ & _ & _ & H4 & _).
    cbv zeta in H4. rewrite H4. cbn [emptyStats overdue Nat.add].
    unfold countIf. f_equal. apply filter_ext. intros x. apply statOverdue_isOverdue.
  - intros Hvalid. unfold getOverdueTasks. apply filter_ext_in. intros x Hx.
    rewrite overdueAt_statOverdue; [apply statOverdue_isOverdue|].
    intros d y. now apply Hvalid.
Qed.

Lemma overdue_count_is_getOverdueTasks_witness :
  let ts := [Demo.mkTask "a" "low" "active" (Some "2024-05-20") None None None;
             Demo.mkTask "b" "low" "active" (Some "2024-06-03") None None None] in
  getOverdueTasks Demo.host Demo.noon ts
  = filter (fun task => isActive task && isOverdue Demo.host Demo.noon (dueDate task)) ts.
Proof.
  intros ts. apply (proj2 (overdue_count_is_getOverdueTasks Demo.host Demo.noon ts)).
  intros task d x Hin Hd Hp.
  destruct Hin as [<- | [<- | []]]; injection Hd as <-; injection Hp as <-;
    vm_compute; discriminate.
Defined.

(** X12: A task is never returned both as overdue and as due today or due this
    week; and when a week from today is a date in range, the tasks due
    today are among the tasks due this week. *)
Theorem overdue_today_and_week host t ts task :
  (In task (getOverdueTasks host t ts) ->
   ~ In task (getTasksDueToday host t ts) /\ ~ In task (getTasksDueThisWeek host t ts))
  /\ (daysFrom host (startOfToday host t) 7 <> None ->
      In task (getTasksDueToday host t ts) -> In task (getTasksDueThisWeek host t ts)).
Proof.
  unfold getOverdueTasks, getTasksDueToday, getTasksDueThisWeek.
  fold (startOfToday host t). fold (daysFrom host (startOfToday host t) 7).
  rewrite !filter_In. unfold overdueAt.
  destruct (startOfToday host t) as [t0|] eqn:Et.
  2:{ split.
      - intros [_ H]. rewrite !andb_true_iff in H. destruct H as [_ H].
        destruct (dueOn host task); discriminate.
      - intros H. exfalso. apply H. reflexivity. }
  split.
  - intros [Hin H]. rewrite !andb_true_iff in H. destruct H as [[Ha Hd] Hlt].
    rewrite Ha, Hd. cbn [andb].
    destruct (dueOn host task) as [x|] eqn:Ex; [|discriminate].
    unfold JSDate.lt in Hlt. apply Z.ltb_lt in Hlt.
    split; intros [_ H].
    + unfold JSDate.same in H.
      destruct (JSDate.setHours0 (LocalTZA host) (Some x)) as [s|] eqn:Es; [|discriminate].
      apply Z.eqb_eq in H. apply setHours0_Some in Es. lia.
    + rewrite andb_true_iff in H. destruct H as [H _].
      unfold JSDate.ge, JSDate.le in H. apply Z.leb_le in H. lia.
  - intros Hweek [Hin H]. split; [assumption|].
    rewrite !andb_true_iff in H. destruct H as [[Ha Hd] Hsame].
    rewrite Ha, Hd. cbn [andb].
    destruct (dueOn host task) as [x|] eqn:Ex; [|discriminate].
    unfold JSDate.same in Hsame.
    destruct (JSDate.setHours0 (LocalTZA host) (Some x)) as [s|] eqn:Es; [|discriminate].
    apply Z.eqb_eq in Hsame. subst s. apply setHours0_Some in Es.
    rewrite daysFrom_Some in *.
    destruct (JSDate.TimeClip (t0 + 7 * JSDate.msPerDay)) as [w|] eqn:Ew; [|congruence].
    apply TimeClip_inv in Ew. destruct Ew as [-> _].
    unfold JSDate.ge, JSDate.le, JSDate.msPerDay in *.
    apply andb_true_iff. split; apply Z.leb_le; lia.
Qed.

Lemma overdue_today_and_week_witness :
  let ts := [Demo.mkTask "a" "low" "active" (Some "2024-06-01") None None None] in
  In (Demo.mkTask "a" "low" "active" (Some "2024-06-01") None None None)
     (getTasksDueThisWeek Demo.host Demo.noon ts).
Proof.
  intros ts.
  refine (proj2 (overdue_today_and_week Demo.host Demo.noon ts _) _ _).
  - vm_compute. discriminate.
  - vm_compute. left. reflexivity.
Defined.

(* ================================================================== *)
(** ** Reordering *)

Lemma map_set_new k v m :
  ~ In k (map fst m) -> map_set k v m = m ++ [(k, v)].
Proof.
  induction m as [|[k' v'] m IH]; intros H; [reflexivity|].
  cbn [map_set app]. cbn [map fst In] in H.
  destruct (String.eqb_spec k' k) as [E|E]; [tauto|].
  rewrite IH; tauto.
Qed.

Lemma map_set_keys k v m :
  In k (map fst m) -> map fst (map_set k v m) = map fst m.
Proof.
  induction m as [|[k' v'] m IH]; intros H; [destruct H|].
  cbn [map_set]. destruct (String.eqb_spec k' k) as [E|E].
  - subst. reflexivity.
  - cbn [map fst] in *. rewrite IH; [reflexivity|]. destruct H; tauto.
Qed.

Lemma taskMapOf_from pre ts :
  NoDup (map id (pre ++ ts)) ->
  fold_left (fun m task => map_set (id task) task m) ts
    (map (fun t => (id t, t)) pre)
  = map (fun t => (id t, t)) (pre ++ ts).
Proof.
  revert pre. induction ts as [|t ts IH]; intros pre H.
  - now rewrite app_nil_r.
  - cbn [fold_left]. rewrite map_set_new.
    + replace (map (fun t0 => (id t0, t0)) pre ++ [(id t, t)])
        with (map (fun t0 => (id t0, t0)) (pre ++ [t])) by now rewrite map_app.
      rewrite IH; rewrite <- app_assoc; [reflexivity | exact H].
    + rewrite map_map. cbn [fst]. rewrite map_app in H. cbn [map] in H.
      apply NoDup_remove_2 in H. intros Hin. apply H. apply in_or_app. now left.
Qed.

Lemma taskMapOf_NoDup ts :
  NoDup (map id ts) -> taskMapOf ts = map (fun t => (id t, t)) ts.
Proof. intros H. exact (taskMapOf_from [] ts H). Qed.

Lemma map_get_delete_perm i m v :
  map_get i m = Some v -> Permutation (v :: map snd (map_delete i m)) (map snd m).
Proof.
  induction m as [|[k' v'] m IH]; [discriminate|].
  cbn [map_get map_delete]. destruct (k' =? i)%string.
  - intros [= ->]. reflexivity.
  - intros H. cbn [map snd]. rewrite perm_swap. constructor. now apply IH.
Qed.

Lemma take_in_order_perm order : forall m acc,
  Permutation (fst (take_in_order order m acc) ++ map snd (snd (take_in_order order m acc)))
              (acc ++ map snd m).
Proof.
  induction order as [|i order IH]; intros m acc; [reflexivity|].
  cbn [take_in_order]. destruct (map_get i m) as [v|] eqn:E; [|apply IH].
  rewrite IH, <- app_assoc. apply Permutation_app_head.
  cbn [app]. now apply map_get_delete_perm.
Qed.

Lemma reorderTasks_eq ts order :
  reorderTasks ts order
  = fst (take_in_order order (taskMapOf ts) [])
    ++ map snd (snd (take_in_order order (taskMapOf ts) [])).
Proof. unfold reorderTasks. now destruct (take_in_order order (taskMapOf ts) []). Qed.

Lemma take_own_order ts : forall acc,
  take_in_order (map id ts) (map (fun t => (id t, t)) ts) acc = (acc ++ ts, []).
Proof.
  induction ts as [|t ts IH]; intros acc; [cbn; now rewrite app_nil_r|].
  cbn [map take_in_order map_get map_delete]. rewrite String.eqb_refl.
  rewrite IH, <- app_assoc. reflexivity.
Qed.

Lemma map_get_In i m :
  In i (map fst m) -> exists v, map_get i m = Some v /\ In (i, v) m.
Proof.
  induction m as [|[k' v'] m IH]; intros H; [destruct H|].
  cbn [map_get]. destruct (String.eqb_spec k' i) as [E|E].
  - subst. eexists. split; [reflexivity | now left].
  - destruct H as [H|H]; [cbn in H; congruence|].
    destruct (IH H) as (v & Hv & Hin). exists v. split; [assumption | now right].
Qed.

Lemma map_delete_filter i m :
  NoDup (map fst m) ->
  map_delete i m = filter (fun kv => negb (fst kv =? i)%string) m.
Proof.
  induction m as [|[k' v'] m IH]; intros H; [reflexivity|].
  cbn [map_delete filter fst]. cbn [map fst] in H.
  pose proof (NoDup_cons_iff k' (map fst m)) as [Hn _]. specialize (Hn H).
  destruct Hn as [Hnot Hnd].
  destruct (String.eqb_spec k' i) as [E|E]; cbn [negb].
  - subst. symmetry. apply forallb_filter_id. apply forallb_forall.
    intros [k v] Hin. cbn [fst]. destruct (String.eqb_spec k i) as [->|]; [|reflexivity].
    exfalso. apply Hnot. now apply (in_map fst) in Hin.
  - now rewrite IH.
Qed.

Lemma NoDup_map_filter {A B} (f : A -> B) (p : A -> bool) l :
  NoDup (map f l) -> NoDup (map f (filter p l)).
Proof.
  induction l as [|x l IH]; intros H; [constructor|].
  cbn [map] in H. apply NoDup_cons_iff in H. destruct H as [Hn Hd].
  cbn [filter]. destruct (p x); [|now apply IH].
  cbn [map]. constructor; [|now apply IH].
  intros Hin. apply Hn. apply in_map_iff in Hin. destruct Hin as (y & Hy & Hin).
  apply filter_In in Hin. apply in_map_iff. exists y. tauto.
Qed.

Lemma take_in_order_ids order : forall m acc,
  NoDup (map fst m) -> NoDup order -> incl order (map fst m) ->
  Forall (fun kv => id (snd kv) = fst kv) m ->
  map id (fst (take_in_order order m acc)) = map id acc ++ order
  /\ snd (take_in_order order m acc) = filter (fun kv => negb (includes order (fst kv))) m.
Proof.
  induction order as [|i order IH]; intros m acc Hm Ho Hincl Hid.
  - cbn [take_in_order fst snd includes existsb negb]. rewrite app_nil_r.
    split; [reflexivity|]. symmetry. apply forallb_filter_id. now apply forallb_forall.
  - cbn [take_in_order].
    destruct (map_get_In i m) as (v & Hv & Hin); [apply Hincl; now left|].
    rewrite Hv. apply NoDup_cons_iff in Ho. destruct Ho as [Hni Ho].
    rewrite (map_delete_filter i m Hm).
    destruct (IH (filter (fun kv => negb (fst kv =? i)%string) m) (acc ++ [v])) as [H1 H2].
    + now apply NoDup_map_filter.
    + assumption.
    + intros j Hj. assert (Hjm : In j (map fst m)) by (apply Hincl; now right).
      apply in_map_iff in Hjm. destruct Hjm as ([k x] & Hk & Hkx). cbn [fst] in Hk. subst k.
      apply in_map_iff. exists (j, x). split; [reflexivity|].
      apply filter_In. split; [assumption|]. cbn [fst].
      destruct (String.eqb_spec j i) as [->|]; [contradiction | reflexivity].
    + now apply Forall_filter_sub.
    + rewrite H1, H2. split.
      * rewrite map_app, <- app_assoc. cbn [map app].
        rewrite Forall_forall in Hid. specialize (Hid _ Hin). cbn [snd fst] in Hid.
        now rewrite Hid.
      * rewrite filter_and. apply filter_ext. intros [k x].
        unfold includes. cbn [fst existsb]. now rewrite negb_orb.
Qed.

(** X13: When the tasks have distinct identifiers, [reorderTasks] returns the
    same tasks in another order, whatever the order asked for lists
    (unknown or repeated identifiers included); asked for the order the
    tasks are in, it returns them unchanged. *)
Theorem reorderTasks_keeps_the_tasks ts order :
  NoDup (map id ts) ->
  Permutation (reorderTasks ts order) ts /\ reorderTasks ts (map id ts) = ts.
Proof.
  intros H. rewrite !reorderTasks_eq, (taskMapOf_NoDup ts H). split.
  - rewrite take_in_order_perm. cbn [app]. rewrite map_map. cbn [snd].
    now rewrite map_id.
  - rewrite take_own_order. cbn [fst snd map app]. now rewrite app_nil_r.
Qed.

Lemma reorderTasks_keeps_the_tasks_witness :
  Permutation (reorderTasks [Demo.tHigh; Demo.tMedium; Demo.tLow] ["l"; "x"; "h"; "l"])
              [Demo.tHigh; Demo.tMedium; Demo.tLow]
  /\ reorderTasks [Demo.tHigh; Demo.tMedium; Demo.tLow]
       (map id [Demo.tHigh; Demo.tMedium; Demo.tLow])
     = [Demo.tHigh; Demo.tMedium; Demo.tLow].
Proof.
  apply reorderTasks_keeps_the_tasks.
  repeat constructor; cbn; intuition discriminate.
Defined.

(** X14: When the tasks have distinct identifiers and the order lists
    identifiers of tasks without repetition, the result has the listed
    tasks first, in the order asked for, followed by the tasks that are not
    listed in the order they were in. *)
Theorem reorderTasks_follows_the_order ts order :
  NoDup (map id ts) -> NoDup order -> incl order (map id ts) ->
  map id (reorderTasks ts order)
  = order ++ filter (fun i => negb (includes order i)) (map id ts).
Proof.
  intros H Ho Hincl. rewrite reorderTasks_eq, (taskMapOf_NoDup ts H).
  destruct (take_in_order_ids order (map (fun t => (id t, t)) ts) []) as [H1 H2].
  - rewrite map_map. cbn [fst]. exact H.
  - exact Ho.
  - rewrite map_map. cbn [fst]. exact Hincl.
  - apply Forall_forall. intros kv Hin. apply in_map_iff in Hin.
    destruct Hin as (t & <- & _). reflexivity.
  - rewrite map_app, H1, H2. cbn [map app]. f_equal.
    clear. induction ts as [|t ts IH]; [reflexivity|].
    cbn [map filter fst]. destruct (includes order (id t)); cbn [negb map snd];
      now rewrite IH.
Qed.

Lemma reorderTasks_follows_the_order_witness :
  map id (reorderTasks [Demo.tHigh; Demo.tMedium; Demo.tLow] ["l"; "h"]) = ["l"; "h"; "m"].
Proof.
  apply (reorderTasks_follows_the_order [Demo.tHigh; Demo.tMedium; Demo.tLow] ["l"; "h"]).
  - repeat constructor; cbn; intuition discriminate.
  - repeat constructor; cbn; intuition discriminate.
  - intros i Hi. cbn in *. intuition.
Defined.

(* ================================================================== *)
(** ** The store when the storage takes every write *)

Section StoreFacts.
Variable host : Host.
Hypothesis Hacc : accepting host.

Lemma saveTasks_accepted ts w :
  saveTasks host ts w
  = (Ok tt,
     {| storage := {| tasks := ts;
                      lastUpdated := Some (JSDate.toISOString (clock host (calls w))) |};
        calls := S (calls w); ui := ui w |}).
Proof. unfold saveTasks. apply saveTasks_at_accepted. apply Hacc. Qed.

Lemma filter_length_find {A} (f : A -> bool) l :
  (List.length (filter (fun x => negb (f x)) l) =? List.length l)%nat
  = match find f l with None => true | Some _ => false end.
Proof.
  assert (Hle : forall l0 : list A,
             (List.length (filter (fun x => negb (f x)) l0) <= List.length l0)%nat).
  { intros l0. induction l0 as [|y l0 IH0]; cbn [filter]; [cbn; lia|].
    destruct (f y); cbn [negb List.length]; lia. }
  induction l as [|x l IH]; [reflexivity|].
  cbn [filter find]. destruct (f x); cbn [negb List.length].
  - apply Nat.eqb_neq. specialize (Hle l). lia.
  - exact IH.
Qed.

Lemma find_filter_other i (l : list Task) : find (hasId i) (filter (otherThan i) l) = None.
Proof.
  induction l as [|x l IH]; [reflexivity|].
  cbn [filter]. unfold otherThan at 1. destruct (hasId i x) eqn:E; cbn [negb]; [exact IH|].
  cbn [find]. now rewrite E.
Qed.

Lemma deleteTask_run i w :
  deleteTask host i w
  = match find (hasId i) (tasks (storage w)) with
    | None => (Throw (NotFoundError "Task not found"), w)
    | Some _ =>
        (Ok true,
         {| storage := {| tasks := filter (otherThan i) (tasks (storage w));
                          lastUpdated := Some (JSDate.toISOString (clock host (calls w))) |};
            calls := S (calls w); ui := ui w |})
    end.
Proof.
  unfold deleteTask. run. fold (otherThan i).
  unfold otherThan at 1. rewrite (filter_length_find (hasId i)).
  destruct (find _ _); [|reflexivity].
  now rewrite saveTasks_accepted.
Qed.
End StoreFacts.

(** X15: [deleteTask] throws "Task not found" and leaves the world as it is
    when no stored task has the identifier; otherwise, when the storage
    takes the write, it returns [true] and stores the collection without
    every task of that identifier, the others in their order, so that the
    identifier is no longer found. *)
Theorem deleteTask_removes_the_task host i w :
  accepting host ->
  (find (hasId i) (tasks (storage w)) = None ->
   deleteTask host i w = (Throw (NotFoundError "Task not found"), w))
  /\ (find (hasId i) (tasks (storage w)) <> None ->
      exists w',
        deleteTask host i w = (Ok true, w')
        /\ tasks (storage w') = filter (otherThan i) (tasks (storage w))
        /\ find (hasId i) (tasks (storage w')) = None).
Proof.
  intros Hacc. rewrite (deleteTask_run host Hacc). split.
  - intros ->. reflexivity.
  - intros H. destruct (find _ _); [|congruence].
    eexists. split; [reflexivity|]. cbn [storage tasks].
    split; [reflexivity | apply find_filter_other].
Qed.

Lemma deleteTask_removes_the_task_witness :
  exists w',
    deleteTask Demo.host "m" (Demo.world [Demo.tHigh; Demo.tMedium; Demo.tLow]) = (Ok true, w')
    /\ tasks (storage w') = [Demo.tHigh; Demo.tLow]
    /\ find (hasId "m") (tasks (storage w')) = None.
Proof.
  refine (proj2 (deleteTask_removes_the_task Demo.host "m"
                   (Demo.world [Demo.tHigh; Demo.tMedium; Demo.tLow]) _) _).
  - intros d. reflexivity.
  - vm_compute. discriminate.
Defined.

Section CreateFacts.
Variable host : Host.
Hypothesis Hacc : accepting host.

Lemma truncate_length s n : (String.length (truncate s n) <= n)%nat.
Proof.
  unfold truncate. destruct (negb (JSString.truthy s)) eqn:Et; cbn [orb].
  - destruct s; [cbn; lia | discriminate].
  - destruct (String.length s <=? n)%nat eqn:E.
    + now apply Nat.leb_le.
    + etransitivity; [apply trim_length | apply substring_length_le].
Qed.

Lemma priority_valid prio :
  In (if includes validPriorities prio then prio else "medium"%string) validPriorities.
Proof.
  destruct (includes validPriorities prio) eqn:E.
  - unfold includes in E. apply existsb_exists in E. destruct E as (x & Hx & E).
    apply String.eqb_eq in E. now subst.
  - cbn. auto.
Qed.

(** [createTask] when the storage takes the write. *)
Lemma createTask_run td w :
  match createTask host td w with
  | (Ok t, w') =>
      tasks (storage w') = tasks (storage w) ++ [t]
      /\ ui w' = ui w
      /\ (exists raw, td_title td = Some raw /\ blank raw = false
                      /\ title t = truncate (sanitizeString host raw) 200)
      /\ id t = ("task_" ++ JSString.of_Z (clock host (calls w)) ++ "_"
                 ++ random36 host (S (calls w)))%string
      /\ status t = "active"%string /\ completedAt t = None /\ subtasks t = []
      /\ In (priority t) validPriorities
      /\ (forall d, dueDate t = Some d -> td_dueDate td = Some d /\ Date_parse host d <> None)
      /\ parentId t = or_null (td_parentId td)
      /\ recurring t = td_recurring td
  | (Throw e, w') =>
      storage w' = storage w /\ ui w' = ui w
      /\ ((e = ValidationError "Task title is required"
           /\ match td_title td with Some raw => blank raw = true | None => True end)
          \/ (e = ValidationError "Invalid date format"
              /\ exists d, td_dueDate td = Some d /\ JSString.truthy d = true
                           /\ Date_parse host d = None))
  end.
Proof.
  unfold createTask, generateId, validateDate. run.
  destruct (td_title td) as [raw|];
    [|split; [reflexivity | split; [reflexivity | left; split; [reflexivity | exact I]]]].
  destruct (blank raw) eqn:Eb;
    [split; [reflexivity | split; [reflexivity | left; split; reflexivity]]|].
  destruct (td_dueDate td) as [d|] eqn:Ed;
    [destruct (JSString.truthy d) eqn:Et; cbn [negb];
     [destruct (Date_parse host d) eqn:Ep;
      [|split; [reflexivity | split; [reflexivity | right; split; [reflexivity | eauto]]]]|]|].
  all: rewrite (saveTasks_accepted host Hacc); cbn [storage tasks ui id title status completedAt
                                         subtasks priority dueDate parentId recurring calls].
  all: repeat match goal with |- _ /\ _ => split end; try reflexivity;
    try (exists raw; repeat split; (reflexivity || exact Eb));
    try apply priority_valid; try discriminate.
  intros d' [= <-]. split; [reflexivity | congruence].
Qed.
End CreateFacts.

(** X16: When the storage takes every write, [createTask] either throws one
    of its two validation errors and leaves storage and dialogs as they
    are, or returns a new task that it has appended to the stored
    collection.  It throws "Task title is required" exactly when the
    title is missing, empty or made of white space only (the white space
    that [trim] removes, the no-break space included), and otherwise
    "Invalid date format" exactly when a non-empty due date does not
    parse.  The task it appends is active, not completed, without
    subtasks, with one of the three priorities, a title of at most 200
    characters and a due date that is null or parses. *)
Theorem createTask_appends_a_valid_task host td w :
  accepting host ->
  match createTask host td w with
  | (Ok t, w') =>
      tasks (storage w') = tasks (storage w) ++ [t]
      /\ (exists raw, td_title td = Some raw /\ blank raw = false)
      /\ (forall d, td_dueDate td = Some d -> JSString.truthy d = true ->
                    Date_parse host d <> None)
      /\ status t = "active"%string /\ completedAt t = None /\ subtasks t = []
      /\ In (priority t) validPriorities
      /\ (String.length (title t) <= 200)%nat
      /\ (forall d, dueDate t = Some d -> Date_parse host d <> None)
  | (Throw e, w') =>
      storage w' = storage w /\ ui w' = ui w
      /\ ((e = ValidationError "Task title is required"
           /\ match td_title td with Some raw => blank raw = true | None => True end)
          \/ (e = ValidationError "Invalid date format"
              /\ (exists raw, td_title td = Some raw /\ blank raw = false)
              /\ exists d, td_dueDate td = Some d /\ JSString.truthy d = true
                           /\ Date_parse host d = None))
  end.
Proof.
  intros Hacc.
  unfold createTask, generateId, validateDate. run.
  destruct (td_title td) as [raw|];
    [|split; [reflexivity | split; [reflexivity | left; split; [reflexivity | exact I]]]].
  destruct (blank raw) eqn:Eb;
    [split; [reflexivity | split; [reflexivity | left; split; reflexivity]]|].
  destruct (td_dueDate td) as [d|] eqn:Ed;
    [destruct (JSString.truthy d) eqn:Et; cbn [negb];
     [destruct (Date_parse host d) eqn:Ep;
      [|split; [reflexivity
               | split; [reflexivity
                        | right; split; [reflexivity | split; eauto]]]]|]|].
  all: rewrite (saveTasks_accepted host Hacc); cbn [storage tasks ui id title status
                                                     completedAt subtasks priority dueDate].
  all: split; [reflexivity|]; split; [eauto|].
  all: split; [intros d' Hd' Ht'; try discriminate Hd'; try congruence|].
  all: repeat match goal with |- _ /\ _ => split end; try reflexivity;
    try apply priority_valid; try apply truncate_length; try discriminate.
  intros d' [= <-]. congruence.
Qed.

Lemma createTask_appends_a_valid_task_witness :
  match createTask Demo.host (titleOnly "Write report") (Demo.world [Demo.tHigh]) with
  | (Ok t, w') => tasks (storage w') = [Demo.tHigh; t] /\ status t = "active"%string
  | (Throw _, _) => False
  end.
Proof.
  pose proof (createTask_appends_a_valid_task Demo.host (titleOnly "Write report")
                (Demo.world [Demo.tHigh]) (fun _ => eq_refl)) as H.
  destruct (createTask Demo.host (titleOnly "Write report") (Demo.world [Demo.tHigh]))
    as [[t|e] w'] eqn:E.
  - destruct H as (H1 & _ & _ & H4 & _). split; assumption.
  - vm_compute in E. discriminate E.
Defined.

(** A title that is a no-break space is white space only. *)
Example createTask_rejects_a_no_break_space :
  createTask Demo.host (titleOnly (String (ascii_of_nat 160) EmptyString)) (Demo.world [])
  = (Throw (ValidationError "Task title is required"), Demo.world []).
Proof. reflexivity. Qed.

Lemma find_app_new i (l : list Task) t :
  find (hasId i) l = None -> hasId i t = true ->
  find (hasId i) (l ++ [t]) = Some t /\ filter (otherThan i) (l ++ [t]) = l.
Proof.
  intros Hf Ht. induction l as [|x l IH].
  - cbn [app find filter]. unfold otherThan. rewrite Ht. now split.
  - cbn [app find filter] in *. unfold otherThan at 1.
    destruct (hasId i x); [discriminate|]. cbn [negb].
    destruct (IH Hf) as [H1 H2]. now rewrite H1, H2.
Qed.

(** X17: A task created under an identifier that no stored task has is found
    under it afterwards, and deleting it restores the collection that was
    stored before (the storage taking every write). *)
Theorem create_then_delete_restores host td w t w1 :
  accepting host ->
  createTask host td w = (Ok t, w1) ->
  find (hasId (id t)) (tasks (storage w)) = None ->
  getTaskById (id t) w1 = (Ok (Some t), w1)
  /\ exists w2, deleteTask host (id t) w1 = (Ok true, w2)
                /\ tasks (storage w2) = tasks (storage w).
Proof.
  intros Hacc Hc Hfresh.
  pose proof (createTask_run host Hacc td w) as H. rewrite Hc in H.
  destruct H as (Hts & _).
  destruct (find_app_new (id t) (tasks (storage w)) t Hfresh) as [Hfind Hfilter];
    [unfold hasId; apply String.eqb_refl|].
  split.
  - unfold getTaskById. run. now rewrite Hts, Hfind.
  - rewrite (deleteTask_run host Hacc), Hts, Hfind. eexists. split; [reflexivity|].
    cbn [storage tasks]. exact Hfilter.
Qed.

Lemma create_then_delete_restores_witness :
  let w := Demo.world [Demo.tHigh] in
  exists t w1 w2,
    createTask Demo.host (titleOnly "Write report") w = (Ok t, w1)
    /\ getTaskById (id t) w1 = (Ok (Some t), w1)
    /\ deleteTask Demo.host (id t) w1 = (Ok true, w2)
    /\ tasks (storage w2) = tasks (storage w).
Proof.
  intros w.
  pose (r := createTask Demo.host (titleOnly "Write report") w).
  assert (E : createTask Demo.host (titleOnly "Write report") w = r) by reflexivity.
  vm_compute in r.
  match eval unfold r in r with
  | (Ok ?t, ?w1) =>
      destruct (create_then_delete_restores Demo.host (titleOnly "Write report") w t w1
                  (fun _ => eq_refl) E eq_refl) as (H1 & w2 & H2 & H3);
      exists t, w1, w2; repeat split; assumption
  end.
Defined.

(* ================================================================== *)
(** ** What [updateTask] changes *)

Section UpdateShape.
Variable host : Host.

(** What a patch that passed validation holds. *)
Lemma validateUpdates_ok p w u w' :
  validateUpdates host p w = (Ok u, w') ->
  (forall v, p_priority u = Some v -> In v validPriorities)
  /\ (forall v, p_title u = Some v -> (String.length v <= 200)%nat)
  /\ (forall d, p_dueDate u = Some (Some d) -> Date_parse host d <> None)
  /\ p_status u = p_status p.
Proof.
  destruct p as [ti de pr st ta du re pi pp ps pc pd].
  unfold validateUpdates, validateDate. run.
  cbv beta iota delta
    [set_status set_title set_description set_dueDate
     p_title p_description p_priority p_status p_tags p_dueDate p_recurring
     p_id p_parentId p_subtasks p_createdAt p_completedAt].
  destruct ti as [t|]; [destruct (blank t); [discriminate|]|];
    destruct de as [d|];
    (destruct pr as [pr|];
     [destruct (includes validPriorities pr) eqn:Ei; [|discriminate]|]);
    (destruct du as [[dd|]|];
     [destruct (JSString.truthy dd); cbn [negb];
      [destruct (Date_parse host dd) eqn:Ep; [|discriminate]|]| |]);
    intros [= <- <-];
    cbv beta iota delta
      [p_title p_description p_priority p_status p_tags p_dueDate p_recurring
     p_id p_parentId p_subtasks p_createdAt p_completedAt];
    repeat split; try discriminate;
    try (intros v [= <-]; apply truncate_length);
    try (intros v [= <-]; congruence);
    try (intros v [= <-]; unfold includes in Ei; apply existsb_exists in Ei;
         destruct Ei as (x & Hx & Ei); apply String.eqb_eq in Ei; now subst).
Qed.

(** The record [updateTask] hands to [saveTasks] is the stored one
    merged with the validated patch, with a completion time set by the
    status rule. *)
Lemma updateTask_shape i p w t u :
  find (hasId i) (tasks (storage w)) = Some t ->
  validateUpdates host p w = (Ok u, w) ->
  exists final w1 idx stamp c,
    updateTask host i p w
    = match saveTasks host (list_set idx final (tasks (storage w))) w1 with
      | (Ok _, w2) => (Ok final, w2)
      | (Throw e, w2) => (Throw e, w2)
      end
    /\ findIndex (hasId i) (tasks (storage w)) = Some idx
    /\ storage w1 = storage w /\ ui w1 = ui w
    /\ final = set_completedAt (merge t u stamp) c.
Proof.
  intros Hfind Hu.
  destruct (find_findIndex _ _ _ Hfind) as [idx Hidx].
  unfold updateTask. run. rewrite Hfind, Hidx, Hu.
  destruct (match p_status u with Some s => (s =? "completed")%string | None => false end
            && match completedAt (merge t u _) with None => true | Some _ => false end).
  - eexists _, _, idx, _, _. split; [reflexivity|]. repeat split; reflexivity.
  - destruct (match p_status u with Some s => (s =? "active")%string | None => false end).
    + eexists _, _, idx, _, _. split; [reflexivity|]. repeat split; reflexivity.
    + eexists _, _, idx, _, (patched (p_completedAt u) (completedAt t)).
      split; [reflexivity|].
      repeat split; reflexivity.
Qed.

Lemma list_set_found i (l : list Task) idx v :
  findIndex (hasId i) l = Some idx -> hasId i v = true ->
  map id (list_set idx v l) = map id l
  /\ filter (otherThan i) (list_set idx v l) = filter (otherThan i) l
  /\ List.length (list_set idx v l) = List.length l.
Proof.
  intros Hidx Hv. revert idx Hidx. induction l as [|x l IH]; intros idx; [discriminate|].
  cbn [findIndex]. destruct (hasId i x) eqn:E.
  - intros [= <-]. cbn [list_set map filter List.length]. unfold otherThan.
    rewrite E, Hv. cbn [negb]. unfold hasId in *.
    apply String.eqb_eq in E, Hv. rewrite E, Hv. auto.
  - destruct (findIndex (hasId i) l) as [j|]; [|discriminate].
    intros [= <-]. cbn [list_set map filter List.length].
    assert (Ex : otherThan i x = true) by (unfold otherThan; now rewrite E).
    rewrite !Ex. destruct (IH j eq_refl) as (H1 & H2 & H3).
    now rewrite H1, H2, H3.
Qed.
End UpdateShape.

Lemma list_set_others {A} (l : list A) idx v :
  List.length (list_set idx v l) = List.length l
  /\ forall j, j <> idx -> nth_error (list_set idx v l) j = nth_error l j.
Proof.
  revert idx. induction l as [|x l IH]; intros idx.
  - destruct idx; split; reflexivity || (intros; reflexivity).
  - destruct idx as [|k]; cbn [list_set List.length].
    + split; [reflexivity|]. intros [|j] Hj; [congruence | reflexivity].
    + destruct (IH k) as [H1 H2]. split; [now rewrite H1|].
      intros [|j] Hj; [reflexivity|]. cbn [nth_error]. apply H2. congruence.
Qed.

(** X18: A successful [updateTask], the storage taking every write, puts the
    returned task in the place of the first stored task of the identifier
    and leaves every other task as it was.  The returned task takes
    [id], [createdAt], [parentId] and [subtasks] from the patch when the
    patch supplies them and keeps those of the task it replaces
    otherwise.  When the patch supplies no [id], the identifiers keep
    their order, the returned task is the one found under the identifier
    and the tasks of other identifiers are unchanged. *)
Theorem updateTask_touches_one_task host i p w t' w' :
  accepting host ->
  updateTask host i p w = (Ok t', w') ->
  exists t idx,
    find (hasId i) (tasks (storage w)) = Some t
    /\ findIndex (hasId i) (tasks (storage w)) = Some idx
    /\ tasks (storage w') = list_set idx t' (tasks (storage w))
    /\ List.length (tasks (storage w')) = List.length (tasks (storage w))
    /\ (forall j, j <> idx ->
          nth_error (tasks (storage w')) j = nth_error (tasks (storage w)) j)
    /\ id t' = patched (p_id p) (id t)
    /\ createdAt t' = patched (p_createdAt p) (createdAt t)
    /\ parentId t' = patched (p_parentId p) (parentId t)
    /\ subtasks t' = patched (p_subtasks p) (subtasks t)
    /\ (p_id p = None ->
        find (hasId i) (tasks (storage w')) = Some t'
        /\ map id (tasks (storage w')) = map id (tasks (storage w))
        /\ filter (otherThan i) (tasks (storage w'))
           = filter (otherThan i) (tasks (storage w))).
Proof.
  intros Hacc Hrun.
  destruct (find (hasId i) (tasks (storage w))) as [t|] eqn:Hfind.
  2:{ rewrite updateTask_missing in Hrun by assumption. discriminate. }
  destruct (validateUpdates_run host p w) as [(u & Hu & _) | (msg & Hu)].
  2:{ destruct (updateTask_found host i p w t Hfind)
        as [(msg' & _ & Ht) | (u & ? & ? & ? & _ & Hu' & _)]; congruence. }
  destruct (validateUpdates_extras host p w u w Hu) as (Ei & Ep & Es & Ec & _).
  destruct (updateTask_shape host i p w t u Hfind Hu)
    as (final & w1 & idx & stamp & c & Heq & Hidx & Hs1 & _ & Hfinal).
  rewrite Heq, (saveTasks_accepted host Hacc) in Hrun. injection Hrun as <- <-.
  cbn [storage tasks].
  destruct (list_set_others (tasks (storage w)) idx final) as [Hlen Hnth].
  exists t, idx. split; [reflexivity|]. split; [assumption|]. split; [reflexivity|].
  split; [assumption|]. split; [assumption|].
  rewrite Hfinal at 1 2 3 4.
  cbn [set_completedAt merge id createdAt parentId subtasks]. unfold patched.
  rewrite Ei, Ep, Es, Ec.
  split; [reflexivity|]. split; [reflexivity|]. split; [reflexivity|].
  split; [reflexivity|].
  intros Hno.
  assert (Hid : hasId i final = true).
  { rewrite Hfinal. unfold hasId. cbn [set_completedAt merge id].
    rewrite Ei, Hno. apply find_some in Hfind. apply Hfind. }
  destruct (list_set_found i (tasks (storage w)) idx final Hidx Hid) as (H1 & H2 & _).
  split; [now apply find_list_set|]. split; assumption.
Qed.

Lemma updateTask_touches_one_task_witness :
  exists t' w',
    updateTask Demo.host "m" (priorityPatch "high")
      (Demo.world [Demo.tHigh; Demo.tMedium; Demo.tLow]) = (Ok t', w')
    /\ find (hasId "m") (tasks (storage w')) = Some t'
    /\ map id (tasks (storage w')) = ["h"; "m"; "l"]%string.
Proof.
  pose (r := updateTask Demo.host "m" (priorityPatch "high")
               (Demo.world [Demo.tHigh; Demo.tMedium; Demo.tLow])).
  assert (E : updateTask Demo.host "m" (priorityPatch "high")
                (Demo.world [Demo.tHigh; Demo.tMedium; Demo.tLow]) = r) by reflexivity.
  vm_compute in r.
  match eval unfold r in r with
  | (Ok ?t, ?w1) =>
      destruct (updateTask_touches_one_task Demo.host "m" (priorityPatch "high")
                  (Demo.world [Demo.tHigh; Demo.tMedium; Demo.tLow]) t w1
                  (fun _ => eq_refl) E)
        as (t0 & idx & _ & _ & _ & _ & _ & _ & _ & _ & _ & H);
      destruct (H eq_refl) as (H1 & H2 & _);
      exists t, w1; repeat split; assumption
  end.
Defined.

(* ================================================================== *)
(** ** What validation guarantees of every stored task *)

Section WellFormed.
Variable host : Host.

Ltac save_wf :=
  match goal with
  | |- context [saveTasks host ?l ?w0] =>
      let H := fresh "Hsaved" in
      assert (H : Forall (wellFormed host) (tasks (storage (snd (saveTasks host l w0)))));
      [ apply saveTasks_Forall | destruct (saveTasks host l w0) as [[[]|?] ?]; exact H ]
  end.

Lemma createTask_wf td w :
  Forall (wellFormed host) (tasks (storage w)) ->
  Forall (wellFormed host) (tasks (storage (snd (createTask host td w)))).
Proof.
  intros Hw. unfold createTask, generateId, validateDate. run.
  destruct (td_title td) as [raw|]; [|assumption].
  destruct (blank raw); [assumption|].
  destruct (td_dueDate td) as [d|];
    [destruct (JSString.truthy d); cbn [negb];
     [destruct (Date_parse host d) eqn:Ep; [|assumption]|]|].
  all: save_wf; [|assumption].
  all: apply Forall_app; split; [assumption|];
    apply Forall_cons; [|apply Forall_nil];
    unfold wellFormed; cbn [priority title status dueDate];
    (split; [apply priority_valid|]); (split; [apply truncate_length|]);
    (split; [now left|]);
    intros d0 Hd; try discriminate Hd; injection Hd as <-; congruence.
Qed.

Lemma updateTask_wf i p w :
  documented p ->
  Forall (wellFormed host) (tasks (storage w)) ->
  Forall (wellFormed host) (tasks (storage (snd (updateTask host i p w)))).
Proof.
  intros Hdoc Hw.
  destruct (find (hasId i) (tasks (storage w))) as [t|] eqn:Hfind.
  2:{ now rewrite updateTask_missing. }
  destruct (validateUpdates_run host p w) as [(u & Hu & _) | (msg & Hu)].
  2:{ destruct (updateTask_found host i p w t Hfind)
        as [(msg' & _ & ->) | (u & ? & ? & ? & _ & Hu' & _)]; [assumption | congruence]. }
  destruct (updateTask_shape host i p w t u Hfind Hu)
    as (final & w1 & idx & stamp & c & -> & _ & Hs1 & _ & ->).
  save_wf; [|now rewrite Hs1].
  apply Forall_list_set; [assumption|].
  pose proof (Forall_find _ _ _ _ Hw Hfind) as (Hp & Ht & Hs & Hd).
  destruct (validateUpdates_ok host p w u w Hu) as (Vp & Vt & Vd & Vs).
  unfold wellFormed. cbn [set_completedAt merge priority title status dueDate].
  repeat split.
  - destruct (p_priority u); auto.
  - destruct (p_title u); auto.
  - rewrite Vs. destruct Hdoc as [Hdoc _]. destruct (p_status p); auto.
  - destruct (p_dueDate u) as [[d0|]|]; intros d E;
      [injection E as <-; now apply Vd | discriminate | now apply Hd].
Qed.

Lemma documented_fixed s :
  s = "active"%string \/ s = "completed"%string -> documented (statusPatch s).
Proof. intros H. split; [exact H | repeat split]. Qed.

Lemma toggleTaskStatus_wf i w :
  Forall (wellFormed host) (tasks (storage w)) ->
  Forall (wellFormed host) (tasks (storage (snd (toggleTaskStatus host i w)))).
Proof.
  intros Hw. unfold toggleTaskStatus, getTaskById. run.
  destruct (find (hasId i) (tasks (storage w))) as [t|]; [|assumption].
  apply updateTask_wf; [apply documented_statusPatch | assumption].
Qed.

Lemma deleteTask_wf i w :
  Forall (wellFormed host) (tasks (storage w)) ->
  Forall (wellFormed host) (tasks (storage (snd (deleteTask host i w)))).
Proof.
  intros Hw. unfold deleteTask. run.
  destruct (_ =? _)%nat; [assumption|].
  save_wf; [now apply Forall_filter_sub | assumption].
Qed.

Lemma createSubtask_wf parent td w :
  Forall (wellFormed host) (tasks (storage w)) ->
  Forall (wellFormed host) (tasks (storage (snd (createSubtask host parent td w)))).
Proof.
  intros Hw. unfold createSubtask. run.
  destruct (find (hasId parent) (tasks (storage w))) as [pt|] eqn:Hfind; [|assumption].
  destruct (findIndex (hasId parent) (tasks (storage w))) as [idx|]; [|assumption].
  pose proof (createTask_wf (set_parentId td (Some parent)) w Hw) as Hw1.
  destruct (createTask host (set_parentId td (Some parent)) w) as [[sub|e] w1];
    cbn [snd] in Hw1; [|assumption].
  save_wf; [|assumption].
  apply Forall_list_set; [assumption|].
  exact (Forall_find _ _ _ _ Hw Hfind).
Qed.

Lemma updateParentTaskProgress_wf parent w :
  Forall (wellFormed host) (tasks (storage w)) ->
  Forall (wellFormed host) (tasks (storage (snd (updateParentTaskProgress host parent w)))).
Proof.
  intros Hw. unfold updateParentTaskProgress, getSubtasks, getTaskById. run.
  destruct (_ =? 0)%nat; [assumption|].
  destruct (forallb _ _).
  - pose proof (updateTask_wf parent (statusPatch "completed") w
                  (documented_fixed _ (or_intror eq_refl)) Hw) as H.
    destruct (updateTask host parent _ w) as [[?|?] ?]; exact H.
  - destruct (existsb _ _); [|assumption].
    destruct (find (hasId parent) (tasks (storage w))) as [pt|]; [|assumption].
    destruct (isCompleted pt); [|assumption].
    pose proof (updateTask_wf parent (statusPatch "active") w
                  (documented_fixed _ (or_introl eq_refl)) Hw) as H.
    destruct (updateTask host parent _ w) as [[?|?] ?]; exact H.
Qed.

Lemma createNextRecurrence_wf task w :
  Forall (wellFormed host) (tasks (storage w)) ->
  Forall (wellFormed host) (tasks (storage (snd (createNextRecurrence host task w)))).
Proof.
  intros Hw. unfold createNextRecurrence. run.
  destruct (recurring task); [|assumption].
  destruct (calculateNextOccurrence host task) as [next|e]; [|assumption].
  destruct (negb (JSString.truthy_opt next)); [assumption|].
  match goal with
  | |- context [createTask host ?td w] =>
      pose proof (createTask_wf td w Hw) as H;
      destruct (createTask host td w) as [[?|?] ?]; exact H
  end.
Qed.

Lemma toggleTaskStatusWithRecurrence_wf i w :
  Forall (wellFormed host) (tasks (storage w)) ->
  Forall (wellFormed host)
    (tasks (storage (snd (toggleTaskStatusWithRecurrence host i w)))).
Proof.
  intros Hw. unfold toggleTaskStatusWithRecurrence, getTaskById. run.
  destruct (find (hasId i) (tasks (storage w))) as [t|]; [|assumption].
  pose proof (updateTask_wf i (statusPatch (flipped t)) w
                (documented_statusPatch t) Hw) as H.
  destruct (updateTask host i _ w) as [[u|e] w1]; cbn [snd] in H; [|assumption].
  destruct (_ && _ && _).
  - pose proof (createNextRecurrence_wf t w1 H) as H2.
    destruct (createNextRecurrence host t w1) as [[?|?] ?]; exact H2.
  - exact H.
Qed.

Lemma reachable_wf w : reachable host w -> Forall (wellFormed host) (tasks (storage w)).
Proof.
  induction 1 as [w Hempty | w w' _ IH Hstep]; [rewrite Hempty; constructor|].
  destruct Hstep.
  - now apply createTask_wf.
  - now apply updateTask_wf.
  - now apply toggleTaskStatus_wf.
  - now apply deleteTask_wf.
  - now apply createSubtask_wf.
  - now apply updateParentTaskProgress_wf.
  - now apply createNextRecurrence_wf.
  - now apply toggleTaskStatusWithRecurrence_wf.
Qed.
End WellFormed.

(** X19: In every collection reached from the empty one by calls of the store
    operations (patches of [updateTask] of the documented fields, with a
    documented status), whatever their arguments and whether they return or throw, whatever
    the storage accepts and whatever the quota recovery does, every stored
    task has one of the three priorities, a title of at most 200
    characters, the status ["active"] or ["completed"], and a due date
    that is null or parses. *)
Theorem stored_tasks_are_well_formed host w :
  reachable host w -> Forall (wellFormed host) (tasks (storage w)).
Proof. apply reachable_wf. Qed.

Lemma stored_tasks_are_well_formed_witness :
  let w1 := snd (createTask Demo.host (titleOnly "Write report") (Demo.world [])) in
  let w2 := snd (updateTask Demo.host "task_1717243200000_r1" (priorityPatch "urgent") w1) in
  Forall (wellFormed Demo.host) (tasks (storage w2)).
Proof.
  intros w1 w2.
  apply (stored_tasks_are_well_formed Demo.host w2).
  apply reach_step with w1.
  - apply reach_step with (Demo.world []).
    + apply reach_empty. reflexivity.
    + apply step_create.
  - apply step_update. split; [exact I | repeat split].
Defined.

Lemma count_two_statuses (l : list Task) :
  let a := List.length (filter (hasStatus "active") l) in
  let c := List.length (filter (hasStatus "completed") l) in
  (a + c <= List.length l)%nat
  /\ (List.length l = (a + c)%nat
      <-> Forall (fun t => status t = "active"%string \/ status t = "completed"%string) l).
Proof.
  cbv zeta. induction l as [|x l [IH1 IH2]].
  - split; [cbn; lia|]. split; [constructor | reflexivity].
  - cbn [filter List.length].
    assert (E : (hasStatus "active" x = true /\ hasStatus "completed" x = false
                 /\ status x = "active"%string)
                \/ (hasStatus "active" x = false /\ hasStatus "completed" x = true
                    /\ status x = "completed"%string)
                \/ (hasStatus "active" x = false /\ hasStatus "completed" x = false
                    /\ status x <> "active"%string /\ status x <> "completed"%string)).
    { unfold hasStatus.
      destruct (String.eqb_spec (status x) "active") as [Ea|Ea].
      - left. rewrite Ea. repeat split.
      - destruct (String.eqb_spec (status x) "completed") as [Ec|Ec].
        + right. left. repeat split. exact Ec.
        + right. right. repeat split; assumption. }
    destruct E as [(-> & -> & Hx) | [(-> & -> & Hx) | (-> & -> & Hx1 & Hx2)]];
      cbn [List.length].
    + split; [lia|]. split.
      * intros H. constructor; [now left|]. apply IH2. lia.
      * intros H. apply Forall_cons_iff in H. destruct H as [_ H].
        apply IH2 in H. lia.
    + split; [lia|]. split.
      * intros H. constructor; [now right|]. apply IH2. lia.
      * intros H. apply Forall_cons_iff in H. destruct H as [_ H].
        apply IH2 in H. lia.
    + split; [lia|]. split.
      * intros H. lia.
      * intros H. apply Forall_cons_iff in H. destruct H as [[H|H] _]; contradiction.
Qed.

(** X20: [getTaskCounts] changes nothing; [total] is the number of stored
    tasks and [active] plus [completed] is at most [total].  They add up
    to [total] exactly when every stored task has the status ["active"]
    or ["completed"], and that is the case in every collection reached
    from the empty one by the store operations when the patches of
    [updateTask] are patches of the documented fields ([updateTask]
    accepts any other status string, and a task with one is counted in
    [total] only). *)
Theorem getTaskCounts_add_up host w :
  exists c,
    getTaskCounts w = (Ok c, w)
    /\ c_total c = List.length (tasks (storage w))
    /\ (c_active c + c_completed c <= c_total c)%nat
    /\ (c_total c = (c_active c + c_completed c)%nat
        <-> Forall (fun t => status t = "active"%string \/ status t = "completed"%string)
                   (tasks (storage w)))
    /\ (reachable host w -> c_total c = (c_active c + c_completed c)%nat).
Proof.
  eexists. split; [reflexivity|]. cbn [c_total c_active c_completed].
  destruct (count_two_statuses (tasks (storage w))) as [H1 H2]. cbv zeta in H1, H2.
  split; [reflexivity|]. split; [exact H1|]. split; [exact H2|].
  intros H. apply H2.
  apply reachable_wf in H. eapply Forall_impl; [|exact H].
  intros t Ht. apply Ht.
Qed.

Lemma getTaskCounts_add_up_witness :
  let w1 := snd (createTask Demo.host (titleOnly "Write report") (Demo.world [])) in
  exists c, getTaskCounts w1 = (Ok c, w1)
            /\ c_total c = 1%nat
            /\ c_total c = (c_active c + c_completed c)%nat.
Proof.
  intros w1.
  destruct (getTaskCounts_add_up Demo.host w1) as (c & H1 & H2 & _ & _ & H5).
  exists c. split; [exact H1|]. split; [exact H2|].
  apply H5. apply reach_step with (Demo.world []).
  - apply reach_empty. reflexivity.
  - apply step_create.
Defined.

(** After the patch [{ status: "archived" }] the task is counted in
    [total] and in neither [active] nor [completed]. *)
Example getTaskCounts_after_archived :
  let t := Demo.mkTask "a" "low" "active" None None None None in
  let w1 := snd (updateTask Demo.host "a" (statusPatch "archived") (Demo.world [t])) in
  getTaskCounts w1 = (Ok {| c_total := 1; c_active := 0; c_completed := 0 |}, w1).
Proof. reflexivity. Qed.

(* ================================================================== *)
(** ** Toggling *)

Section ToggleFacts.
Variable host : Host.
Hypothesis Hacc : accepting host.

Lemma findIndex_list_set i (l : list Task) idx v :
  findIndex (hasId i) l = Some idx -> hasId i v = true ->
  findIndex (hasId i) (list_set idx v l) = Some idx
  /\ forall v', list_set idx v' (list_set idx v l) = list_set idx v' l.
Proof.
  intros Hidx Hv. revert idx Hidx. induction l as [|x l IH]; intros idx; [discriminate|].
  cbn [findIndex]. destruct (hasId i x) eqn:E.
  - intros [= <-]. cbn [list_set findIndex]. rewrite Hv. auto.
  - destruct (findIndex (hasId i) l) as [j|]; [|discriminate].
    intros [= <-]. cbn [list_set findIndex]. rewrite E.
    destruct (IH j eq_refl) as [H1 H2]. rewrite H1. split; [reflexivity|].
    intros v'. now rewrite H2.
Qed.

(** One toggle of a stored task whose status is one of the two
    documented ones. *)
Lemma toggleTaskStatus_run i w t idx :
  find (hasId i) (tasks (storage w)) = Some t ->
  findIndex (hasId i) (tasks (storage w)) = Some idx ->
  status t = "active"%string \/ status t = "completed"%string ->
  exists final w',
    toggleTaskStatus host i w = (Ok final, w')
    /\ tasks (storage w') = list_set idx final (tasks (storage w))
    /\ (exists u c, final = set_completedAt (merge t (statusPatch (flipped t)) u) c)
    /\ completedAt final
       = completedAt_after (completedAt t) (Some (flipped t))
           (JSDate.toISOString (clock host (S (calls w)))).
Proof.
  intros Hfind Hidx Hst.
  unfold toggleTaskStatus, getTaskById. run. rewrite Hfind.
  unfold updateTask, validateUpdates. run.
  rewrite Hfind, Hidx. unfold flipped, completedAt_after.
  destruct Hst as [-> | ->]; cbn [String.eqb Ascii.eqb Bool.eqb statusPatch p_title
    p_description p_priority p_dueDate p_status p_completedAt andb merge completedAt].
  - destruct (completedAt t) as [c|] eqn:Ec;
      rewrite (saveTasks_accepted host Hacc); eexists _, _;
      (split; [reflexivity|]); cbn [storage tasks];
      (split; [reflexivity|]); (split; [eexists _, _; reflexivity|]);
      cbn [set_completedAt completedAt]; now rewrite ?Ec.
  - rewrite (saveTasks_accepted host Hacc). eexists _, _.
    split; [reflexivity|]. cbn [storage tasks]. split; [reflexivity|].
    split; [eexists _, _; reflexivity | reflexivity].
Qed.
End ToggleFacts.

(** X21: Toggling a stored task twice (its status one of the two documented
    ones, the storage taking every write) gives back the task it was up
    to its modification and completion times, at the place it had, and
    touches no other task.  A task that was active ends without a
    completion time; a task that was completed ends with the time of the
    second toggle as its completion time. *)
Theorem toggle_twice_restores host i w t :
  accepting host ->
  find (hasId i) (tasks (storage w)) = Some t ->
  status t = "active"%string \/ status t = "completed"%string ->
  exists t1 w1 t2 w2,
    toggleTaskStatus host i w = (Ok t1, w1)
    /\ toggleTaskStatus host i w1 = (Ok t2, w2)
    /\ status t1 = flipped t
    /\ t2 = restamped t (updatedAt t2) (completedAt t2)
    /\ completedAt t2
       = (if (status t =? "active")%string then None
          else Some (JSDate.toISOString (clock host (S (calls w1)))))
    /\ find (hasId i) (tasks (storage w2)) = Some t2
    /\ map id (tasks (storage w2)) = map id (tasks (storage w))
    /\ filter (otherThan i) (tasks (storage w2)) = filter (otherThan i) (tasks (storage w)).
Proof.
  intros Hacc Hfind Hst.
  destruct (find_findIndex _ _ _ Hfind) as [idx Hidx].
  destruct (toggleTaskStatus_run host Hacc i w t idx Hfind Hidx Hst)
    as (t1 & w1 & H1 & Hts1 & (u1 & c1 & Ht1) & Hc1).
  assert (Hid1 : hasId i t1 = true).
  { rewrite Ht1. cbn. apply find_some in Hfind. tauto. }
  destruct (findIndex_list_set i (tasks (storage w)) idx t1 Hidx Hid1) as [Hidx1 Hset].
  assert (Hfind1 : find (hasId i) (tasks (storage w1)) = Some t1)
    by (rewrite Hts1; now apply find_list_set).
  rewrite <- Hts1 in Hidx1.
  assert (Hst1 : status t1 = flipped t) by (rewrite Ht1; reflexivity).
  assert (Hst1' : status t1 = "active"%string \/ status t1 = "completed"%string).
  { rewrite Hst1. unfold flipped. destruct Hst as [-> | ->]; cbn; auto. }
  destruct (toggleTaskStatus_run host Hacc i w1 t1 idx Hfind1 Hidx1 Hst1')
    as (t2 & w2 & H2 & Hts2 & (u2 & c2 & Ht2) & Hc2).
  assert (Hid2 : hasId i t2 = true).
  { rewrite Ht2. cbn. apply find_some in Hfind1. tauto. }
  rewrite Hts1, Hset in Hts2.
  destruct (list_set_found i (tasks (storage w)) idx t2 Hidx Hid2) as (Hm & Hf & _).
  exists t1, w1, t2, w2.
  split; [assumption|]. split; [assumption|]. split; [assumption|].
  split; [|split; [|split; [|split]]].
  - rewrite Ht2 at 1. rewrite Ht1. unfold restamped, flipped.
    rewrite Ht2. cbn [set_completedAt merge statusPatch p_title p_description p_priority
      p_id p_parentId p_subtasks p_createdAt p_completedAt
      p_status p_tags p_dueDate p_recurring id title description priority status tags
      dueDate parentId subtasks recurring createdAt updatedAt completedAt].
    destruct Hst as [E | E]; rewrite E; reflexivity.
  - unfold flipped in Hst1, Hc1, Hc2. unfold completedAt_after in Hc1, Hc2.
    destruct Hst as [E | E]; rewrite E in *;
      cbn [String.eqb Ascii.eqb Bool.eqb] in Hst1, Hc1 |- *;
      rewrite Hst1 in Hc2; cbn [String.eqb Ascii.eqb Bool.eqb] in Hc2.
    + exact Hc2.
    + now rewrite Hc1 in Hc2.
  - rewrite Hts2. now apply find_list_set.
  - now rewrite Hts2.
  - now rewrite Hts2.
Qed.

Lemma toggle_twice_restores_witness :
  exists t1 w1 t2 w2,
    toggleTaskStatus Demo.host "m" (Demo.world [Demo.tHigh; Demo.tMedium]) = (Ok t1, w1)
    /\ toggleTaskStatus Demo.host "m" w1 = (Ok t2, w2)
    /\ status t1 = "completed"%string
    /\ t2 = restamped Demo.tMedium (updatedAt t2) None.
Proof.
  destruct (toggle_twice_restores Demo.host "m" (Demo.world [Demo.tHigh; Demo.tMedium])
              Demo.tMedium (fun _ => eq_refl) eq_refl (or_introl eq_refl))
    as (t1 & w1 & t2 & w2 & H1 & H2 & H3 & H4 & H5 & _).
  exists t1, w1, t2, w2. repeat split; try assumption.
  rewrite H4 at 1. rewrite H5. reflexivity.
Defined.

(* ================================================================== *)
(** ** Subtasks *)

Lemma find_hasId_map i (l l' : list Task) :
  map id l = map id l' -> find (hasId i) l = None -> find (hasId i) l' = None.
Proof.
  revert l'. induction l as [|x l IH]; intros [|y l'] Hm; try discriminate; [reflexivity|].
  cbn [map] in Hm. injection Hm as Hxy Hm. cbn [find]. unfold hasId at 1 3.
  rewrite Hxy. destruct (id y =? i)%string; [discriminate|]. now apply IH.
Qed.

(** X22: [createSubtask] writes back the array it read before [createTask]
    ran.  When it succeeds (the storage taking every write), the stored
    collection has the tasks it had, the parent with the identifier of the
    subtask added to its [subtasks], and no other change: the subtask that
    is returned is not stored, and is not found under its identifier
    unless a task had that identifier before. *)
Theorem createSubtask_loses_the_subtask host parent td w sub w' :
  accepting host ->
  createSubtask host parent td w = (Ok sub, w') ->
  map id (tasks (storage w')) = map id (tasks (storage w))
  /\ filter (otherThan parent) (tasks (storage w'))
     = filter (otherThan parent) (tasks (storage w))
  /\ (exists p p', find (hasId parent) (tasks (storage w)) = Some p
                   /\ find (hasId parent) (tasks (storage w')) = Some p'
                   /\ subtasks p' = subtasks p ++ [id sub])
  /\ parentId sub = or_null (Some parent)
  /\ (find (hasId (id sub)) (tasks (storage w)) = None ->
      getTaskById (id sub) w' = (Ok None, w')).
Proof.
  intros Hacc Hrun. unfold createSubtask in Hrun. run.
  destruct (find (hasId parent) (tasks (storage w))) as [pt|] eqn:Hfind; [|discriminate].
  destruct (findIndex (hasId parent) (tasks (storage w))) as [idx|] eqn:Hidx; [|discriminate].
  pose proof (createTask_run host Hacc (set_parentId td (Some parent)) w) as Hc.
  destruct (createTask host (set_parentId td (Some parent)) w) as [[s|e] w1];
    [|discriminate].
  rewrite (saveTasks_accepted host Hacc) in Hrun. injection Hrun as -> <-.
  cbn [storage tasks].
  destruct Hc as (_ & _ & _ & _ & _ & _ & _ & _ & _ & Hparent & _).
  cbn [set_parentId td_parentId] in Hparent.
  match goal with
  | |- context [list_set idx ?v _] =>
      assert (Hid : hasId parent v = true)
        by (cbn; apply find_some in Hfind; tauto);
      destruct (list_set_found parent (tasks (storage w)) idx v Hidx Hid) as (Hm & Hf & _);
      pose proof (find_list_set (hasId parent) (tasks (storage w)) idx v Hidx Hid) as Hnew
  end.
  split; [assumption|]. split; [assumption|].
  split; [eexists _, _; split; [reflexivity|]; split; [exact Hnew | reflexivity]|].
  split; [assumption|].
  intros Hfresh. unfold getTaskById. run.
  erewrite find_hasId_map; [reflexivity | symmetry; exact Hm | exact Hfresh].
Qed.

Lemma createSubtask_loses_the_subtask_witness :
  exists sub w',
    createSubtask Demo.host "h" (titleOnly "Collect figures") (Demo.world [Demo.tHigh])
    = (Ok sub, w')
    /\ map id (tasks (storage w')) = ["h"]%string
    /\ getTaskById (id sub) w' = (Ok None, w').
Proof.
  pose (r := createSubtask Demo.host "h" (titleOnly "Collect figures")
               (Demo.world [Demo.tHigh])).
  assert (E : createSubtask Demo.host "h" (titleOnly "Collect figures")
                (Demo.world [Demo.tHigh]) = r) by reflexivity.
  vm_compute in r.
  match eval unfold r in r with
  | (Ok ?t, ?w1) =>
      destruct (createSubtask_loses_the_subtask Demo.host "h" (titleOnly "Collect figures")
                  (Demo.world [Demo.tHigh]) t w1 (fun _ => eq_refl) E)
        as (H1 & _ & _ & _ & H5);
      exists t, w1; split; [exact E|]; split; [exact H1 | exact (H5 eq_refl)]
  end.
Defined.

Section ProgressFacts.
Variable host : Host.

(** [updateTask] with a status patch on a stored task passes validation:
    it returns, or the storage fails. *)
Lemma updateTask_status_found i s w t :
  find (hasId i) (tasks (storage w)) = Some t ->
  forall e, fst (updateTask host i (statusPatch s) w) = Throw e -> isRangeError e.
Proof.
  intros Hfind e.
  destruct (updateTask_found host i (statusPatch s) w t Hfind)
    as [(msg & Hv & _) | (u & final & w1 & idx & -> & _)].
  - unfold validateUpdates in Hv. run. discriminate.
  - destruct (saveTasks host _ w1) as [[[]|e1] w2] eqn:Hs; cbn [fst]; [discriminate|].
    intros [= <-]. now apply saveTasks_throws in Hs.
Qed.
End ProgressFacts.

(** X23: [updateParentTaskProgress] does nothing when the parent has no
    subtask or none of them is completed.  It fails only in two ways: the
    storage fails during the write, or every subtask is completed and no
    task has the parent's identifier, in which case it throws "Task not
    found" and changes nothing; when only some subtasks are completed a
    missing parent goes unnoticed. *)
Theorem updateParentTaskProgress_errors host parent w :
  let subs := filter (isSubtaskOf parent) (tasks (storage w)) in
  let r := updateParentTaskProgress host parent w in
  (existsb isCompleted subs = false -> r = (Ok tt, w))
  /\ (forall e, fst r = Throw e ->
        isRangeError e
        \/ (e = NotFoundError "Task not found" /\ snd r = w /\ subs <> []
            /\ forallb isCompleted subs = true
            /\ find (hasId parent) (tasks (storage w)) = None))
  /\ (find (hasId parent) (tasks (storage w)) = None -> subs <> [] ->
      r = if forallb isCompleted subs
          then (Throw (NotFoundError "Task not found"), w)
          else (Ok tt, w)).
Proof.
  intros subs r. subst r. unfold updateParentTaskProgress, getSubtasks, getTaskById. run.
  fold subs. clearbody subs.
  destruct subs as [|s0 l].
  { cbn [List.length Nat.eqb]. split; [reflexivity|].
    split; [discriminate | congruence]. }
  cbn [List.length Nat.eqb]. set (subs := s0 :: l).
  assert (Hne : subs <> []) by discriminate.
  split; [|split].
  - intros Hany.
    assert (Hall : forallb isCompleted subs = false).
    { subst subs. cbn [existsb forallb] in *.
      apply orb_false_elim in Hany. destruct Hany as [-> _]. reflexivity. }
    now rewrite Hall, Hany.
  - intros e. destruct (forallb isCompleted subs) eqn:Hall.
    + destruct (find (hasId parent) (tasks (storage w))) as [t|] eqn:Hfind.
      * pose proof (updateTask_status_found host parent "completed" w t Hfind) as H.
        destruct (updateTask host parent _ w) as [[?|e1] w1]; cbn [fst] in *;
          [discriminate|]. intros [= <-]. left. now apply H.
      * rewrite updateTask_missing by assumption. cbn [fst snd]. intros [= <-].
        right. auto.
    + destruct (existsb isCompleted subs); [|discriminate].
      destruct (find (hasId parent) (tasks (storage w))) as [t|] eqn:Hfind; [|discriminate].
      destruct (isCompleted t); [|discriminate].
      pose proof (updateTask_status_found host parent "active" w t Hfind) as H.
      destruct (updateTask host parent _ w) as [[?|e1] w1]; cbn [fst] in *;
        [discriminate|]. intros [= <-]. left. now apply H.
  - intros Hfind _. destruct (forallb isCompleted subs).
    + now rewrite updateTask_missing.
    + destruct (existsb isCompleted subs); [rewrite Hfind|]; reflexivity.
Qed.

Lemma updateParentTaskProgress_errors_witness :
  let done := Demo.mkTask "s1" "low" "completed" None None (Some "gone")
                (Some "2024-05-02T08:00:00.000Z") in
  let todo := Demo.mkTask "s2" "low" "active" None None (Some "gone") None in
  updateParentTaskProgress Demo.host "gone" (Demo.world [done])
  = (Throw (NotFoundError "Task not found"), Demo.world [done])
  /\ updateParentTaskProgress Demo.host "gone" (Demo.world [done; todo])
     = (Ok tt, Demo.world [done; todo]).
Proof.
  intros done todo. split.
  - refine (proj2 (proj2 (updateParentTaskProgress_errors Demo.host "gone"
                            (Demo.world [done]))) _ _); [reflexivity | discriminate].
  - refine (proj2 (proj2 (updateParentTaskProgress_errors Demo.host "gone"
                            (Demo.world [done; todo]))) _ _); [reflexivity | discriminate].
Defined.

(* ================================================================== *)
(** ** Bulk operations *)

Section BulkFacts.
Variable host : Host.

Lemma counted_run {A} (m : M A) count w :
  exists n w', counted m count w = (Ok n, w') /\ (count <= n <= S count)%nat.
Proof.
  unfold counted. destruct (m w) as [[a|e] w']; eexists _, _; split; try reflexivity; lia.
Qed.

Lemma bulkDelete_from_ok ids : forall count w,
  exists n w', bulkDelete_from host count ids w = (Ok n, w')
               /\ (count <= n <= count + List.length ids)%nat.
Proof.
  induction ids as [|i ids IH]; intros count w.
  - eexists _, _. split; [reflexivity|]. cbn. lia.
  - cbn [bulkDelete_from]. unfold bind.
    destruct (counted_run (deleteTask host i) count w) as (n1 & w1 & -> & H1).
    destruct (IH n1 w1) as (n & w' & -> & H).
    eexists _, _. split; [reflexivity|]. cbn [List.length]. lia.
Qed.

Lemma bulkUpdate_from_ok ids : forall count p w,
  exists n w', bulkUpdate_from host count ids p w = (Ok n, w')
               /\ (count <= n <= count + List.length ids)%nat.
Proof.
  induction ids as [|i ids IH]; intros count p w.
  - eexists _, _. split; [reflexivity|]. cbn. lia.
  - cbn [bulkUpdate_from]. unfold getTaskById. run.
    destruct (counted_run (updateTask host i p) count w) as (n1 & w1 & -> & H1).
    match goal with
    | |- context [bulkUpdate_from host n1 ids ?q w1] =>
        destruct (IH n1 q w1) as (n & w' & -> & H)
    end.
    eexists _, _. split; [reflexivity|]. cbn [List.length]. lia.
Qed.

Hypothesis Hacc : accepting host.

Lemma filter_other_absent i (l : list Task) :
  find (hasId i) l = None -> filter (otherThan i) l = l.
Proof.
  induction l as [|x l IH]; [reflexivity|].
  cbn [find filter]. unfold otherThan at 1. destruct (hasId i x); [discriminate|].
  intros H. cbn [negb]. now rewrite IH.
Qed.

Lemma existsb_find i (l : list Task) :
  existsb (hasId i) l = match find (hasId i) l with Some _ => true | None => false end.
Proof.
  induction l as [|x l IH]; [reflexivity|].
  cbn [existsb find]. destruct (hasId i x); [reflexivity | exact IH].
Qed.

Lemma existsb_filter_other i j (l : list Task) :
  i <> j -> existsb (hasId j) (filter (otherThan i) l) = existsb (hasId j) l.
Proof.
  intros Hij. induction l as [|x l IH]; [reflexivity|].
  cbn [filter existsb]. unfold otherThan at 1. destruct (hasId i x) eqn:E; cbn [negb].
  - rewrite IH. unfold hasId in *. apply String.eqb_eq in E.
    destruct (String.eqb_spec (id x) j); [congruence | reflexivity].
  - cbn [existsb]. now rewrite IH.
Qed.

Lemma bulkDelete_from_run ids : forall count w,
  exists n w',
    bulkDelete_from host count ids w = (Ok n, w')
    /\ tasks (storage w') = filter (fun t => negb (includes ids (id t))) (tasks (storage w))
    /\ (NoDup ids ->
        n = (count + List.length
                       (filter (fun i => existsb (hasId i) (tasks (storage w))) ids))%nat).
Proof.
  induction ids as [|i ids IH]; intros count w.
  - eexists _, _. split; [reflexivity|]. split.
    + cbn [includes existsb negb]. symmetry. apply forallb_filter_id.
      now apply forallb_forall.
    + intros _. cbn. lia.
  - cbn [bulkDelete_from]. unfold bind, counted. rewrite (deleteTask_run host Hacc).
    assert (Hstep : forall l : list Task,
               filter (fun t => negb (includes ids (id t))) (filter (otherThan i) l)
               = filter (fun t => negb (includes (i :: ids) (id t))) l).
    { intros l. rewrite filter_and. apply filter_ext. intros t.
      unfold includes, otherThan, hasId. cbn [existsb]. now rewrite negb_orb. }
    cbn [filter]. rewrite existsb_find.
    destruct (find (hasId i) (tasks (storage w))) as [t|] eqn:Hfind.
    + match goal with
      | |- context [bulkDelete_from host (S count) ids ?w1] =>
          destruct (IH (S count) w1) as (n & w' & -> & Hts & Hn)
      end.
      cbn [storage tasks] in Hts, Hn.
      eexists _, _. split; [reflexivity|]. split; [now rewrite Hts, Hstep|].
      intros Hnd. apply NoDup_cons_iff in Hnd. destruct Hnd as [Hni Hnd].
      rewrite (Hn Hnd). cbn [List.length].
      rewrite (filter_ext_in _ (fun j => existsb (hasId j) (tasks (storage w))) ids); [lia|].
      intros j Hj. apply existsb_filter_other. congruence.
    + destruct (IH count w) as (n & w' & -> & Hts & Hn).
      eexists _, _. split; [reflexivity|].
      split; [now rewrite Hts, <- Hstep, (filter_other_absent i _ Hfind)|].
      intros Hnd. apply NoDup_cons_iff in Hnd. destruct Hnd as [Hni Hnd].
      now rewrite (Hn Hnd).
Qed.
End BulkFacts.

(** X24: [bulkDeleteTasks] and [bulkUpdateTasks] never throw, whatever the
    identifiers, the patch and the storage do: every error of a single
    operation is swallowed, and the count returned is at most the number
    of identifiers given. *)
Theorem bulk_operations_never_throw host ids p w :
  (exists n w', bulkDeleteTasks host ids w = (Ok n, w') /\ (n <= List.length ids)%nat)
  /\ (exists n w', bulkUpdateTasks host ids p w = (Ok n, w')
                   /\ (n <= List.length ids)%nat).
Proof.
  split.
  - destruct (bulkDelete_from_ok host ids 0 w) as (n & w' & H & Hn).
    exists n, w'. split; [exact H | cbn in Hn; lia].
  - destruct (bulkUpdate_from_ok host ids 0 p w) as (n & w' & H & Hn).
    exists n, w'. split; [exact H | cbn in Hn; lia].
Qed.

(** X25: When the storage takes every write, [bulkDeleteTasks] leaves exactly
    the stored tasks whose identifier is not listed, in their order; when
    no identifier is listed twice, it returns the number of listed
    identifiers that some stored task had. *)
Theorem bulkDeleteTasks_removes_the_listed host ids w :
  accepting host ->
  exists n w',
    bulkDeleteTasks host ids w = (Ok n, w')
    /\ tasks (storage w') = filter (fun t => negb (includes ids (id t))) (tasks (storage w))
    /\ (NoDup ids ->
        n = List.length (filter (fun i => existsb (hasId i) (tasks (storage w))) ids)).
Proof.
  intros Hacc. exact (bulkDelete_from_run host Hacc ids 0 w).
Qed.

Lemma bulkDeleteTasks_removes_the_listed_witness :
  exists n w',
    bulkDeleteTasks Demo.host ["l"; "x"; "h"] (Demo.world [Demo.tHigh; Demo.tMedium; Demo.tLow])
    = (Ok n, w')
    /\ tasks (storage w') = [Demo.tMedium]
    /\ n = 2%nat.
Proof.
  destruct (bulkDeleteTasks_removes_the_listed Demo.host ["l"; "x"; "h"]
              (Demo.world [Demo.tHigh; Demo.tMedium; Demo.tLow]) (fun _ => eq_refl))
    as (n & w' & H1 & H2 & H3).
  exists n, w'. split; [exact H1|]. split; [exact H2|].
  apply H3. repeat constructor; cbn; intuition discriminate.
Defined.

Section BulkUpdateFacts.
Variable host : Host.
Hypothesis Hacc : accepting host.

Lemma find_filter_other_id i j (l : list Task) :
  i <> j -> find (hasId j) (filter (otherThan i) l) = find (hasId j) l.
Proof.
  intros Hij. induction l as [|x l IH]; [reflexivity|].
  cbn [filter find]. unfold otherThan at 1. destruct (hasId i x) eqn:E; cbn [negb].
  - rewrite IH. unfold hasId in *. apply String.eqb_eq in E.
    destruct (String.eqb_spec (id x) j); [congruence | reflexivity].
  - cbn [find]. now rewrite IH.
Qed.

Lemma find_list_set_other i j (l : list Task) idx v :
  i <> j -> findIndex (hasId i) l = Some idx -> hasId i v = true ->
  find (hasId j) (list_set idx v l) = find (hasId j) l.
Proof.
  intros Hij Hidx Hv.
  destruct (list_set_found i l idx v Hidx Hv) as (_ & Hf & _).
  rewrite <- (find_filter_other_id i j (list_set idx v l) Hij), Hf.
  now apply find_filter_other_id.
Qed.

(** [updateTask] with a patch that holds a title only. *)
Lemma updateTask_title_run i T w t :
  find (hasId i) (tasks (storage w)) = Some t ->
  blank T = false ->
  exists final w' idx,
    updateTask host i (titlePatch T) w = (Ok final, w')
    /\ findIndex (hasId i) (tasks (storage w)) = Some idx
    /\ tasks (storage w') = list_set idx final (tasks (storage w))
    /\ title final = cleanTitle host T /\ hasId i final = true.
Proof.
  intros Hfind HT. destruct (find_findIndex _ _ _ Hfind) as [idx Hidx].
  unfold updateTask, validateUpdates. run. rewrite Hfind, Hidx.
  cbn [titlePatch p_title p_description p_priority p_dueDate p_status set_title andb].
  rewrite HT.
  cbn [titlePatch p_title p_description p_priority p_dueDate p_status set_title andb].
  rewrite (saveTasks_accepted host Hacc).
  eexists _, _, idx. split; [reflexivity|]. split; [reflexivity|].
  cbn [storage tasks]. split; [reflexivity|]. split; [reflexivity|].
  cbn. apply find_some in Hfind. tauto.
Qed.

Lemma updatesAfter_title T :
  blank T = false -> updatesAfter host (titlePatch T) = titlePatch (cleanTitle host T).
Proof.
  intros HT. unfold updatesAfter.
  cbn [titlePatch p_title p_description p_priority p_dueDate set_title]. rewrite HT.
  reflexivity.
Qed.
End BulkUpdateFacts.

(** X26: [bulkUpdateTasks] hands the same patch object to every [updateTask],
    and [updateTask] writes the cleaned title back into it: with two
    stored identifiers and a title patch, the first task receives the
    cleaned title and the second the cleaned title cleaned again (so a
    character that the sanitizer escapes is escaped twice). *)
Theorem bulkUpdateTasks_cleans_the_title_again host i1 i2 T w t1 t2 :
  accepting host ->
  i1 <> i2 ->
  find (hasId i1) (tasks (storage w)) = Some t1 ->
  find (hasId i2) (tasks (storage w)) = Some t2 ->
  blank T = false -> blank (cleanTitle host T) = false ->
  exists w' a b,
    bulkUpdateTasks host [i1; i2] (titlePatch T) w = (Ok 2%nat, w')
    /\ find (hasId i1) (tasks (storage w')) = Some a
    /\ title a = cleanTitle host T
    /\ find (hasId i2) (tasks (storage w')) = Some b
    /\ title b = cleanTitle host (cleanTitle host T).
Proof.
  intros Hacc Hne H1 H2 HT HT'.
  destruct (updateTask_title_run host Hacc i1 T w t1 H1 HT)
    as (a & w1 & idx1 & Hrun1 & Hidx1 & Hts1 & Hta & Hida).
  assert (H2' : find (hasId i2) (tasks (storage w1)) = Some t2).
  { rewrite Hts1, (find_list_set_other i1 i2); assumption. }
  destruct (updateTask_title_run host Hacc i2 (cleanTitle host T) w1 t2 H2' HT')
    as (b & w2 & idx2 & Hrun2 & Hidx2 & Hts2 & Htb & Hidb).
  exists w2, a, b.
  split.
  - unfold bulkUpdateTasks. cbn [bulkUpdate_from]. unfold getTaskById, counted. run.
    rewrite H1, Hrun1. cbv beta iota.
    rewrite (updatesAfter_title host T HT), Hrun2. reflexivity.
  - split; [|split; [assumption|split; [|assumption]]].
    + rewrite Hts2, (find_list_set_other i2 i1) by (assumption || congruence).
      rewrite Hts1. now apply find_list_set.
    + rewrite Hts2. now apply find_list_set.
Qed.

Lemma bulkUpdateTasks_cleans_the_title_again_witness :
  exists w' a b,
    bulkUpdateTasks Demo.host ["h"; "m"] (titlePatch "Q&A")
      (Demo.world [Demo.tHigh; Demo.tMedium]) = (Ok 2%nat, w')
    /\ find (hasId "h") (tasks (storage w')) = Some a
    /\ title a = "Q&amp;A"%string
    /\ find (hasId "m") (tasks (storage w')) = Some b
    /\ title b = "Q&amp;amp;A"%string.
Proof.
  refine (bulkUpdateTasks_cleans_the_title_again Demo.host "h" "m" "Q&A"
            (Demo.world [Demo.tHigh; Demo.tMedium]) Demo.tHigh Demo.tMedium
            (fun _ => eq_refl) _ eq_refl eq_refl eq_refl eq_refl).
  discriminate.
Defined.

(* ================================================================== *)
(** ** What [saveTasks] leaves in storage *)

Section SaveOutcome.
Variable host : Host.

Lemma recovered_refl l : recovered l l.
Proof.
  exists (fun _ => true). split; [reflexivity|]. symmetry. apply forallb_filter_id.
  now apply forallb_forall.
Qed.

Lemma recovered_keepRecent limit l : recovered l (filter (keepRecent host limit) l).
Proof.
  exists (keepRecent host limit). split; [|reflexivity].
  intros t Ht. unfold isActive in Ht. apply String.eqb_eq in Ht.
  unfold keepRecent. rewrite Ht. reflexivity.
Qed.

Lemma recovered_active l : recovered l (filter isActive l).
Proof. exists isActive. split; [auto | reflexivity]. Qed.

Lemma saveTasks_at_outcome depth : forall ts w,
  let blob := {| tasks := ts;
                 lastUpdated := Some (JSDate.toISOString (clock host (calls w))) |} in
  let w' := snd (saveTasks_at host depth ts w) in
  (storage_accepts host blob = true /\ tasks (storage w') = ts)
  \/ (storage_accepts host blob = false
      /\ recovered (tasks (storage w)) (tasks (storage w'))).
Proof.
  induction depth as [|d IH]; intros ts w; simpl; run;
    unfold saveData_with;
    destruct (storage_accepts host _) eqn:Eacc; run;
    try (left; split; reflexivity).
  - right. split; [reflexivity | apply recovered_refl].
  - right. split; [reflexivity|].
    unfold handleQuotaExceeded_with. run.
    match goal with
    | |- context [(List.length (filter ?f ?l) <? List.length ?l)%nat] =>
        destruct (List.length (filter f l) <? List.length l)%nat
    end.
    + match goal with
      | |- context [saveTasks_at host d ?l ?w0] =>
          specialize (IH l w0); cbv zeta in IH; cbn [storage calls] in IH;
          destruct (saveTasks_at host d l w0) as [[[]|e] w1]
      end; cbn [snd storage tasks] in *;
        (destruct IH as [[_ ->] | [_ H]]; [apply recovered_keepRecent | exact H]).
    + destruct (confirm_answer host _); run;
        match goal with
        | |- context [saveTasks_at host d ?l ?w0] =>
            specialize (IH l w0); cbv zeta in IH; cbn [storage calls] in IH;
            destruct (saveTasks_at host d l w0) as [[[]|e] w1]
        end; cbn [snd storage tasks] in *;
        (destruct IH as [[_ ->] | [_ H]]; [apply recovered_active | exact H]).
Qed.
End SaveOutcome.

(** X27: Whatever the storage does and however deep the quota recovery nests,
    [saveTasks] ends in one of two ways.  Either the storage took the
    array and it is what is stored; or the storage refused it, and then
    the array is not stored: what is stored is what was persisted before,
    less tasks that are not active (possibly none).  An error it throws is
    the engine's [RangeError]. *)
Theorem saveTasks_stores_or_recovers host ts w :
  let blob := {| tasks := ts;
                 lastUpdated := Some (JSDate.toISOString (clock host (calls w))) |} in
  let r := saveTasks host ts w in
  ((storage_accepts host blob = true /\ tasks (storage (snd r)) = ts)
   \/ (storage_accepts host blob = false
       /\ recovered (tasks (storage w)) (tasks (storage (snd r)))))
  /\ (forall e, fst r = Throw e -> isRangeError e).
Proof.
  cbv zeta. split.
  - exact (saveTasks_at_outcome host (stack_depth host) ts w).
  - intros e He. destruct (saveTasks host ts w) as [[[]|e1] w1] eqn:E; [discriminate|].
    cbn [fst] in He. injection He as <-. exact (saveTasks_throws host ts w e1 w1 E).
Qed.

(* ================================================================== *)
(** ** Recurrence with an interval *)

(** X28: For a task with a rule that gives [interval: n] and a due date:
    when the due date does not parse and the frequency is one of the
    three recognized ones, the call throws the [RangeError] of
    [toISOString] instead of returning; with any other frequency it
    returns null, whether the due date parses or not.  When the local
    time of the host is UTC and the due date parses to the time value
    [t], a daily rule returns the date of [t] plus [n] days and a weekly
    rule the date of [t] plus [7 n] days, and throws that [RangeError]
    when the instant is outside the range of [Date]. *)
Theorem calculateNextOccurrence_by_interval host task rule d n :
  recurring task = Some rule -> interval rule = Some n ->
  dueDate task = Some d -> JSString.truthy d = true ->
  let finish (next : JSDate.Date) :=
    match next with
    | Some t' => Ok (Some (JSDate.isoDate t'))
    | None => Throw (RangeError "Invalid time value")
    end in
  (Date_parse host d = None -> recognized (frequency rule) ->
   calculateNextOccurrence host task = Throw (RangeError "Invalid time value"))
  /\ (~ recognized (frequency rule) -> calculateNextOccurrence host task = Ok None)
  /\ (LocalTZA host = 0 ->
      forall t, Date_parse host d = Some t ->
        (frequency rule = "daily"%string ->
         calculateNextOccurrence host task
         = finish (JSDate.TimeClip (t + n * JSDate.msPerDay)))
        /\ (frequency rule = "weekly"%string ->
            calculateNextOccurrence host task
            = finish (JSDate.TimeClip (t + 7 * n * JSDate.msPerDay)))).
Proof.
  intros Hr Hi Hd Htr finish. subst finish.
  unfold calculateNextOccurrence. rewrite Hr, Hi, Hd. cbn [JSString.truthy_opt].
  rewrite Htr. cbn [negb].
  split; [|split].
  - intros Hp Hf. rewrite Hp.
    destruct Hf as [-> | [-> | ->]]; reflexivity.
  - intros Hf. unfold recognized in Hf.
    destruct (String.eqb_spec (frequency rule) "daily"); [tauto|].
    destruct (String.eqb_spec (frequency rule) "weekly"); [tauto|].
    destruct (String.eqb_spec (frequency rule) "monthly"); [tauto|].
    reflexivity.
  - intros _ t Hp. rewrite Hp. split; intros Hf; rewrite Hf;
      cbn [String.eqb Ascii.eqb Bool.eqb]; now rewrite setDate_getDate.
Qed.

Lemma calculateNextOccurrence_by_interval_witness :
  calculateNextOccurrence Demo.host
    (Demo.mkTask "a" "low" "active" (Some "2024-02-27")
       (Some {| frequency := "daily"; interval := Some 3 |}) None None)
  = Ok (Some "2024-03-01"%string).
Proof.
  refine (proj1 (proj2 (proj2 (calculateNextOccurrence_by_interval Demo.host
                   (Demo.mkTask "a" "low" "active" (Some "2024-02-27")
                      (Some {| frequency := "daily"; interval := Some 3 |}) None None)
                   {| frequency := "daily"; interval := Some 3 |} "2024-02-27" 3
                   eq_refl eq_refl eq_refl eq_refl)) eq_refl 1708992000000 eq_refl)
            eq_refl).
Defined.

(* ================================================================== *)
(** ** Listing *)

(** X29: [getAllTasks] changes nothing and returns what [filterTasks] of the
    filter module returns for the stored tasks and the same status and
    priority (no search, no dates, overdue switch off), whatever the
    time; [getTaskCounts] counts as active and completed the tasks that
    [getAllTasks] lists for these statuses. *)
Theorem getAllTasks_agrees_with_filterTasks host lf t w :
  getAllTasks lf w
  = (Ok (filterTasks host t (tasks (storage w))
           {| f_status := lf_status lf; f_priority := lf_priority lf;
              f_search := None; f_dateFrom := None; f_dateTo := None;
              f_showOverdueOnly := false |}), w)
  /\ exists c active completed,
       getTaskCounts w = (Ok c, w)
       /\ getAllTasks {| lf_status := Some "active"; lf_priority := None |} w = (Ok active, w)
       /\ getAllTasks {| lf_status := Some "completed"; lf_priority := Some "all" |} w
          = (Ok completed, w)
       /\ c_active c = List.length active /\ c_completed c = List.length completed.
Proof.
  split; [reflexivity|].
  eexists _, _, _. repeat split.
Qed.
